(** * Monitoring, alerting and task scheduling of the SQL automation agent

    A shallow embedding of [monitoring_system.py] (Alert, AlertManager,
    MonitoringSystem) and [scheduler.py] (ScheduledTask, TaskScheduler),
    followed by the properties of the alert life cycle, the threshold
    evaluation, the bounded metrics history and the task circuit breaker,
    and by further properties of the alert listing and summary, of the
    task registry and the armed jobs, of the scheduler loop and of the
    dashboard's task controls ([web_dashboard.py]).

    Conventions.
    - Python [float]s are IEEE binary64 values: Rocq's primitive floats.
      Python integers that occur as metric values or thresholds are below
      2^53 in magnitude and are therefore floats without rounding.
    - Python objects that are mutated through several references (an Alert
      is held by [active_alerts] and by [alert_history]; a ScheduledTask by
      the registry and by the armed jobs) live in an object store, a list
      indexed by allocation order; the containers hold indices.
    - A Python [dict] is an insertion-ordered association list with unique
      keys.
    - Clock reads, the data source and the callables are inputs.
    - Logging and the best-effort e-mail notification change no state of
      the program and are left out. *)

From Stdlib Require Import ZArith List String Ascii Bool Lia Floats.
From Stdlib Require Import DecimalString DecimalPos DecimalZ.
From Stdlib Require Import Permutation Sorted.
Import ListNotations.
Local Open Scope string_scope.
Local Open Scope Z_scope.
Local Open Scope list_scope.

(* ================================================================= *)
(** ** Python values *)

(** [str(n)] for an integer. *)
Definition str_of_int (n : Z) : string :=
  NilZero.string_of_int (Z.to_int n).

Definition lower_ascii (c : ascii) : ascii :=
  let n := nat_of_ascii c in
  if andb (Nat.leb 65 n) (Nat.leb n 90) then ascii_of_nat (n + 32) else c.

(** [s.lower()] on the ASCII letters. *)
Fixpoint lower (s : string) : string :=
  match s with
  | EmptyString => EmptyString
  | String c s' => String (lower_ascii c) (lower s')
  end.

(** [datetime]: a naive wall-clock time. *)
Record datetime := mk_datetime {
  year : Z; month : Z; day : Z;
  hour : Z; minute : Z; second : Z; microsecond : Z
}.

(** One observation of the clocks: [int(time.time())] and
    [datetime.now()]. *)
Record tick := mk_tick {
  time_time : Z;
  datetime_now : datetime
}.

(** The values a callable hands back or a field typed [Any] holds. *)
Inductive pyval :=
| PyNone
| PyBool (b : bool)
| PyInt (n : Z)
| PyFloat (f : float)
| PyStr (s : string).

(** An exception: its class and the message that [str(e)] gives. *)
Inductive exn_class :=
| ZeroDivisionError
| AttributeError
| ScheduleError
| Exception.

Record exn := mk_exn {
  exn_class_of : exn_class;
  str_of_exn : string
}.

(** The result of a call that may raise. *)
Inductive outcome (A : Type) :=
| Returned (a : A)
| Raised (e : exn).
Arguments Returned {A} a.
Arguments Raised {A} e.

(* ----------------------------------------------------------------- *)
(** *** Formatting a float with [:.2f] *)

(** Round the rational [n / d] ([d > 0], [n >= 0]) to the nearest integer,
    ties to even. *)
Definition round_half_even (n d : Z) : Z :=
  let q := n / d in
  let r := n mod d in
  match (2 * r ?= d) with
  | Lt => q
  | Gt => q + 1
  | Eq => if Z.even q then q else q + 1
  end.

Definition two_digits (n : Z) : string :=
  if n <? 10 then ("0" ++ str_of_int n)%string else str_of_int n.

(** The hundredths of a non-negative finite value [m * 2^e]. *)
Definition hundredths (m : positive) (e : Z) : Z :=
  if 0 <=? e then Z.pos m * 2 ^ e * 100
  else round_half_even (Z.pos m * 100) (2 ^ (- e)).

Definition format_2f (x : float) : string :=
  match Prim2SF x with
  | S754_nan => "nan"
  | S754_infinity s => if s then "-inf" else "inf"
  | S754_zero s => if s then "-0.00" else "0.00"
  | S754_finite s m e =>
      let h := hundredths m e in
      ((if s then "-" else "") ++ str_of_int (h / 100) ++ "."
         ++ two_digits (h mod 100))%string
  end.

(* ----------------------------------------------------------------- *)
(** *** Dictionaries with string keys, in insertion order *)

Definition dict (V : Type) := list (string * V).

Fixpoint dict_get {V} (k : string) (d : dict V) : option V :=
  match d with
  | [] => None
  | (k', v) :: d' => if String.eqb k k' then Some v else dict_get k d'
  end.

(** [k in d] *)
Definition dict_mem {V} (k : string) (d : dict V) : bool :=
  match dict_get k d with Some _ => true | None => false end.

(** [d[k] = v]: an existing key keeps its place, a new key goes last. *)
Fixpoint dict_set {V} (k : string) (v : V) (d : dict V) : dict V :=
  match d with
  | [] => [(k, v)]
  | (k', v') :: d' =>
      if String.eqb k k' then (k', v) :: d' else (k', v') :: dict_set k v d'
  end.

(** [del d[k]] *)
Fixpoint dict_del {V} (k : string) (d : dict V) : dict V :=
  match d with
  | [] => []
  | (k', v') :: d' =>
      if String.eqb k k' then dict_del k d' else (k', v') :: dict_del k d'
  end.

Definition dict_keys {V} (d : dict V) : list string := map fst d.
Definition dict_values {V} (d : dict V) : list V := map snd d.

(* ----------------------------------------------------------------- *)
(** *** The object store *)

(** Overwrite the object at address [r]; an address that was never
    allocated does not occur in a reachable state. *)
Fixpoint store_update {A} (r : nat) (f : A -> A) (h : list A) : list A :=
  match h, r with
  | [], _ => []
  | a :: h', O => f a :: h'
  | a :: h', S r' => a :: store_update r' f h'
  end.

(* ================================================================= *)
(** ** monitoring_system.py *)

Module Alert.
Record t := mk {
  id : string;
  timestamp : datetime;
  severity : string;
  category : string;
  message : string;
  metric_name : string;
  current_value : float;
  threshold_value : float;
  resolved : bool;
  resolved_timestamp : option datetime
}.

(** [alert.resolved = True; alert.resolved_timestamp = now] *)
Definition resolve (now : datetime) (a : t) : t :=
  mk (id a) (timestamp a) (severity a) (category a) (message a)
     (metric_name a) (current_value a) (threshold_value a)
     true (Some now).
End Alert.

(** [alerts] is the store of the Alert objects created so far;
    [active_alerts] and [alert_history] hold their addresses. *)
Record AlertManager := mk_AlertManager {
  alerts : list Alert.t;
  active_alerts : dict nat;
  alert_history : list nat
}.

(** [AlertManager.__init__] *)
Definition AlertManager_init : AlertManager :=
  mk_AlertManager [] [] [].

(** The id that [create_alert] builds:
    [f"{category}_{metric_name}_{int(time.time())}"]. *)
Definition make_alert_id (category metric_name : string) (t : Z) : string :=
  (category ++ "_" ++ metric_name ++ "_" ++ str_of_int t)%string.

(** [AlertManager.create_alert]; returns the address of the new Alert. *)
Definition create_alert (now : tick)
    (category metric_name message : string)
    (current_value threshold_value : float) (severity : string)
    (am : AlertManager) : nat * AlertManager :=
  let alert_id := make_alert_id category metric_name (time_time now) in
  let alert :=
    Alert.mk alert_id (datetime_now now) severity category message
             metric_name current_value threshold_value false None in
  let r := List.length (alerts am) in
  (r, mk_AlertManager (alerts am ++ [alert])
                      (dict_set alert_id r (active_alerts am))
                      (alert_history am ++ [r])).

(** [AlertManager.resolve_alert]; [now] is the [datetime.now()] read when
    the id is active. *)
Definition resolve_alert (now : datetime) (alert_id : string)
    (am : AlertManager) : bool * AlertManager :=
  match dict_get alert_id (active_alerts am) with
  | Some r =>
      (true, mk_AlertManager (store_update r (Alert.resolve now) (alerts am))
                             (dict_del alert_id (active_alerts am))
                             (alert_history am))
  | None => (false, am)
  end.

(** The Alert objects of [active_alerts.values()], in dict order. *)
Definition active_alert_objects (am : AlertManager) : list Alert.t :=
  flat_map (fun r => match nth_error (alerts am) r with
                     | Some a => [a]
                     | None => []
                     end)
           (dict_values (active_alerts am)).

(** A snapshot of metrics: the dict that [_collect_metrics] returns, its
    ['timestamp'] entry apart from the numeric entries. *)
Record metrics := mk_metrics {
  metrics_timestamp : datetime;
  metrics_values : dict float
}.

(** [MonitoringSystem._determine_severity]; Python's float division
    raises on a zero divisor.  The message is the one of float operands;
    when both operands are Python ints it reads "division by zero".  The
    monitoring loop only logs it. *)
Definition _determine_severity (current_value threshold : float)
    : outcome string :=
  if PrimFloat.eqb threshold 0%float
  then Raised (mk_exn ZeroDivisionError "float division by zero")
  else
    let ratio := (current_value / threshold)%float in
    if PrimFloat.leb 2.0%float ratio then Returned "critical"
    else if PrimFloat.leb 1.5%float ratio then Returned "high"
    else if PrimFloat.leb 0x1.3333333333333p+0%float ratio then Returned "medium"
    else Returned "low".

(** The tracked metrics of [_check_thresholds]:
    (metric name, description, category). *)
Definition checks : list (string * string * string) :=
  [ ("connection_count", "Conexiones activas", "connection");
    ("cpu_usage", "Uso de CPU", "performance");
    ("memory_usage", "Uso de memoria", "performance");
    ("disk_usage", "Uso de disco", "disk");
    ("slow_queries_count", "Consultas lentas", "query") ].

(** Does the active entry at address [r] carry this metric name? *)
Definition has_metric_name (am : AlertManager) (metric_name : string)
    (r : nat) : bool :=
  match nth_error (alerts am) r with
  | Some a => String.eqb (Alert.metric_name a) metric_name
  | None => false
  end.

(** The search loop of [_check_thresholds]: the first active alert with
    this metric name. *)
Definition existing_alert (metric_name : string) (am : AlertManager)
    : option nat :=
  find (has_metric_name am metric_name) (dict_values (active_alerts am)).

(** The ids collected in [alerts_to_resolve]. *)
Definition alerts_to_resolve (metric_name : string) (am : AlertManager)
    : list string :=
  dict_keys (filter (fun kv => has_metric_name am metric_name (snd kv))
                    (active_alerts am)).

(** [for alert_id in alerts_to_resolve: resolve_alert(alert_id)];
    [n] counts the clock reads made so far. *)
Fixpoint resolve_all (clk : nat -> tick) (ids : list string)
    (st : nat * AlertManager) : nat * AlertManager :=
  match ids with
  | [] => st
  | alert_id :: ids' =>
      let '(n, am) := st in
      let '(done, am') := resolve_alert (datetime_now (clk n)) alert_id am in
      resolve_all clk ids' (if done then S n else n, am')
  end.

(** One iteration of the [for] loop of [_check_thresholds]. *)
Definition check_metric (clk : nat -> tick) (m : metrics)
    (thresholds : dict float) (chk : string * string * string)
    (st : nat * AlertManager) : outcome unit * (nat * AlertManager) :=
  let '(metric_name, description, category) := chk in
  let '(n, am) := st in
  match dict_get metric_name (metrics_values m),
        dict_get metric_name thresholds with
  | Some current_value, Some threshold =>
      if PrimFloat.ltb threshold current_value then
        match existing_alert metric_name am with
        | Some _ => (Returned tt, st)
        | None =>
            match _determine_severity current_value threshold with
            | Raised e => (Raised e, st)
            | Returned severity =>
                let message :=
                  (description ++ " excede el umbral: "
                     ++ format_2f current_value ++ " > "
                     ++ format_2f threshold)%string in
                let '(_, am') :=
                  create_alert (clk n) category metric_name message
                               current_value threshold severity am in
                (Returned tt, (S n, am'))
            end
        end
      else
        (Returned tt, resolve_all clk (alerts_to_resolve metric_name am) st)
  | _, _ => (Returned tt, st)
  end.

(** The [for] loop; an exception leaves it with the state reached. *)
Fixpoint check_loop (clk : nat -> tick) (m : metrics)
    (thresholds : dict float) (cs : list (string * string * string))
    (st : nat * AlertManager) : outcome unit * (nat * AlertManager) :=
  match cs with
  | [] => (Returned tt, st)
  | chk :: cs' =>
      match check_metric clk m thresholds chk st with
      | (Returned _, st') => check_loop clk m thresholds cs' st'
      | (Raised e, st') => (Raised e, st')
      end
  end.

(** [MonitoringSystem._check_thresholds] on the alert manager; [clk i] is
    the [i]-th clock observation made during the call. *)
Definition _check_thresholds (clk : nat -> tick) (thresholds : dict float)
    (m : metrics) (am : AlertManager) : outcome unit * AlertManager :=
  let '(res, (_, am')) := check_loop clk m thresholds checks (0%nat, am) in
  (res, am').

(** [l[-k:]] *)
Definition last_slice {A} (k : nat) (l : list A) : list A :=
  skipn (List.length l - k) l.

(** The retention rule of [_monitoring_loop]:
    append, then keep the last 1000. *)
Definition retain (history : list metrics) (m : metrics) : list metrics :=
  let history' := history ++ [m] in
  if Nat.ltb 1000 (List.length history') then last_slice 1000 history'
  else history'.

(* ================================================================= *)
(** ** scheduler.py: the task record and the armed jobs *)

(** [F] is the type of the task's callable, fixed below. *)
Module ScheduledTask.
Record t (F : Type) := mk {
  id : string;
  name : string;
  function : F;
  schedule_type : string;
  schedule_value : pyval;
  enabled : bool;
  last_run : option datetime;
  next_run : option datetime;
  run_count : Z;
  error_count : Z;
  last_error : option string
}.
Arguments mk {F}.
Arguments id {F}.
Arguments name {F}.
Arguments function {F}.
Arguments schedule_type {F}.
Arguments schedule_value {F}.
Arguments enabled {F}.
Arguments last_run {F}.
Arguments next_run {F}.
Arguments run_count {F}.
Arguments error_count {F}.
Arguments last_error {F}.

Definition set_enabled {F} (b : bool) (x : t F) : t F :=
  mk (id x) (name x) (function x) (schedule_type x) (schedule_value x)
     b (last_run x) (next_run x) (run_count x) (error_count x)
     (last_error x).

(** [task.last_run = now; task.run_count += 1] *)
Definition begin_run {F} (now : datetime) (x : t F) : t F :=
  mk (id x) (name x) (function x) (schedule_type x) (schedule_value x)
     (enabled x) (Some now) (next_run x) (run_count x + 1)
     (error_count x) (last_error x).

(** [task.last_error = None] *)
Definition clear_error {F} (x : t F) : t F :=
  mk (id x) (name x) (function x) (schedule_type x) (schedule_value x)
     (enabled x) (last_run x) (next_run x) (run_count x) (error_count x)
     None.

(** [task.error_count += 1; task.last_error = str(e)] *)
Definition record_error {F} (e : exn) (x : t F) : t F :=
  mk (id x) (name x) (function x) (schedule_type x) (schedule_value x)
     (enabled x) (last_run x) (next_run x) (run_count x)
     (error_count x + 1) (Some (str_of_exn e)).
End ScheduledTask.

Inductive weekday :=
| Monday | Tuesday | Wednesday | Thursday | Friday | Saturday | Sunday.

(** Modelled from the spec: the third-party [schedule] package is not part
    of the repository.  An armed cadence entry is a job of its default
    scheduler: it carries the tag given with [.tag(task.id)], the cadence
    it was built with and the callback handed to [.do]. *)
Inductive job_cadence :=
| EverySeconds (interval : pyval)
| EveryDayAt (time_str : pyval)
| EveryWeekday (d : weekday)
| EveryDay.

(** The two callbacks that [_schedule_task] hands to [.do]; both close
    over the task object. *)
Inductive job_callback :=
| wrapped_function (task : nat)
| monthly_check (task : nat).

Record Job := mk_Job {
  job_tag : string;
  job_cadence_of : job_cadence;
  job_do : job_callback
}.

Definition job_task (j : Job) : nat :=
  match job_do j with
  | wrapped_function r => r
  | monthly_check r => r
  end.

(** Modelled from the spec: [schedule.clear(tag)] cancels the armed entries
    that carry the tag. *)
Definition schedule_clear (tag : string) (jobs : list Job) : list Job :=
  filter (fun j => negb (String.eqb (job_tag j) tag)) jobs.

Definition weekday_of_name (s : string) : option weekday :=
  if String.eqb s "monday" then Some Monday
  else if String.eqb s "tuesday" then Some Tuesday
  else if String.eqb s "wednesday" then Some Wednesday
  else if String.eqb s "thursday" then Some Thursday
  else if String.eqb s "friday" then Some Friday
  else if String.eqb s "saturday" then Some Saturday
  else if String.eqb s "sunday" then Some Sunday
  else None.

(** A [schedule] that accepts every value. *)
Definition accept_all (v : pyval) : bool := true.

Section Agent.

(** Everything outside the process that a call can observe or change: the
    database server, the file system, the operating system. *)
Variable World : Type.

(** [DatabaseManager.test_connection] as seen from the scheduler. *)
Variable test_connection : World -> outcome bool.

(** What the third-party [schedule] package accepts as the interval of
    [every(v).seconds] and as the time of [every().day.at(v)]; on any other
    value it raises before the job is armed. *)
Variable schedule_accepts_interval : pyval -> bool.
Variable schedule_accepts_at : pyval -> bool.

(** A custom check receives the snapshot and the alert manager; what it
    raises is caught and logged by [_run_custom_checks]. *)
Definition custom_check :=
  World -> metrics -> AlertManager -> AlertManager.

Record MonitoringSystem := mk_MonitoringSystem {
  alert_manager : AlertManager;
  monitoring_active : bool;
  metrics_history : list metrics;
  custom_checks : list custom_check
}.

(** [MonitoringSystem.__init__] *)
Definition MonitoringSystem_init : MonitoringSystem :=
  mk_MonitoringSystem AlertManager_init false [] [].

Definition add_custom_check (c : custom_check) (ms : MonitoringSystem)
    : MonitoringSystem :=
  mk_MonitoringSystem (alert_manager ms) (monitoring_active ms)
                      (metrics_history ms) (custom_checks ms ++ [c]).

(** [start_monitoring] and [stop_monitoring], the worker thread apart. *)
Definition start_monitoring (ms : MonitoringSystem) : MonitoringSystem :=
  if monitoring_active ms then ms
  else mk_MonitoringSystem (alert_manager ms) true
                           (metrics_history ms) (custom_checks ms).

Definition stop_monitoring (ms : MonitoringSystem) : MonitoringSystem :=
  mk_MonitoringSystem (alert_manager ms) false
                      (metrics_history ms) (custom_checks ms).

(** [_run_custom_checks] *)
Definition _run_custom_checks (w : World) (m : metrics)
    (cs : list custom_check) (am : AlertManager) : AlertManager :=
  fold_left (fun am' c => c w m am') cs am.

(** One pass through the body of the [while] loop of [_monitoring_loop];
    [collected] is what [_collect_metrics] returned.  An exception of the
    threshold evaluation is caught by the loop after the snapshot has been
    stored; the custom checks are then skipped. *)
Definition monitoring_cycle (w : World) (clk : nat -> tick)
    (thresholds : dict float) (collected : option metrics)
    (ms : MonitoringSystem) : MonitoringSystem :=
  match collected with
  | None => ms
  | Some m =>
      let history := retain (metrics_history ms) m in
      match _check_thresholds clk thresholds m (alert_manager ms) with
      | (Returned _, am) =>
          mk_MonitoringSystem
            (_run_custom_checks w m (custom_checks ms) am)
            (monitoring_active ms) history (custom_checks ms)
      | (Raised _, am) =>
          mk_MonitoringSystem am (monitoring_active ms) history
                              (custom_checks ms)
      end
  end.

(* ================================================================= *)
(** ** scheduler.py: TaskScheduler *)

(** A task's callable: called with no arguments, it observes the world
    and the clocks, may act on the monitoring system that the scheduler
    owns, and returns a value or raises. *)
Definition Callable :=
  World -> (nat -> tick) -> MonitoringSystem ->
  outcome pyval * MonitoringSystem.

Definition Task := ScheduledTask.t Callable.

(** [tasks] is the store of the ScheduledTask objects; the registry
    [scheduled_tasks] and the armed [jobs] hold their addresses.  [jobs] is
    the job list of [schedule]'s default scheduler. *)
Record TaskScheduler := mk_TaskScheduler {
  monitoring_system : MonitoringSystem;
  scheduler_active : bool;
  tasks : list Task;
  scheduled_tasks : dict nat;
  jobs : list Job
}.

Definition with_jobs (js : list Job) (ts : TaskScheduler) : TaskScheduler :=
  mk_TaskScheduler (monitoring_system ts) (scheduler_active ts) (tasks ts)
                   (scheduled_tasks ts) js.

Definition with_tasks (l : list Task) (ts : TaskScheduler) : TaskScheduler :=
  mk_TaskScheduler (monitoring_system ts) (scheduler_active ts) l
                   (scheduled_tasks ts) (jobs ts).

Definition with_monitoring_system (ms : MonitoringSystem)
    (ts : TaskScheduler) : TaskScheduler :=
  mk_TaskScheduler ms (scheduler_active ts) (tasks ts)
                   (scheduled_tasks ts) (jobs ts).

(** [TaskScheduler._schedule_task] for the task object at address [r];
    [.lower()] of a value that is not a string raises. *)
Definition _schedule_task (r : nat) (task : Task) (js : list Job)
    : outcome unit * list Job :=
  let arm c f := (Returned tt, js ++ [mk_Job (ScheduledTask.id task) c f]) in
  let value := ScheduledTask.schedule_value task in
  if String.eqb (ScheduledTask.schedule_type task) "interval" then
    if schedule_accepts_interval value
    then arm (EverySeconds value) (wrapped_function r)
    else (Raised (mk_exn ScheduleError "interval"), js)
  else if String.eqb (ScheduledTask.schedule_type task) "daily" then
    if schedule_accepts_at value
    then arm (EveryDayAt value) (wrapped_function r)
    else (Raised (mk_exn ScheduleError "at"), js)
  else if String.eqb (ScheduledTask.schedule_type task) "weekly" then
    match value with
    | PyStr s =>
        match weekday_of_name (lower s) with
        | Some d => arm (EveryWeekday d) (wrapped_function r)
        | None => (Returned tt, js)
        end
    | _ => (Raised (mk_exn AttributeError "lower"), js)
    end
  else if String.eqb (ScheduledTask.schedule_type task) "monthly" then
    arm EveryDay (monthly_check r)
  else (Returned tt, js).

(** [TaskScheduler.add_task] *)
Definition add_task (task_id name : string) (function : Callable)
    (schedule_type : string) (schedule_value : pyval) (enabled : bool)
    (ts : TaskScheduler) : outcome bool * TaskScheduler :=
  if dict_mem task_id (scheduled_tasks ts) then (Returned false, ts)
  else
    let task :=
      ScheduledTask.mk task_id name function schedule_type schedule_value
                       enabled None None 0 0 None in
    let r := List.length (tasks ts) in
    let ts1 :=
      mk_TaskScheduler (monitoring_system ts) (scheduler_active ts)
                       (tasks ts ++ [task])
                       (dict_set task_id r (scheduled_tasks ts))
                       (jobs ts) in
    if enabled then
      match _schedule_task r task (jobs ts1) with
      | (Returned _, js) => (Returned true, with_jobs js ts1)
      | (Raised e, js) => (Raised e, with_jobs js ts1)
      end
    else (Returned true, ts1).

(** [TaskScheduler.remove_task] *)
Definition remove_task (task_id : string) (ts : TaskScheduler)
    : bool * TaskScheduler :=
  if dict_mem task_id (scheduled_tasks ts) then
    (true,
     mk_TaskScheduler (monitoring_system ts) (scheduler_active ts)
                      (tasks ts)
                      (dict_del task_id (scheduled_tasks ts))
                      (schedule_clear task_id (jobs ts)))
  else (false, ts).

(** [TaskScheduler.enable_task] *)
Definition enable_task (task_id : string) (ts : TaskScheduler)
    : outcome bool * TaskScheduler :=
  match dict_get task_id (scheduled_tasks ts) with
  | None => (Returned false, ts)
  | Some r =>
      let ts1 :=
        with_tasks (store_update r (ScheduledTask.set_enabled true)
                                 (tasks ts)) ts in
      match nth_error (tasks ts1) r with
      | None => (Returned true, ts1)
      | Some task =>
          match _schedule_task r task (jobs ts1) with
          | (Returned _, js) => (Returned true, with_jobs js ts1)
          | (Raised e, js) => (Raised e, with_jobs js ts1)
          end
      end
  end.

(** [TaskScheduler.disable_task] *)
Definition disable_task (task_id : string) (ts : TaskScheduler)
    : bool * TaskScheduler :=
  match dict_get task_id (scheduled_tasks ts) with
  | None => (false, ts)
  | Some r =>
      (true,
       mk_TaskScheduler (monitoring_system ts) (scheduler_active ts)
                        (store_update r (ScheduledTask.set_enabled false)
                                      (tasks ts))
                        (scheduled_tasks ts)
                        (schedule_clear task_id (jobs ts)))
  end.

(** [TaskScheduler._execute_task] on the task object at address [r].
    [clk 0] is the [datetime.now()] of the run; the callable sees the
    later observations. *)
Definition _execute_task (w : World) (clk : nat -> tick) (r : nat)
    (ts : TaskScheduler) : TaskScheduler :=
  match nth_error (tasks ts) r with
  | None => ts
  | Some task =>
      let ts1 :=
        with_tasks (store_update r
                      (ScheduledTask.begin_run (datetime_now (clk 0%nat)))
                      (tasks ts)) ts in
      match ScheduledTask.function task w (fun i => clk (S i))
                                   (monitoring_system ts1) with
      | (Returned _, ms) =>
          with_tasks (store_update r ScheduledTask.clear_error (tasks ts1))
                     (with_monitoring_system ms ts1)
      | (Raised e, ms) =>
          let ts2 :=
            with_tasks (store_update r (ScheduledTask.record_error e)
                                     (tasks ts1))
                       (with_monitoring_system ms ts1) in
          if 5 <=? ScheduledTask.error_count task + 1 then
            snd (disable_task (ScheduledTask.id task) ts2)
          else ts2
      end
  end.

(** [TaskScheduler._check_monthly_task]; [clk 0] is its [datetime.now()]. *)
Definition _check_monthly_task (w : World) (clk : nat -> tick) (r : nat)
    (ts : TaskScheduler) : TaskScheduler :=
  match nth_error (tasks ts) r with
  | None => ts
  | Some task =>
      let now := datetime_now (clk 0%nat) in
      if day now =? 1 then
        match ScheduledTask.last_run task with
        | None => _execute_task w (fun i => clk (S i)) r ts
        | Some last =>
            if negb (month last =? month now)
            then _execute_task w (fun i => clk (S i)) r ts
            else ts
        end
      else ts
  end.

(** The callback of an armed job. *)
Definition run_job (w : World) (clk : nat -> tick) (j : Job)
    (ts : TaskScheduler) : TaskScheduler :=
  match job_do j with
  | wrapped_function r => _execute_task w clk r ts
  | monthly_check r => _check_monthly_task w clk r ts
  end.

(** Modelled from the spec: [schedule.run_pending], the body of
    [_scheduler_loop].  The jobs that are due are picked from the armed
    ones when the call starts and their callbacks are run in turn, each
    with its own view of the world and of the clocks. *)
Definition run_pending (due : list (Job * World * (nat -> tick)))
    (ts : TaskScheduler) : TaskScheduler :=
  fold_left (fun ts' d => let '(j, w, clk) := d in run_job w clk j ts')
            due ts.

(** [TaskScheduler._check_database_connection] *)
Definition _check_database_connection : Callable :=
  fun w clk ms =>
    match test_connection w with
    | Returned is_connected =>
        if negb is_connected then
          let '(_, am) :=
            create_alert (clk 0%nat) "connection" "database_connection"
                         "Conexión a la base de datos perdida"
                         0%float 1%float "critical" (alert_manager ms) in
          (Returned (PyBool false),
           mk_MonitoringSystem am (monitoring_active ms)
                               (metrics_history ms) (custom_checks ms))
        else (Returned (PyBool true), ms)
    | Raised e => (Raised e, ms)
    end.


(** The fields of [AutomationConfig] that the scheduler reads. *)
Record AutomationConfig := mk_AutomationConfig {
  reports_enabled : bool;
  monitoring_enabled : bool;
  backup_enabled : bool;
  backup_schedule : string;
  alert_thresholds : dict float
}.

(** The task functions that delegate to the report generator, the backup
    and the file system. *)
Variable _generate_health_report : Callable.
Variable _generate_performance_report : Callable.
Variable _perform_backup : Callable.
Variable _optimize_tables : Callable.
Variable _cleanup_old_files : Callable.

(** A statement that may raise, followed by the rest of the block. *)
Definition and_then {A} (step : TaskScheduler -> outcome A * TaskScheduler)
    (rest : TaskScheduler -> outcome unit * TaskScheduler)
    (ts : TaskScheduler) : outcome unit * TaskScheduler :=
  match step ts with
  | (Returned _, ts') => rest ts'
  | (Raised e, ts') => (Raised e, ts')
  end.

Definition skip (ts : TaskScheduler) : outcome unit * TaskScheduler :=
  (Returned tt, ts).

(** [TaskScheduler._setup_default_tasks] *)
Definition _setup_default_tasks (config : AutomationConfig)
    : TaskScheduler -> outcome unit * TaskScheduler :=
  and_then
    (if reports_enabled config then
       and_then
         (add_task "daily_health_report" "Reporte Diario de Salud"
                   _generate_health_report "daily" (PyStr "08:00") true)
         (and_then
            (add_task "weekly_performance_report"
                      "Reporte Semanal de Rendimiento"
                      _generate_performance_report "weekly"
                      (PyStr "monday") true)
            skip)
     else skip)
  (and_then
    (if backup_enabled config then
       if String.eqb (backup_schedule config) "daily" then
         and_then
           (add_task "daily_backup" "Backup Diario" _perform_backup
                     "daily" (PyStr "02:00") true)
           skip
       else if String.eqb (backup_schedule config) "weekly" then
         and_then
           (add_task "weekly_backup" "Backup Semanal" _perform_backup
                     "weekly" (PyStr "sunday") true)
           skip
       else skip
     else skip)
  (and_then
    (add_task "weekly_optimization" "Optimización Semanal de Tablas"
              _optimize_tables "weekly" (PyStr "sunday") true)
  (and_then
    (add_task "cleanup_old_files" "Limpieza de Archivos Antiguos"
              _cleanup_old_files "daily" (PyStr "03:00") true)
  (and_then
    (add_task "connection_check" "Verificación de Conexión"
              _check_database_connection "interval" (PyInt 300) true)
    skip)))).

(* ================================================================= *)
(** ** Vocabulary of the properties *)

(** The monitoring loop run on a sequence of successful collections, each
    with its own view of the world and of the clocks. *)
Definition monitoring_cycles (thresholds : dict float)
    (inputs : list (World * (nat -> tick) * metrics))
    (ms : MonitoringSystem) : MonitoringSystem :=
  fold_left (fun ms' i =>
               monitoring_cycle (fst (fst i)) (snd (fst i)) thresholds
                                (Some (snd i)) ms')
            inputs ms.

(** The number of active alerts that carry a metric name. *)
Definition count_active (metric_name : string) (am : AlertManager) : nat :=
  List.length (filter (has_metric_name am metric_name)
                      (dict_values (active_alerts am))).

(** The alert manager while the threshold evaluation is interrupted after
    [k] iterations of its loop. *)
Definition _check_thresholds_upto (k : nat) (clk : nat -> tick)
    (thresholds : dict float) (m : metrics) (am : AlertManager)
    : AlertManager :=
  snd (snd (check_loop clk m thresholds (firstn k checks) (0%nat, am))).

(** The states of an alert manager whose alerts are all created by the
    threshold evaluation: it starts empty, the evaluation runs on any
    snapshot and is observed after any number of its iterations, and
    anyone may resolve an alert. *)
Inductive engine_reachable (thresholds : dict float)
    : AlertManager -> Prop :=
| reach_init : engine_reachable thresholds AlertManager_init
| reach_check (am : AlertManager) (k : nat) (clk : nat -> tick)
    (m : metrics) :
    engine_reachable thresholds am ->
    engine_reachable thresholds
      (_check_thresholds_upto k clk thresholds m am)
| reach_resolve (am : AlertManager) (now : datetime) (alert_id : string) :
    engine_reachable thresholds am ->
    engine_reachable thresholds (snd (resolve_alert now alert_id am)).

(** Every active entry refers to an allocated alert object that is not
    resolved, no two entries refer to the same object, and the keys of the
    dict are distinct. *)
Definition AlertManager_ok (am : AlertManager) : Prop :=
  Forall (fun r => exists a, nth_error (alerts am) r = Some a /\
                             Alert.resolved a = false)
         (dict_values (active_alerts am)) /\
  NoDup (dict_values (active_alerts am)) /\
  NoDup (dict_keys (active_alerts am)).

(** The alerts created so far for a metric, and those of them that are
    resolved. *)
Definition created (metric_name : string) (am : AlertManager) : nat :=
  List.length
    (filter (fun a => String.eqb (Alert.metric_name a) metric_name)
            (alerts am)).

Definition resolved_count (metric_name : string) (am : AlertManager) : nat :=
  List.length
    (filter (fun a => String.eqb (Alert.metric_name a) metric_name
                      && Alert.resolved a)
            (alerts am)).

(** The alert manager is well formed and holds at most one active alert
    per metric name. *)
Definition dedup_invariant (am : AlertManager) : Prop :=
  AlertManager_ok am /\
  forall metric_name, (count_active metric_name am <= 1)%nat.

(** The cadence descriptors for which [_schedule_task] arms a job. *)
Definition supported_cadence (schedule_type : string) (value : pyval)
    : bool :=
  if String.eqb schedule_type "interval" then schedule_accepts_interval value
  else if String.eqb schedule_type "daily" then schedule_accepts_at value
  else if String.eqb schedule_type "weekly" then
    match value with
    | PyStr s => match weekday_of_name (lower s) with
                 | Some _ => true
                 | None => false
                 end
    | _ => false
    end
  else String.eqb schedule_type "monthly".

(** The task at address [r] executed once per element of [runs], each
    time with its own view of the world and of the clocks. *)
Definition execute_many (runs : list (World * (nat -> tick))) (r : nat)
    (ts : TaskScheduler) : TaskScheduler :=
  fold_left (fun ts' run => _execute_task (fst run) (snd run) r ts')
            runs ts.

(** The number of those executions in which the callable raises; the
    monitoring system is the only state it acts on. *)
Fixpoint failures (f : Callable) (runs : list (World * (nat -> tick)))
    (ms : MonitoringSystem) : nat :=
  match runs with
  | [] => 0%nat
  | (w, clk) :: runs' =>
      match f w (fun i => clk (S i)) ms with
      | (Returned _, ms') => failures f runs' ms'
      | (Raised _, ms') => S (failures f runs' ms')
      end
  end.

(** A callable that fails on every invocation. *)
Definition always_fails (f : Callable) : Prop :=
  forall w clk ms, exists e ms', f w clk ms = (Raised e, ms').

(** The scheduler loop: any number of [run_pending] calls, the due jobs of
    each taken from the jobs armed when it starts. *)
Inductive scheduler_loop : TaskScheduler -> TaskScheduler -> Prop :=
| loop_done (ts : TaskScheduler) : scheduler_loop ts ts
| loop_tick (ts ts' : TaskScheduler)
    (due : list (Job * World * (nat -> tick))) :
    (forall d, In d due -> In (fst (fst d)) (jobs ts)) ->
    scheduler_loop (run_pending due ts) ts' ->
    scheduler_loop ts ts'.


(** What one execution makes of the task object: [now] is the time of the
    run and [res] the outcome of the callable. *)
Definition task_after_run (now : datetime) (res : outcome pyval)
    (task : Task) : Task :=
  match res with
  | Returned _ =>
      ScheduledTask.clear_error (ScheduledTask.begin_run now task)
  | Raised e =>
      let t := ScheduledTask.record_error e
                 (ScheduledTask.begin_run now task) in
      if 5 <=? ScheduledTask.error_count t
      then ScheduledTask.set_enabled false t
      else t
  end.

(** The execution accounting of a task. *)
Definition run_counters (t : Task) : option datetime * Z * Z :=
  (ScheduledTask.last_run t, ScheduledTask.run_count t,
   ScheduledTask.error_count t).
(** An alert of [M] in the active set: its id, its address. *)
Definition active_under (M alert_id : string) (r : nat)
    (am : AlertManager) : Prop :=
  dict_get alert_id (active_alerts am) = Some r /\
  has_metric_name am M r = true.

(* ----------------------------------------------------------------- *)
(** *** Sample data *)

Definition noon : datetime := mk_datetime 2024 1 1 12 0 0 0.

Definition steady_clock (i : nat) : tick := mk_tick 1704110400 noon.

(** The thresholds that [AutomationConfig.from_env] loads by default. *)
Definition default_thresholds : dict float :=
  [("connection_count", 100%float); ("cpu_usage", 80%float);
   ("memory_usage", 85%float); ("disk_usage", 90%float);
   ("slow_queries_count", 10%float)].

Definition sample_with_cpu (us : Z) (cpu : float) : metrics :=
  mk_metrics (mk_datetime 2024 1 1 12 0 0 us)
    [("connection_count", 5%float); ("cpu_usage", cpu);
     ("memory_usage", 40%float); ("disk_usage", 50%float);
     ("slow_queries_count", 0%float)].

(** A callable that always raises, and one that raises when the second
    it reads from the clock is odd. *)
Definition broken : Callable :=
  fun w clk ms => (Raised (mk_exn Exception "boom"), ms).

Definition flaky : Callable :=
  fun w clk ms =>
    if Z.odd (time_time (clk 0%nat))
    then (Raised (mk_exn Exception "boom"), ms)
    else (Returned PyNone, ms).

Definition clock_at (t : Z) (i : nat) : tick := mk_tick t noon.

Definition empty_scheduler : TaskScheduler :=
  mk_TaskScheduler MonitoringSystem_init false [] [] [].

Definition broken_task : Task :=
  ScheduledTask.mk "nightly" "Nightly job" broken "interval" (PyInt 60)
                   true None None 0 0 None.

Definition broken_task_scheduler : TaskScheduler :=
  mk_TaskScheduler MonitoringSystem_init false [broken_task]
    [("nightly", 0%nat)]
    [mk_Job "nightly" (EverySeconds (PyInt 60)) (wrapped_function 0)].

Definition flaky_task : Task :=
  ScheduledTask.mk "sync" "Sync job" flaky "interval" (PyInt 60)
                   true None None 0 0 None.

Definition flaky_task_scheduler : TaskScheduler :=
  mk_TaskScheduler MonitoringSystem_init false [flaky_task]
    [("sync", 0%nat)]
    [mk_Job "sync" (EverySeconds (PyInt 60)) (wrapped_function 0)].

(* ================================================================= *)
(** ** The remaining operations of monitoring_system.py *)

(** The fields of a [datetime] in the order in which Python compares
    them. *)
Definition datetime_key (d : datetime) : list Z :=
  [year d; month d; day d; hour d; minute d; second d; microsecond d].

Fixpoint lex_ltb (a b : list Z) : bool :=
  match a, b with
  | x :: a', y :: b' =>
      if x <? y then true else if y <? x then false else lex_ltb a' b'
  | [], _ :: _ => true
  | _, _ => false
  end.

(** [a < b] on datetimes. *)
Definition datetime_ltb (a b : datetime) : bool :=
  lex_ltb (datetime_key a) (datetime_key b).

(** [sorted(l, key=...)]: Python's sort is stable, an element stays in
    front of the later elements with the same key. *)
Fixpoint insert_asc {A} (key : A -> datetime) (x : A) (l : list A)
    : list A :=
  match l with
  | [] => [x]
  | y :: l' =>
      if datetime_ltb (key y) (key x) then y :: insert_asc key x l'
      else x :: y :: l'
  end.

Definition sorted_asc {A} (key : A -> datetime) (l : list A) : list A :=
  fold_right (insert_asc key) [] l.

(** [sorted(l, key=..., reverse=True)], stable as well. *)
Fixpoint insert_desc {A} (key : A -> datetime) (x : A) (l : list A)
    : list A :=
  match l with
  | [] => [x]
  | y :: l' =>
      if datetime_ltb (key x) (key y) then y :: insert_desc key x l'
      else x :: y :: l'
  end.

Definition sorted_desc {A} (key : A -> datetime) (l : list A) : list A :=
  fold_right (insert_desc key) [] l.

(** [AlertManager.get_active_alerts]; [None] and the empty string are the
    falsy values of the [severity] argument. *)
Definition get_active_alerts (severity : option string)
    (am : AlertManager) : list Alert.t :=
  let alerts := active_alert_objects am in
  let alerts :=
    match severity with
    | Some (String _ _ as s) =>
        filter (fun a => String.eqb (Alert.severity a) s) alerts
    | _ => alerts
    end in
  sorted_desc Alert.timestamp alerts.

(** [d[k] = d.get(k, 0) + 1] *)
Definition count_up (k : string) (d : dict Z) : dict Z :=
  dict_set k (match dict_get k d with Some n => n | None => 0 end + 1) d.

(** The dict that [get_alert_summary] returns. *)
Record AlertSummary := mk_AlertSummary {
  total_active : nat;
  by_severity : dict Z;
  by_category : dict Z;
  oldest_alert : option datetime;
  newest_alert : option datetime
}.

(** [AlertManager.get_alert_summary] *)
Definition get_alert_summary (am : AlertManager) : AlertSummary :=
  let active := active_alert_objects am in
  match active with
  | [] => mk_AlertSummary 0 [] [] None None
  | _ :: _ =>
      let counts :=
        fold_left (fun acc a =>
                     (count_up (Alert.severity a) (fst acc),
                      count_up (Alert.category a) (snd acc)))
                  active ([], []) in
      let sorted_alerts := sorted_asc Alert.timestamp active in
      mk_AlertSummary (List.length active) (fst counts) (snd counts)
        (option_map Alert.timestamp (hd_error sorted_alerts))
        (option_map Alert.timestamp
           (nth_error sorted_alerts (List.length sorted_alerts - 1)))
  end.

(** The states of an alert manager used through [create_alert] and
    [resolve_alert] in any order and with any arguments. *)
Inductive manager_reachable : AlertManager -> Prop :=
| manager_init : manager_reachable AlertManager_init
| manager_create (now : tick) (category metric_name message : string)
    (cur thr : float) (sev : string) (am : AlertManager) :
    manager_reachable am ->
    manager_reachable
      (snd (create_alert now category metric_name message cur thr sev am))
| manager_resolve (now : datetime) (alert_id : string)
    (am : AlertManager) :
    manager_reachable am ->
    manager_reachable (snd (resolve_alert now alert_id am)).

(** ** Vocabulary of the further properties *)

(** [a] is not older than [b], and [a] is not newer than [b]. *)
Definition not_older {A} (key : A -> datetime) (a b : A) : Prop :=
  datetime_ltb (key a) (key b) = false.

Definition not_newer {A} (key : A -> datetime) (a b : A) : Prop :=
  datetime_ltb (key b) (key a) = false.

(** The alerts that a [severity] argument asks for. *)
Definition wanted_severity (severity : option string) (a : Alert.t)
    : bool :=
  match severity with
  | None => true
  | Some s => String.eqb s "" || String.eqb (Alert.severity a) s
  end.

(** The entry of a counting dict for a key that was counted [n] times. *)
Definition tally (n : nat) : option Z :=
  match n with
  | O => None
  | S _ => Some (Z.of_nat n)
  end.

(** The entry after [n] more counts. *)
Definition count_onto (n : nat) (o : option Z) : option Z :=
  match n with
  | O => o
  | S _ => Some (match o with Some z => z | None => 0 end + Z.of_nat n)
  end.

(** What the threshold evaluation records in an alert that it creates:
    a tracked metric with its category and description, the configured
    threshold and a value above it, the severity of their ratio, and the
    id built from category, metric name and second of creation. *)
Definition engine_alert (thresholds : dict float) (a : Alert.t) : Prop :=
  PrimFloat.ltb (Alert.threshold_value a) (Alert.current_value a) = true /\
  dict_get (Alert.metric_name a) thresholds
  = Some (Alert.threshold_value a) /\
  _determine_severity (Alert.current_value a) (Alert.threshold_value a)
  = Returned (Alert.severity a) /\
  In (Alert.severity a) ["critical"; "high"; "medium"; "low"] /\
  (exists description,
     In (Alert.metric_name a, description, Alert.category a) checks /\
     Alert.message a
     = (description ++ " excede el umbral: "
          ++ format_2f (Alert.current_value a) ++ " > "
          ++ format_2f (Alert.threshold_value a))%string) /\
  (exists t, Alert.id a
             = make_alert_id (Alert.category a) (Alert.metric_name a) t).

(* ================================================================= *)
(** ** The remaining operations of scheduler.py and their callers *)

(** [TaskScheduler.start_scheduler] and [stop_scheduler], the worker
    thread apart. *)
Definition start_scheduler (config : AutomationConfig) (ts : TaskScheduler)
    : TaskScheduler :=
  if scheduler_active ts then ts
  else
    mk_TaskScheduler
      (if monitoring_enabled config
       then start_monitoring (monitoring_system ts)
       else monitoring_system ts)
      true (tasks ts) (scheduled_tasks ts) (jobs ts).

Definition stop_scheduler (ts : TaskScheduler) : TaskScheduler :=
  mk_TaskScheduler (stop_monitoring (monitoring_system ts)) false
                   (tasks ts) (scheduled_tasks ts) (jobs ts).

(** web_dashboard.py: [WebDashboard._toggle_task], as the ['success']
    entry of the dict it returns; what the scheduler raises is caught and
    reported as a failure. *)
Definition _toggle_task (task_id : string) (ts : TaskScheduler)
    : bool * TaskScheduler :=
  match dict_get task_id (scheduled_tasks ts) with
  | None => (false, ts)
  | Some r =>
      match nth_error (tasks ts) r with
      | None => (false, ts)
      | Some task =>
          if ScheduledTask.enabled task then disable_task task_id ts
          else
            match enable_task task_id ts with
            | (Returned success, ts') => (success, ts')
            | (Raised _, ts') => (false, ts')
            end
      end
  end.

(** web_dashboard.py: [WebDashboard._run_task_manually]; the run happens
    in a thread of its own, here at once. *)
Definition _run_task_manually (w : World) (clk : nat -> tick)
    (task_id : string) (ts : TaskScheduler) : bool * TaskScheduler :=
  match dict_get task_id (scheduled_tasks ts) with
  | None => (false, ts)
  | Some r => (true, _execute_task w clk r ts)
  end.

(** The registry and the armed jobs agree with the task objects: an id
    is registered to an object that carries it, and an armed job is
    tagged with the id under which its task is registered and belongs to
    an enabled task. *)
Definition TaskScheduler_ok (ts : TaskScheduler) : Prop :=
  (forall k r, dict_get k (scheduled_tasks ts) = Some r ->
               exists t, nth_error (tasks ts) r = Some t /\
                         ScheduledTask.id t = k) /\
  (forall j, In j (jobs ts) ->
             dict_get (job_tag j) (scheduled_tasks ts) = Some (job_task j) /\
             exists t, nth_error (tasks ts) (job_task j) = Some t /\
                       ScheduledTask.enabled t = true).

(** The states of a scheduler used through its operations, the scheduler
    loop and the dashboard, in any order and with any arguments, while
    the monitoring thread works on the monitoring system. *)
Inductive scheduler_reachable : TaskScheduler -> Prop :=
| sched_new (ms : MonitoringSystem) :
    scheduler_reachable (mk_TaskScheduler ms false [] [] [])
| sched_add_task (task_id name : string) (function : Callable)
    (schedule_type : string) (schedule_value : pyval) (enabled : bool)
    (ts : TaskScheduler) :
    scheduler_reachable ts ->
    scheduler_reachable
      (snd (add_task task_id name function schedule_type schedule_value
                     enabled ts))
| sched_remove_task (task_id : string) (ts : TaskScheduler) :
    scheduler_reachable ts ->
    scheduler_reachable (snd (remove_task task_id ts))
| sched_enable_task (task_id : string) (ts : TaskScheduler) :
    scheduler_reachable ts ->
    scheduler_reachable (snd (enable_task task_id ts))
| sched_disable_task (task_id : string) (ts : TaskScheduler) :
    scheduler_reachable ts ->
    scheduler_reachable (snd (disable_task task_id ts))
| sched_start (config : AutomationConfig) (ts : TaskScheduler) :
    scheduler_reachable ts ->
    scheduler_reachable (start_scheduler config ts)
| sched_stop (ts : TaskScheduler) :
    scheduler_reachable ts ->
    scheduler_reachable (stop_scheduler ts)
| sched_run_pending (due : list (Job * World * (nat -> tick)))
    (ts : TaskScheduler) :
    scheduler_reachable ts ->
    (forall d, In d due -> In (fst (fst d)) (jobs ts)) ->
    scheduler_reachable (run_pending due ts)
| sched_run_manually (w : World) (clk : nat -> tick) (task_id : string)
    (ts : TaskScheduler) :
    scheduler_reachable ts ->
    scheduler_reachable (snd (_run_task_manually w clk task_id ts))
| sched_toggle (task_id : string) (ts : TaskScheduler) :
    scheduler_reachable ts ->
    scheduler_reachable (snd (_toggle_task task_id ts))
| sched_monitoring (ms : MonitoringSystem) (ts : TaskScheduler) :
    scheduler_reachable ts ->
    scheduler_reachable (with_monitoring_system ms ts).

(** What a task object may become while the scheduler runs it: its
    identity and schedule stay, its counters do not decrease, and it is
    not enabled again. *)
Definition task_progress (t t' : Task) : Prop :=
  ScheduledTask.id t' = ScheduledTask.id t /\
  ScheduledTask.name t' = ScheduledTask.name t /\
  ScheduledTask.function t' = ScheduledTask.function t /\
  ScheduledTask.schedule_type t' = ScheduledTask.schedule_type t /\
  ScheduledTask.schedule_value t' = ScheduledTask.schedule_value t /\
  (ScheduledTask.enabled t' = true -> ScheduledTask.enabled t = true) /\
  ScheduledTask.run_count t <= ScheduledTask.run_count t' /\
  ScheduledTask.error_count t <= ScheduledTask.error_count t'.

(** The same for every task object of the store. *)
Definition tasks_progress (ts ts' : TaskScheduler) : Prop :=
  forall r t, nth_error (tasks ts) r = Some t ->
              exists t', nth_error (tasks ts') r = Some t' /\
                         task_progress t t'.

(** The number of armed jobs that run the task object at [r]. *)
Definition jobs_of (r : nat) (ts : TaskScheduler) : nat :=
  List.length (filter (fun j => Nat.eqb (job_task j) r) (jobs ts)).

(** The ids of the tasks that [_setup_default_tasks] registers under a
    configuration, in registration order. *)
Definition default_task_ids (config : AutomationConfig) : list string :=
  (if reports_enabled config
   then ["daily_health_report"; "weekly_performance_report"]
   else []) ++
  (if backup_enabled config then
     if String.eqb (backup_schedule config) "daily" then ["daily_backup"]
     else if String.eqb (backup_schedule config) "weekly"
          then ["weekly_backup"]
          else []
   else []) ++
  ["weekly_optimization"; "cleanup_old_files"; "connection_check"].

(** Modelled from the spec: one [schedule.run_pending] runs each armed job
    at most once: the due jobs are some of the jobs armed when the call
    starts, in the order in which [schedule] sorts them. *)
Definition due_once (due : list (Job * World * (nat -> tick)))
    (ts : TaskScheduler) : Prop :=
  exists rest,
    Permutation (map (fun d => fst (fst d)) due ++ rest) (jobs ts).

(** The scheduler loop with such ticks. *)
Inductive scheduler_ticks : TaskScheduler -> TaskScheduler -> Prop :=
| ticks_done (ts : TaskScheduler) : scheduler_ticks ts ts
| ticks_step (ts ts' : TaskScheduler)
    (due : list (Job * World * (nat -> tick))) :
    due_once due ts ->
    scheduler_ticks (run_pending due ts) ts' ->
    scheduler_ticks ts ts'.

(** The number of due jobs that run the task object at [r]. *)
Definition due_of (r : nat) (due : list (Job * World * (nat -> tick)))
    : nat :=
  List.length (filter (fun d => Nat.eqb (job_task (fst (fst d))) r) due).

(** The schedules for which [_schedule_task] arms nothing and raises
    nothing: a schedule type that it does not know, and a weekly schedule
    whose value is a string that names no weekday. *)
Definition silent_schedule (schedule_type : string) (value : pyval)
    : bool :=
  if String.eqb schedule_type "interval" then false
  else if String.eqb schedule_type "daily" then false
  else if String.eqb schedule_type "weekly" then
    match value with
    | PyStr s => match weekday_of_name (lower s) with
                 | Some _ => false
                 | None => true
                 end
    | _ => false
    end
  else negb (String.eqb schedule_type "monthly").

(** The scheduler [ts] in a process whose [schedule] held the jobs
    [armed] before the jobs of [ts] were armed. *)
Definition behind (armed : list Job) (ts : TaskScheduler) : TaskScheduler :=
  with_jobs (armed ++ jobs ts) ts.

(** An operation that treats the jobs armed before as [schedule] does:
    it keeps them in front and acts behind them. *)
Definition keeps_armed {A} (armed : list Job)
    (f : TaskScheduler -> outcome A * TaskScheduler) : Prop :=
  forall ts, f (behind armed ts) = (fst (f ts), behind armed (snd (f ts))).

(* ================================================================= *)
(** * Properties *)

(** ** Dictionaries and the object store *)

Lemma dict_get_set_same {V} (k : string) (v : V) (d : dict V) :
  dict_get k (dict_set k v d) = Some v.
Proof.
  induction d as [|[k' v'] d IH]; simpl.
  - now rewrite String.eqb_refl.
  - destruct (String.eqb k k') eqn:E; simpl; rewrite E; auto.
Qed.

Lemma dict_get_set_other {V} (k k0 : string) (v : V) (d : dict V) :
  k0 <> k -> dict_get k0 (dict_set k v d) = dict_get k0 d.
Proof.
  intros Hne. induction d as [|[k' v'] d IH]; simpl.
  - apply String.eqb_neq in Hne. now rewrite Hne.
  - destruct (String.eqb k k') eqn:E; simpl.
    + apply String.eqb_eq in E. subst k'.
      apply String.eqb_neq in Hne. now rewrite Hne.
    + destruct (String.eqb k0 k'); auto.
Qed.

Lemma dict_get_del_same {V} (k : string) (d : dict V) :
  dict_get k (dict_del k d) = None.
Proof.
  induction d as [|[k' v'] d IH]; simpl; auto.
  destruct (String.eqb k k') eqn:E; simpl; auto. now rewrite E.
Qed.

Lemma dict_get_del_other {V} (k k0 : string) (d : dict V) :
  k0 <> k -> dict_get k0 (dict_del k d) = dict_get k0 d.
Proof.
  intros Hne. induction d as [|[k' v'] d IH]; simpl; auto.
  destruct (String.eqb k k') eqn:E; simpl.
  - apply String.eqb_eq in E. subst k'.
    apply String.eqb_neq in Hne. now rewrite Hne.
  - destruct (String.eqb k0 k'); auto.
Qed.

Lemma dict_set_fresh {V} (k : string) (v : V) (d : dict V) :
  dict_get k d = None -> dict_set k v d = d ++ [(k, v)].
Proof.
  induction d as [|[k' v'] d IH]; simpl; auto.
  destruct (String.eqb k k'); [discriminate|].
  intros H. now rewrite IH.
Qed.

Lemma dict_set_length_present {V} (k : string) (v v0 : V) (d : dict V) :
  dict_get k d = Some v0 ->
  List.length (dict_set k v d) = List.length d.
Proof.
  induction d as [|[k' v'] d IH]; simpl; [discriminate|].
  destruct (String.eqb k k'); simpl; auto.
Qed.

Lemma dict_del_absent {V} (k : string) (d : dict V) :
  dict_get k d = None -> dict_del k d = d.
Proof.
  induction d as [|[k' v'] d IH]; simpl; auto.
  destruct (String.eqb k k'); [discriminate|].
  intros H. now rewrite IH.
Qed.

Lemma dict_get_In {V} (k : string) (v : V) (d : dict V) :
  dict_get k d = Some v -> In (k, v) d.
Proof.
  induction d as [|[k' v'] d IH]; simpl; [discriminate|].
  destruct (String.eqb k k') eqn:E.
  - apply String.eqb_eq in E. intros [= ->]. subst. now left.
  - auto.
Qed.

Lemma store_update_length {A} (r : nat) (f : A -> A) (h : list A) :
  List.length (store_update r f h) = List.length h.
Proof.
  revert r. induction h as [|a h IH]; intros [|r]; simpl; auto.
Qed.

Lemma store_update_same {A} (r : nat) (f : A -> A) (h : list A) :
  nth_error (store_update r f h) r = option_map f (nth_error h r).
Proof.
  revert r. induction h as [|a h IH]; intros [|r]; simpl; auto.
Qed.

Lemma store_update_other {A} (r r0 : nat) (f : A -> A) (h : list A) :
  r0 <> r -> nth_error (store_update r f h) r0 = nth_error h r0.
Proof.
  revert r r0.
  induction h as [|a h IH]; intros [|r] [|r0] Hne; simpl; auto.
  congruence.
Qed.

(** A field that [f] leaves alone reads the same after the update. *)
Lemma store_update_field {A B} (g : A -> B) (r r0 : nat) (f : A -> A)
    (h : list A) :
  (forall a, g (f a) = g a) ->
  option_map g (nth_error (store_update r f h) r0)
  = option_map g (nth_error h r0).
Proof.
  intros Hg. destruct (Nat.eq_dec r0 r) as [->|Hne].
  - rewrite store_update_same. destruct (nth_error h r); simpl; auto.
    now rewrite Hg.
  - now rewrite store_update_other.
Qed.

(** ** Alert identity *)

Lemma append_cancel_l (p a b : string) :
  (p ++ a)%string = (p ++ b)%string -> a = b.
Proof.
  induction p as [|c p IH]; simpl; auto.
  intros [= H]. auto.
Qed.

Lemma to_int_not_nil (n : Z) :
  Z.to_int n <> Decimal.Pos Decimal.Nil /\
  Z.to_int n <> Decimal.Neg Decimal.Nil.
Proof.
  destruct n as [|p|p]; simpl; split; try discriminate;
    intros [= H]; revert H; apply DecimalPos.Unsigned.to_uint_nonnil.
Qed.

(** [str] is one-to-one on the integers. *)
Lemma str_of_int_inj (a b : Z) : str_of_int a = str_of_int b -> a = b.
Proof.
  unfold str_of_int. intros H.
  apply DecimalZ.to_int_inj.
  destruct (to_int_not_nil a) as [Ha1 Ha2].
  destruct (to_int_not_nil b) as [Hb1 Hb2].
  pose proof (NilZero.isi (Z.to_int a) Ha1 Ha2) as Ea.
  pose proof (NilZero.isi (Z.to_int b) Hb1 Hb2) as Eb.
  rewrite H in Ea. congruence.
Qed.

Lemma make_alert_id_second (category metric_name : string) (t1 t2 : Z) :
  make_alert_id category metric_name t1
  = make_alert_id category metric_name t2 <-> t1 = t2.
Proof.
  split; [|now intros ->].
  unfold make_alert_id. intros H.
  apply append_cancel_l in H. simpl in H. injection H as H.
  apply append_cancel_l in H. simpl in H. injection H as H.
  now apply str_of_int_inj.
Qed.

(** ** The alert life cycle *)

Lemma create_alert_eq (now : tick) (category metric_name message : string)
    (cur thr : float) (sev : string) (am : AlertManager) :
  create_alert now category metric_name message cur thr sev am
  = (List.length (alerts am),
     mk_AlertManager
       (alerts am ++
          [Alert.mk (make_alert_id category metric_name (time_time now))
                    (datetime_now now) sev category message metric_name
                    cur thr false None])
       (dict_set (make_alert_id category metric_name (time_time now))
                 (List.length (alerts am)) (active_alerts am))
       (alert_history am ++ [List.length (alerts am)])).
Proof. reflexivity. Qed.

Lemma nth_error_new {A} (l : list A) (a : A) :
  nth_error (l ++ [a]) (List.length l) = Some a.
Proof.
  rewrite nth_error_app2 by lia. now rewrite Nat.sub_diag.
Qed.

(** C6: resolving an id of the active set marks the alert object as
    resolved, stamps the resolution time, takes the id out of the active
    set (all other entries, the other objects and the history stay) and
    returns true; resolving an id that is not active returns false and
    leaves the manager as it was. *)
Theorem resolve_alert_spec (now : datetime) (alert_id : string)
    (am : AlertManager) :
  (forall r a,
      dict_get alert_id (active_alerts am) = Some r ->
      nth_error (alerts am) r = Some a ->
      let am' := snd (resolve_alert now alert_id am) in
      fst (resolve_alert now alert_id am) = true /\
      (exists a', nth_error (alerts am') r = Some a' /\
                  Alert.resolved a' = true /\
                  Alert.resolved_timestamp a' = Some now /\
                  a' = Alert.resolve now a) /\
      (forall r0, r0 <> r ->
                  nth_error (alerts am') r0 = nth_error (alerts am) r0) /\
      dict_mem alert_id (active_alerts am') = false /\
      (forall k, k <> alert_id ->
                 dict_get k (active_alerts am')
                 = dict_get k (active_alerts am)) /\
      alert_history am' = alert_history am)
  /\
  (dict_mem alert_id (active_alerts am) = false ->
   resolve_alert now alert_id am = (false, am)).
Proof.
  split.
  - intros r a Hr Ha. unfold resolve_alert. rewrite Hr. simpl.
    repeat split.
    + exists (Alert.resolve now a). rewrite store_update_same, Ha.
      repeat split.
    + intros r0 Hne. now apply store_update_other.
    + unfold dict_mem. now rewrite dict_get_del_same.
    + intros k Hk. now apply dict_get_del_other.
  - unfold dict_mem, resolve_alert.
    destruct (dict_get alert_id (active_alerts am)); [discriminate|auto].
Qed.

(** C7, as the code has it: an id is category_metric_second.  Every call
    of [create_alert] allocates one alert object, appends it to the
    history and makes its id refer to it in the active set; entries under
    other ids are kept, and an id that was not active adds one entry.  Two
    ids built for the same category and metric name are equal exactly when
    the creation seconds are. *)
Theorem create_alert_identity (now : tick)
    (category metric_name message : string) (cur thr : float)
    (sev : string) (am : AlertManager) :
  let alert_id := make_alert_id category metric_name (time_time now) in
  let r := fst (create_alert now category metric_name message cur thr sev am) in
  let am' := snd (create_alert now category metric_name message cur thr sev am) in
  r = List.length (alerts am) /\
  alerts am' = alerts am ++
     [Alert.mk alert_id (datetime_now now) sev category message
               metric_name cur thr false None] /\
  alert_history am' = alert_history am ++ [r] /\
  dict_get alert_id (active_alerts am') = Some r /\
  (forall k, k <> alert_id ->
             dict_get k (active_alerts am') = dict_get k (active_alerts am)) /\
  (dict_mem alert_id (active_alerts am) = false ->
   active_alerts am' = active_alerts am ++ [(alert_id, r)]) /\
  (forall t, make_alert_id category metric_name t = alert_id
             <-> t = time_time now).
Proof.
  rewrite create_alert_eq. simpl. repeat split.
  - apply dict_get_set_same.
  - intros k Hk. now apply dict_get_set_other.
  - unfold dict_mem. intros H. apply dict_set_fresh.
    destruct (dict_get _ (active_alerts am)); [discriminate|auto].
  - apply make_alert_id_second.
  - intros ->. reflexivity.
Qed.

(** ** Severity *)

Lemma SFcompare_swap (x y : spec_float) :
  SFcompare y x = option_map CompOpp (SFcompare x y).
Proof.
  destruct x as [sx|sx| |sx mx ex], y as [sy|sy| |sy my ey]; simpl;
    try reflexivity;
    try (destruct sx; reflexivity);
    try (destruct sy; reflexivity);
    try (destruct sx, sy; reflexivity).
  destruct sx, sy; simpl; try reflexivity;
    rewrite (Z.compare_antisym ex ey);
    destruct (ex ?= ey)%Z; simpl; try reflexivity;
    change (Pos.compare_cont Eq my mx) with (my ?= mx)%positive;
    change (Pos.compare_cont Eq mx my) with (mx ?= my)%positive;
    rewrite (Pos.compare_antisym mx my);
    destruct (mx ?= my)%positive; reflexivity.
Qed.

(** [x < y] excludes [y <= x]. *)
Lemma float_ltb_not_leb (x y : float) :
  PrimFloat.ltb x y = true -> PrimFloat.leb y x = false.
Proof.
  rewrite ltb_spec, leb_spec. unfold SFltb, SFleb.
  rewrite (SFcompare_swap (Prim2SF x) (Prim2SF y)).
  destruct (SFcompare (Prim2SF x) (Prim2SF y)) as [[| |]|];
    simpl; congruence.
Qed.

Lemma SFleb_ltb_trans (a r b : spec_float) :
  SFleb a r = true -> SFltb r b = true -> SFltb a b = true.
Proof.
  unfold SFleb, SFltb.
  destruct a as [sa|sa| |sa ma ea], r as [sr|sr| |sr mr er],
           b as [sb|sb| |sb mb eb]; simpl;
    try discriminate; try reflexivity;
    repeat match goal with s : bool |- _ => destruct s end;
    simpl; try discriminate; try reflexivity.
  all: change (Pos.compare_cont Eq ?x ?y) with (x ?= y)%positive.
  all: destruct (Z.compare_spec ea er); try discriminate;
       destruct (Z.compare_spec er eb); try discriminate;
       destruct (Z.compare_spec ea eb); try lia; try reflexivity;
       try (destruct (Pos.compare_spec ma mr); try discriminate);
       try (destruct (Pos.compare_spec mr mb); try discriminate);
       try (destruct (Pos.compare_spec ma mb); try discriminate);
       simpl; intros; try discriminate; try reflexivity; try lia.
Qed.

(** [a <= r] and [r < b] give [a < b]. *)
Lemma float_leb_ltb_trans (a r b : float) :
  PrimFloat.leb a r = true -> PrimFloat.ltb r b = true ->
  PrimFloat.ltb a b = true.
Proof.
  rewrite leb_spec, !ltb_spec. apply SFleb_ltb_trans.
Qed.

(** Two numbers that are not NaN are comparable. *)
Lemma float_leb_or_ltb (c r : float) :
  Prim2SF c <> S754_nan -> Prim2SF r <> S754_nan ->
  PrimFloat.leb c r = true \/ PrimFloat.ltb r c = true.
Proof.
  intros Hc Hr. rewrite leb_spec, ltb_spec. unfold SFleb, SFltb.
  rewrite (SFcompare_swap (Prim2SF c) (Prim2SF r)).
  destruct (SFcompare (Prim2SF c) (Prim2SF r)) as [[| |]|] eqn:E;
    simpl; auto.
  destruct (Prim2SF c) as [sc|sc| |sc mc ec],
           (Prim2SF r) as [sr|sr| |sr mr er];
    simpl in E; congruence.
Qed.

Lemma shr_1_nonneg (mrs : shr_record) :
  0 <= shr_m mrs -> 0 <= shr_m (shr_1 mrs).
Proof.
  destruct mrs as [m r s]. simpl.
  destruct m as [|[p|p|]|[p|p|]]; simpl; lia.
Qed.

Lemma iter_pos_nonneg (p : positive) (mrs : shr_record) :
  0 <= shr_m mrs -> 0 <= shr_m (iter_pos shr_1 p mrs).
Proof.
  revert mrs. induction p as [p IH|p IH|]; intros mrs H; simpl.
  - apply IH, IH. now apply shr_1_nonneg.
  - now apply IH, IH.
  - now apply shr_1_nonneg.
Qed.

Lemma shr_fexp_nonneg (prec emax m e : Z) (l : location) :
  0 <= m -> 0 <= shr_m (fst (shr_fexp prec emax m e l)).
Proof.
  intros H. unfold shr_fexp, shr.
  assert (H0 : 0 <= shr_m (shr_record_of_loc m l))
    by (destruct l as [|[| |]]; exact H).
  destruct (fexp prec emax (Zdigits2 m + e) - e); simpl; auto.
  now apply iter_pos_nonneg.
Qed.

Lemma round_nearest_even_nonneg (m : Z) (l : location) :
  0 <= m -> 0 <= round_nearest_even m l.
Proof.
  intros H. destruct l as [|[| |]]; simpl; try lia.
  destruct (Z.even m); lia.
Qed.

Lemma binary_round_aux_not_nan (prec emax : Z) (s : bool) (m e : Z)
    (l : location) :
  0 <= m -> binary_round_aux prec emax s m e l <> S754_nan.
Proof.
  intros H. unfold binary_round_aux.
  pose proof (shr_fexp_nonneg prec emax m e l H) as H1.
  destruct (shr_fexp prec emax m e l) as [mrs' e']. simpl in H1.
  pose proof (shr_fexp_nonneg prec emax _ e' loc_Exact
                (round_nearest_even_nonneg _ (loc_of_shr_record mrs') H1))
    as H2.
  destruct (shr_fexp prec emax _ e' loc_Exact) as [mrs'' e'']. simpl in H2.
  destruct (shr_m mrs''); try discriminate; [|lia].
  destruct (e'' <=? emax - prec); discriminate.
Qed.

Lemma SFdiv_core_nonneg (prec emax : Z) (m1 m2 : positive) (e1 e2 : Z) :
  0 <= fst (fst (SFdiv_core_binary prec emax (Z.pos m1) e1 (Z.pos m2) e2)).
Proof.
  unfold SFdiv_core_binary.
  set (s := _ - _ - Z.min _ _).
  set (m' := match s with Z.pos _ => _ | Z0 => _ | Z.neg _ => _ end).
  assert (Hm : 0 <= m').
  { unfold m'. destruct s; try lia. apply Z.shiftl_nonneg. lia. }
  pose proof (Z_div_mod m' (Z.pos m2) eq_refl) as Hd.
  destruct (Z.div_eucl m' (Z.pos m2)) as [q r]. simpl.
  destruct Hd as [Hq Hr]. nia.
Qed.

(** The quotient of a number by a smaller positive one is not a NaN. *)
Lemma div_not_nan (v t : float) :
  PrimFloat.ltb 0 t = true -> PrimFloat.ltb t v = true ->
  Prim2SF (v / t) <> S754_nan.
Proof.
  rewrite !ltb_spec, div_spec. unfold SF64div.
  change (Prim2SF 0) with (S754_zero false).
  destruct (Prim2SF t) as [st|st| |st mt et]; unfold SFltb; simpl;
    try discriminate;
    (destruct st; [discriminate|]); intros _;
    destruct (Prim2SF v) as [sv|sv| |sv mv ev]; simpl; try discriminate;
    destruct sv; simpl; try discriminate; intros _; try discriminate.
  pose proof (SFdiv_core_nonneg prec emax mv mt ev et) as H.
  destruct (SFdiv_core_binary prec emax (Z.pos mv) ev (Z.pos mt) et)
    as [[mz ez] lz]. simpl in H.
  now apply binary_round_aux_not_nan.
Qed.

Lemma positive_not_zero (t : float) :
  PrimFloat.ltb 0 t = true -> PrimFloat.eqb t 0 = false.
Proof.
  rewrite ltb_spec, eqb_spec. unfold SFltb, SFeqb.
  rewrite (SFcompare_swap (Prim2SF 0) (Prim2SF t)).
  destruct (SFcompare (Prim2SF 0) (Prim2SF t)) as [[| |]|];
    simpl; congruence.
Qed.

(** C2: for a threshold [t > 0] and a value [v > t] the severity follows
    the quotient [v / t] that the code computes, with inclusive lower
    bounds: at least 2.0 critical, from 1.5 up to 2.0 high, from 1.2 up to
    1.5 medium, below 1.2 low; one of the four cases always applies. *)
Theorem _determine_severity_tiers (v t : float) :
  PrimFloat.ltb 0 t = true ->
  PrimFloat.ltb t v = true ->
  let ratio := (v / t)%float in
  (PrimFloat.leb 2.0 ratio = true ->
   _determine_severity v t = Returned "critical") /\
  (PrimFloat.leb 1.5 ratio = true -> PrimFloat.ltb ratio 2.0 = true ->
   _determine_severity v t = Returned "high") /\
  (PrimFloat.leb 0x1.3333333333333p+0 ratio = true ->
   PrimFloat.ltb ratio 1.5 = true ->
   _determine_severity v t = Returned "medium") /\
  (PrimFloat.ltb ratio 0x1.3333333333333p+0 = true ->
   _determine_severity v t = Returned "low") /\
  (PrimFloat.leb 2.0 ratio = true \/
   (PrimFloat.leb 1.5 ratio = true /\ PrimFloat.ltb ratio 2.0 = true) \/
   (PrimFloat.leb 0x1.3333333333333p+0 ratio = true /\
    PrimFloat.ltb ratio 1.5 = true) \/
   PrimFloat.ltb ratio 0x1.3333333333333p+0 = true).
Proof.
  intros Ht Hv ratio.
  pose proof (div_not_nan v t Ht Hv) as Hnan. fold ratio in Hnan.
  unfold _determine_severity. rewrite (positive_not_zero t Ht).
  fold ratio.
  assert (T1 : PrimFloat.ltb ratio 1.5 = true ->
               PrimFloat.leb 2.0 ratio = false).
  { intros H. destruct (PrimFloat.leb 2.0 ratio) eqn:E; auto.
    pose proof (float_leb_ltb_trans _ _ _ E H) as C.
    vm_compute in C. discriminate. }
  assert (T2 : PrimFloat.ltb ratio 0x1.3333333333333p+0 = true ->
               PrimFloat.leb 1.5 ratio = false).
  { intros H. destruct (PrimFloat.leb 1.5 ratio) eqn:E; auto.
    pose proof (float_leb_ltb_trans _ _ _ E H) as C.
    vm_compute in C. discriminate. }
  assert (T3 : PrimFloat.ltb ratio 0x1.3333333333333p+0 = true ->
               PrimFloat.leb 2.0 ratio = false).
  { intros H. destruct (PrimFloat.leb 2.0 ratio) eqn:E; auto.
    pose proof (float_leb_ltb_trans _ _ _ E H) as C.
    vm_compute in C. discriminate. }
  repeat split.
  - intros H. now rewrite H.
  - intros H1 H2. now rewrite (float_ltb_not_leb _ _ H2), H1.
  - intros H1 H2. now rewrite (T1 H2), (float_ltb_not_leb _ _ H2), H1.
  - intros H. now rewrite (T3 H), (T2 H), (float_ltb_not_leb _ _ H).
  - destruct (float_leb_or_ltb 2.0 ratio) as [H|H2];
      [discriminate|exact Hnan|now left|].
    destruct (float_leb_or_ltb 1.5 ratio) as [H|H15];
      [discriminate|exact Hnan|right; left; auto|].
    destruct (float_leb_or_ltb 0x1.3333333333333p+0 ratio) as [H|H12];
      [discriminate|exact Hnan|right; right; left; auto|].
    right; right; right; exact H12.
Qed.


(** ** The bounded metrics history *)

Lemma last_slice_short {A} (k : nat) (l : list A) :
  (List.length l <= k)%nat -> last_slice k l = l.
Proof.
  intros H. unfold last_slice.
  replace (List.length l - k)%nat with 0%nat by lia. reflexivity.
Qed.

Lemma last_slice_length {A} (k : nat) (l : list A) :
  List.length (last_slice k l) = Nat.min k (List.length l).
Proof.
  unfold last_slice. rewrite length_skipn. lia.
Qed.

Lemma last_slice_snoc {A} (k : nat) (l : list A) (a : A) :
  (0 < k)%nat ->
  last_slice k (last_slice k l ++ [a]) = last_slice k (l ++ [a]).
Proof.
  intros Hk. unfold last_slice.
  rewrite !length_app, length_skipn. simpl.
  destruct (Nat.le_gt_cases (List.length l) k) as [Hle|Hgt].
  - replace (List.length l - k)%nat with 0%nat by lia. simpl.
    f_equal. lia.
  - replace (List.length l - (List.length l - k) + 1 - k)%nat
      with 1%nat by lia.
    replace (List.length l + 1 - k)%nat
      with (S (List.length l - k)) by lia.
    rewrite (skipn_app (S (List.length l - k)) l).
    replace (S (List.length l - k) - List.length l)%nat with 0%nat by lia.
    rewrite (skipn_app 1), length_skipn.
    replace (1 - (List.length l - (List.length l - k)))%nat
      with 0%nat by lia.
    rewrite skipn_skipn. reflexivity.
Qed.

(** What the retention rule keeps of a history that is itself the tail of
    everything recorded so far. *)
Lemma retain_last_slice (l : list metrics) (m : metrics) :
  retain (last_slice 1000 l) m = last_slice 1000 (l ++ [m]).
Proof.
  unfold retain.
  destruct (Nat.ltb_spec 1000 (List.length (last_slice 1000 l ++ [m])))
    as [Hlt|Hge].
  - apply last_slice_snoc. lia.
  - rewrite length_app, last_slice_length in Hge.
    change (List.length [m]) with 1%nat in Hge.
    assert (Hl : (List.length l < 1000)%nat) by lia.
    rewrite (last_slice_short 1000 l) by lia.
    rewrite last_slice_short; [reflexivity|].
    rewrite length_app. change (List.length [m]) with 1%nat. lia.
Qed.

Lemma monitoring_cycle_history (w : World) (clk : nat -> tick)
    (thresholds : dict float) (m : metrics) (ms : MonitoringSystem) :
  metrics_history (monitoring_cycle w clk thresholds (Some m) ms)
  = retain (metrics_history ms) m.
Proof.
  unfold monitoring_cycle.
  destruct (_check_thresholds clk thresholds m (alert_manager ms))
    as [[u|e] am]; reflexivity.
Qed.

Lemma monitoring_cycles_history (thresholds : dict float)
    (inputs : list (World * (nat -> tick) * metrics))
    (seen : list metrics) (ms : MonitoringSystem) :
  metrics_history ms = last_slice 1000 seen ->
  metrics_history (monitoring_cycles thresholds inputs ms)
  = last_slice 1000 (seen ++ map snd inputs).
Proof.
  revert seen ms.
  induction inputs as [|[[w clk] m] inputs IH]; intros seen ms H.
  - simpl. now rewrite app_nil_r.
  - change (monitoring_cycles thresholds ((w, clk, m) :: inputs) ms)
      with (monitoring_cycles thresholds inputs
              (monitoring_cycle w clk thresholds (Some m) ms)).
    rewrite (IH (seen ++ [m])).
    + simpl map. now rewrite <- app_assoc.
    + rewrite monitoring_cycle_history, H. apply retain_last_slice.
Qed.

(** The history never holds more than 1000 snapshots. *)
Lemma metrics_history_at_most_1000 (thresholds : dict float)
    (inputs : list (World * (nat -> tick) * metrics))
    (ms : MonitoringSystem) :
  metrics_history ms = [] ->
  (List.length (metrics_history (monitoring_cycles thresholds inputs ms))
   <= 1000)%nat.
Proof.
  intros H.
  rewrite (monitoring_cycles_history thresholds inputs [] ms) by now rewrite H.
  rewrite last_slice_length. lia.
Qed.

(** C4: after 1001 snapshots have gone through the monitoring loop,
    starting from an empty history, the history is the sequence of the
    snapshots without the first one: 1000 entries in insertion order, the
    most recent last, and the oldest one gone. *)
Theorem metrics_history_fifo (thresholds : dict float)
    (inputs : list (World * (nat -> tick) * metrics))
    (ms : MonitoringSystem) (d : metrics) :
  metrics_history ms = [] ->
  List.length inputs = 1001%nat ->
  let samples := map snd inputs in
  let history := metrics_history (monitoring_cycles thresholds inputs ms) in
  history = tl samples /\
  List.length history = 1000%nat /\
  last history d = last samples d /\
  (forall i, (i < 1000)%nat ->
             nth_error history i = nth_error samples (S i)) /\
  (NoDup samples -> ~ In (hd d samples) history).
Proof.
  intros H Hlen samples history.
  assert (Hh : history = tl samples).
  { unfold history.
    rewrite (monitoring_cycles_history thresholds inputs [] ms)
      by now rewrite H.
    simpl. unfold last_slice. fold samples.
    unfold samples at 1. rewrite length_map, Hlen.
    replace (1001 - 1000)%nat with 1%nat by lia.
    now destruct samples. }
  assert (Hs : List.length samples = 1001%nat)
    by (unfold samples; now rewrite length_map).
  rewrite Hh.
  destruct samples as [|s0 rest] eqn:E; [discriminate|]. simpl.
  simpl in Hs. injection Hs as Hs.
  repeat split; auto.
  - destruct rest; [discriminate|reflexivity].
  - intros Hnd. now inversion Hnd.
Qed.


(** ** Deduplication of alerts by metric name *)

Lemma dict_values_set_In {V} (k : string) (v x : V) (d : dict V) :
  In x (dict_values (dict_set k v d)) -> x = v \/ In x (dict_values d).
Proof.
  induction d as [|[k' v'] d IH]; simpl.
  - intros [H|[]]; auto.
  - destruct (String.eqb k k'); simpl; intros [H|H]; auto.
    destruct (IH H); auto.
Qed.

Lemma dict_values_set_Forall {V} (Q : V -> Prop) (k : string) (v : V)
    (d : dict V) :
  Q v -> Forall Q (dict_values d) ->
  Forall Q (dict_values (dict_set k v d)).
Proof.
  intros Hv Hd. apply Forall_forall. intros x Hx.
  destruct (dict_values_set_In _ _ _ _ Hx) as [->|H]; auto.
  exact (proj1 (Forall_forall _ _) Hd x H).
Qed.

Lemma dict_values_set_NoDup {V} (k : string) (v : V) (d : dict V) :
  ~ In v (dict_values d) -> NoDup (dict_values d) ->
  NoDup (dict_values (dict_set k v d)).
Proof.
  induction d as [|[k' v'] d IH]; simpl; intros Hv Hd.
  - constructor; [intros []|constructor].
  - inversion Hd as [|? ? Hn Hd']; subst.
    destruct (String.eqb k k'); simpl; constructor; auto.
    intros H. destruct (dict_values_set_In _ _ _ _ H) as [->|H']; auto.
Qed.

Lemma dict_values_set_count {V} (P P' : V -> bool) (k : string) (v : V)
    (d : dict V) :
  (forall x, In x (dict_values d) -> P' x = P x) ->
  (List.length (filter P' (dict_values (dict_set k v d)))
   <= List.length (filter P (dict_values d))
      + (if P' v then 1 else 0))%nat.
Proof.
  induction d as [|[k' v'] d IH]; simpl; intros Hext.
  - destruct (P' v); simpl; lia.
  - assert (Hd : forall x, In x (dict_values d) -> P' x = P x) by auto.
    specialize (IH Hd).
    destruct (String.eqb k k'); simpl.
    + rewrite (filter_ext_in P' P (dict_values d) Hd).
      destruct (P' v), (P v'); simpl; lia.
    + rewrite (Hext v' (or_introl eq_refl)).
      destruct (P v'); simpl; lia.
Qed.

Lemma dict_values_del_In {V} (k : string) (x : V) (d : dict V) :
  In x (dict_values (dict_del k d)) -> In x (dict_values d).
Proof.
  induction d as [|[k' v'] d IH]; simpl; auto.
  destruct (String.eqb k k'); simpl; intuition.
Qed.

Lemma dict_values_del_NoDup {V} (k : string) (d : dict V) :
  NoDup (dict_values d) -> NoDup (dict_values (dict_del k d)).
Proof.
  induction d as [|[k' v'] d IH]; simpl; auto.
  intros Hd. inversion Hd as [|? ? Hn Hd']; subst.
  destruct (String.eqb k k'); simpl; auto.
  constructor; auto. intros H. apply Hn. eapply dict_values_del_In; eauto.
Qed.

Lemma dict_values_del_count {V} (P : V -> bool) (k : string) (d : dict V) :
  (List.length (filter P (dict_values (dict_del k d)))
   <= List.length (filter P (dict_values d)))%nat.
Proof.
  induction d as [|[k' v'] d IH]; simpl; auto.
  destruct (String.eqb k k'); simpl; destruct (P v'); simpl; lia.
Qed.

(** With distinct values, deleting a key removes its value for good. *)
Lemma dict_values_del_other {V} (k : string) (r x : V) (d : dict V) :
  NoDup (dict_values d) -> dict_get k d = Some r ->
  In x (dict_values (dict_del k d)) -> x <> r.
Proof.
  induction d as [|[k' v'] d IH]; simpl; [discriminate|].
  intros Hd. inversion Hd as [|? ? Hn Hd']; subst.
  destruct (String.eqb k k') eqn:E.
  - intros [= ->] Hx Heq. subst x. apply Hn.
    eapply dict_values_del_In; eauto.
  - intros Hg [Heq|Hx].
    + subst x. intros Heq. subst r. apply Hn.
      apply dict_get_In in Hg. apply (in_map snd) in Hg. exact Hg.
    + now apply IH.
Qed.

Lemma find_none_filter {A} (P : A -> bool) (l : list A) :
  find P l = None -> filter P l = [].
Proof.
  induction l as [|a l IH]; simpl; auto.
  destruct (P a); [discriminate|auto].
Qed.

Lemma existing_alert_none_count (metric_name : string) (am : AlertManager) :
  existing_alert metric_name am = None -> count_active metric_name am = 0%nat.
Proof.
  unfold existing_alert, count_active. intros H.
  now rewrite (find_none_filter _ _ H).
Qed.

Lemma dict_keys_set_In {V} (k x : string) (v : V) (d : dict V) :
  In x (dict_keys (dict_set k v d)) -> x = k \/ In x (dict_keys d).
Proof.
  induction d as [|[k' v'] d IH]; simpl.
  - intros [H|[]]; auto.
  - destruct (String.eqb k k'); simpl; intros [H|H]; auto.
    destruct (IH H); auto.
Qed.

Lemma dict_keys_set_NoDup {V} (k : string) (v : V) (d : dict V) :
  NoDup (dict_keys d) -> NoDup (dict_keys (dict_set k v d)).
Proof.
  induction d as [|[k' v'] d IH]; simpl; intros Hd.
  - constructor; [intros []|constructor].
  - inversion Hd as [|? ? Hn Hd']; subst.
    destruct (String.eqb k k') eqn:E; simpl; constructor; auto.
    intros H. destruct (dict_keys_set_In _ _ _ _ H) as [->|H']; auto.
    now rewrite String.eqb_refl in E.
Qed.

Lemma dict_keys_del_In {V} (k x : string) (d : dict V) :
  In x (dict_keys (dict_del k d)) -> In x (dict_keys d) /\ x <> k.
Proof.
  induction d as [|[k' v'] d IH]; simpl; [intros []|].
  destruct (String.eqb k k') eqn:E; simpl.
  - intros H. destruct (IH H). auto.
  - intros [<-|H].
    + split; auto. intros ->. now rewrite String.eqb_refl in E.
    + destruct (IH H). auto.
Qed.

Lemma dict_keys_del_NoDup {V} (k : string) (d : dict V) :
  NoDup (dict_keys d) -> NoDup (dict_keys (dict_del k d)).
Proof.
  induction d as [|[k' v'] d IH]; simpl; auto.
  intros Hd. inversion Hd as [|? ? Hn Hd']; subst.
  destruct (String.eqb k k'); simpl; auto.
  constructor; auto. intros H. apply Hn. now apply dict_keys_del_In in H.
Qed.

Lemma active_address_allocated (am : AlertManager) (r : nat) :
  AlertManager_ok am -> In r (dict_values (active_alerts am)) ->
  (r < List.length (alerts am))%nat.
Proof.
  intros [Hall _] Hr.
  destruct (proj1 (Forall_forall _ _) Hall r Hr) as [a [Ha _]].
  apply nth_error_Some. congruence.
Qed.

Lemma dedup_invariant_init : dedup_invariant AlertManager_init.
Proof.
  split; [repeat split; constructor|].
  intros m. unfold count_active. simpl. lia.
Qed.

(** Creating an alert for a metric that has no active alert keeps the
    invariant, whatever id the new alert gets. *)
Lemma dedup_invariant_create (now : tick)
    (category metric_name message : string) (cur thr : float)
    (sev : string) (am : AlertManager) :
  dedup_invariant am ->
  existing_alert metric_name am = None ->
  dedup_invariant
    (snd (create_alert now category metric_name message cur thr sev am)).
Proof.
  intros [Hok Hcount] Hnone. rewrite create_alert_eq. simpl.
  set (new := Alert.mk _ _ _ _ _ _ _ _ _ _).
  set (k := make_alert_id _ _ _).
  assert (Hold : forall r, In r (dict_values (active_alerts am)) ->
                           nth_error (alerts am ++ [new]) r
                           = nth_error (alerts am) r).
  { intros r Hr. apply nth_error_app1.
    now apply active_address_allocated. }
  split; [split; [|split]|]; simpl.
  - apply dict_values_set_Forall.
    + exists new. split; [apply nth_error_new|reflexivity].
    + destruct Hok as [Hall _]. apply Forall_forall. intros r Hr.
      rewrite (Hold r Hr).
      exact (proj1 (Forall_forall _ _) Hall r Hr).
  - apply dict_values_set_NoDup; [|apply Hok].
    intros Hin. apply (active_address_allocated am _ Hok) in Hin. lia.
  - apply dict_keys_set_NoDup, Hok.
  - intros m0. unfold count_active. simpl.
    eapply Nat.le_trans.
    + apply (dict_values_set_count (has_metric_name am m0)).
      intros r Hr. unfold has_metric_name. simpl. now rewrite (Hold r Hr).
    + unfold has_metric_name at 2. simpl. rewrite nth_error_new.
      simpl. destruct (String.eqb metric_name m0) eqn:E.
      * apply String.eqb_eq in E. subst m0.
        fold (count_active metric_name am).
        rewrite (existing_alert_none_count _ _ Hnone). lia.
      * specialize (Hcount m0). unfold count_active in Hcount. lia.
Qed.

Lemma has_metric_name_resolve (now : datetime) (r : nat)
    (am : AlertManager) (l : dict nat) (h : list nat)
    (metric_name : string) (r0 : nat) :
  has_metric_name
    (mk_AlertManager (store_update r (Alert.resolve now) (alerts am)) l h)
    metric_name r0
  = has_metric_name am metric_name r0.
Proof.
  unfold has_metric_name. simpl.
  pose proof (store_update_field Alert.metric_name r r0 (Alert.resolve now)
                (alerts am) (fun a => eq_refl)) as H.
  destruct (nth_error (store_update r (Alert.resolve now) (alerts am)) r0),
           (nth_error (alerts am) r0); simpl in H; congruence.
Qed.

Lemma dedup_invariant_resolve (now : datetime) (alert_id : string)
    (am : AlertManager) :
  dedup_invariant am ->
  dedup_invariant (snd (resolve_alert now alert_id am)).
Proof.
  intros [Hok Hcount]. unfold resolve_alert.
  destruct (dict_get alert_id (active_alerts am)) as [r|] eqn:Hr;
    [|split; auto].
  destruct Hok as [Hall [Hnd Hkeys]]. split; [split; [|split]|]; simpl.
  - apply Forall_forall. intros x Hx.
    pose proof (dict_values_del_other _ _ _ _ Hnd Hr Hx) as Hne.
    rewrite store_update_other by exact Hne.
    apply (proj1 (Forall_forall _ _) Hall).
    eapply dict_values_del_In; eauto.
  - now apply dict_values_del_NoDup.
  - now apply dict_keys_del_NoDup.
  - intros m0. unfold count_active. simpl.
    rewrite (filter_ext _ _ (has_metric_name_resolve now r am _ _ m0)).
    eapply Nat.le_trans; [apply dict_values_del_count|apply Hcount].
Qed.

Lemma dedup_invariant_resolve_all (clk : nat -> tick) (ids : list string)
    (n : nat) (am : AlertManager) :
  dedup_invariant am ->
  dedup_invariant (snd (resolve_all clk ids (n, am))).
Proof.
  revert n am. induction ids as [|i ids IH]; intros n am H; simpl; auto.
  pose proof (dedup_invariant_resolve (datetime_now (clk n)) i am H) as H'.
  destruct (resolve_alert (datetime_now (clk n)) i am) as [done am'].
  now apply IH.
Qed.

Lemma dedup_invariant_check_metric (clk : nat -> tick) (m : metrics)
    (thresholds : dict float) (chk : string * string * string)
    (n : nat) (am : AlertManager) :
  dedup_invariant am ->
  dedup_invariant (snd (snd (check_metric clk m thresholds chk (n, am)))).
Proof.
  intros H. destruct chk as [[metric_name description] category].
  unfold check_metric.
  destruct (dict_get metric_name (metrics_values m)) as [cur|]; auto.
  destruct (dict_get metric_name thresholds) as [thr|]; auto.
  destruct (PrimFloat.ltb thr cur).
  - destruct (existing_alert metric_name am) eqn:E; auto.
    destruct (_determine_severity cur thr) as [sev|e]; auto.
    pose proof (dedup_invariant_create (clk n) category metric_name
      (description ++ " excede el umbral: " ++ format_2f cur ++ " > "
         ++ format_2f thr)%string cur thr sev am H E) as H'.
    destruct (create_alert _ _ _ _ _ _ _ _) as [r am']. exact H'.
  - simpl. now apply dedup_invariant_resolve_all.
Qed.

Lemma dedup_invariant_check_loop (clk : nat -> tick) (m : metrics)
    (thresholds : dict float) (cs : list (string * string * string))
    (n : nat) (am : AlertManager) :
  dedup_invariant am ->
  dedup_invariant (snd (snd (check_loop clk m thresholds cs (n, am)))).
Proof.
  revert n am. induction cs as [|chk cs IH]; intros n am H; simpl; auto.
  pose proof (dedup_invariant_check_metric clk m thresholds chk n am H)
    as H'.
  destruct (check_metric clk m thresholds chk (n, am)) as [[u|e] [n' am']];
    simpl in *; auto.
Qed.

Lemma engine_reachable_invariant (thresholds : dict float)
    (am : AlertManager) :
  engine_reachable thresholds am -> dedup_invariant am.
Proof.
  induction 1.
  - apply dedup_invariant_init.
  - now apply dedup_invariant_check_loop.
  - now apply dedup_invariant_resolve.
Qed.

(** The whole evaluation is its loop run to the end. *)
Lemma _check_thresholds_upto_all (clk : nat -> tick)
    (thresholds : dict float) (m : metrics) (am : AlertManager) :
  snd (_check_thresholds clk thresholds m am)
  = _check_thresholds_upto (List.length checks) clk thresholds m am.
Proof.
  unfold _check_thresholds, _check_thresholds_upto.
  rewrite firstn_all.
  destruct (check_loop clk m thresholds checks (0%nat, am))
    as [res [n am']]. reflexivity.
Qed.

(** A breach of a metric that already has an active alert changes
    nothing. *)
Lemma check_metric_existing (clk : nat -> tick) (m : metrics)
    (thresholds : dict float) (metric_name description category : string)
    (cur thr : float) (r n : nat) (am : AlertManager) :
  dict_get metric_name (metrics_values m) = Some cur ->
  dict_get metric_name thresholds = Some thr ->
  PrimFloat.ltb thr cur = true ->
  existing_alert metric_name am = Some r ->
  check_metric clk m thresholds (metric_name, description, category)
               (n, am)
  = (Returned tt, (n, am)).
Proof.
  intros Hc Ht Hlt He. unfold check_metric.
  now rewrite Hc, Ht, Hlt, He.
Qed.

(** C1: in every state that the alert manager reaches when its alerts are
    created by the threshold evaluation only, at any point of the
    evaluation, each metric name has at most one alert in the active set,
    and the alerts of the active set are unresolved; a breach of a metric
    with an active alert creates nothing. *)
Theorem one_active_alert_per_metric (thresholds : dict float)
    (am : AlertManager) :
  engine_reachable thresholds am ->
  (forall metric_name, (count_active metric_name am <= 1)%nat) /\
  (forall a, In a (active_alert_objects am) -> Alert.resolved a = false) /\
  (forall clk m metric_name description category cur thr r n,
      dict_get metric_name (metrics_values m) = Some cur ->
      dict_get metric_name thresholds = Some thr ->
      PrimFloat.ltb thr cur = true ->
      existing_alert metric_name am = Some r ->
      check_metric clk m thresholds (metric_name, description, category)
                   (n, am)
      = (Returned tt, (n, am))).
Proof.
  intros Hreach.
  destruct (engine_reachable_invariant _ _ Hreach) as [[Hall _] Hcount].
  repeat split; auto.
  - intros a Ha. unfold active_alert_objects in Ha.
    apply in_flat_map in Ha. destruct Ha as [r [Hr Ha]].
    destruct (proj1 (Forall_forall _ _) Hall r Hr) as [a' [Ha' Hres]].
    rewrite Ha' in Ha. destruct Ha as [<-|[]]. exact Hres.
  - intros. eapply check_metric_existing; eauto.
Qed.


(** ** Hysteresis on a zero threshold *)

(** C3 at the threshold T = 0 for [cpu_usage] with the samples T+1, T+1,
    T-1: the first breach makes [_determine_severity] divide by zero, the
    evaluation is left with that exception, and after the three samples
    no alert has been created and none resolved. *)
Theorem hysteresis_zero_threshold :
  let thresholds :=
    [("connection_count", 100%float); ("cpu_usage", 0%float);
     ("memory_usage", 85%float); ("disk_usage", 90%float);
     ("slow_queries_count", 10%float)] in
  let sample cpu :=
    mk_metrics (mk_datetime 2024 1 1 0 0 0 0)
      [("connection_count", 5%float); ("cpu_usage", cpu);
       ("memory_usage", 40%float); ("disk_usage", 50%float);
       ("slow_queries_count", 0%float)] in
  let clk (i : nat) := mk_tick 1700000000 (mk_datetime 2024 1 1 0 0 0 0) in
  let r1 := _check_thresholds clk thresholds (sample 1%float)
                              AlertManager_init in
  let r2 := _check_thresholds clk thresholds (sample 1%float) (snd r1) in
  let r3 := _check_thresholds clk thresholds (sample (-1)%float) (snd r2) in
  fst r1 = Raised (mk_exn ZeroDivisionError "float division by zero") /\
  alerts (snd r1) = [] /\
  fst r2 = Raised (mk_exn ZeroDivisionError "float division by zero") /\
  fst r3 = Returned tt /\
  snd r3 = AlertManager_init.
Proof. vm_compute. repeat split. Qed.

(** ** The connection check *)

(** C8: when the data source is not reachable, the connection check
    creates one alert (category connection, metric database_connection,
    value 0 against threshold 1, severity critical, unresolved), which is
    the alert that its id refers to in the active set, and returns False;
    the other entries of the active set stay, and on an empty active set
    the new alert is the only active one.  When the data source is
    reachable, nothing changes and True is returned.  A registered task
    with this function, run by [_execute_task], does that to the
    monitoring system of the scheduler. *)
Theorem connection_check_spec (w : World) (clk : nat -> tick)
    (ms : MonitoringSystem) :
  (test_connection w = Returned false ->
   let res := _check_database_connection w clk ms in
   let am := alert_manager ms in
   let am' := alert_manager (snd res) in
   let r := List.length (alerts am) in
   let alert_id :=
     make_alert_id "connection" "database_connection" (time_time (clk 0%nat)) in
   let alert :=
     Alert.mk alert_id (datetime_now (clk 0%nat)) "critical" "connection"
              "Conexión a la base de datos perdida" "database_connection"
              0%float 1%float false None in
   fst res = Returned (PyBool false) /\
   alerts am' = alerts am ++ [alert] /\
   alert_history am' = alert_history am ++ [r] /\
   dict_get alert_id (active_alerts am') = Some r /\
   (forall k, k <> alert_id ->
              dict_get k (active_alerts am') = dict_get k (active_alerts am)) /\
   (active_alerts am = [] -> active_alert_objects am' = [alert]) /\
   monitoring_active (snd res) = monitoring_active ms /\
   metrics_history (snd res) = metrics_history ms /\
   custom_checks (snd res) = custom_checks ms)
  /\
  (test_connection w = Returned true ->
   _check_database_connection w clk ms = (Returned (PyBool true), ms))
  /\
  (forall ts r task,
      nth_error (tasks ts) r = Some task ->
      ScheduledTask.function task = _check_database_connection ->
      monitoring_system (_execute_task w clk r ts)
      = snd (_check_database_connection w (fun i => clk (S i))
                                        (monitoring_system ts))).
Proof.
  split; [|split].
  - intros Hc. unfold _check_database_connection. rewrite Hc.
    rewrite create_alert_eq. simpl. repeat split.
    + apply dict_get_set_same.
    + intros k Hk. now apply dict_get_set_other.
    + intros He. rewrite He. unfold active_alert_objects. simpl.
      now rewrite nth_error_new.
  - intros Hc. unfold _check_database_connection. now rewrite Hc.
  - intros ts r task Ht Hf. unfold _execute_task. rewrite Ht, Hf. simpl.
    destruct (_check_database_connection w (fun i => clk (S i))
                                          (monitoring_system ts))
      as [[v|e] ms'] eqn:E; simpl.
    + reflexivity.
    + destruct (5 <=? ScheduledTask.error_count task + 1); [|reflexivity].
      unfold disable_task. simpl.
      destruct (dict_get (ScheduledTask.id task) (scheduled_tasks ts));
        reflexivity.
Qed.

(** ** Registration *)

Lemma _schedule_task_supported (r : nat) (task : Task) (js : list Job) :
  supported_cadence (ScheduledTask.schedule_type task)
                    (ScheduledTask.schedule_value task) = true ->
  exists c f,
    _schedule_task r task js
    = (Returned tt, js ++ [mk_Job (ScheduledTask.id task) c f]) /\
    job_task (mk_Job (ScheduledTask.id task) c f) = r.
Proof.
  unfold supported_cadence, _schedule_task.
  destruct (String.eqb (ScheduledTask.schedule_type task) "interval").
  { intros ->. eauto. }
  destruct (String.eqb (ScheduledTask.schedule_type task) "daily").
  { intros ->. eauto. }
  destruct (String.eqb (ScheduledTask.schedule_type task) "weekly").
  { destruct (ScheduledTask.schedule_value task); try discriminate.
    destruct (weekday_of_name (lower s)); [eauto|discriminate]. }
  intros ->. eauto.
Qed.

(** A schedule type outside the four that [_schedule_task] knows arms
    nothing. *)
Lemma _schedule_task_unknown_type (r : nat) (task : Task) (js : list Job) :
  String.eqb (ScheduledTask.schedule_type task) "interval" = false ->
  String.eqb (ScheduledTask.schedule_type task) "daily" = false ->
  String.eqb (ScheduledTask.schedule_type task) "weekly" = false ->
  String.eqb (ScheduledTask.schedule_type task) "monthly" = false ->
  _schedule_task r task js = (Returned tt, js).
Proof.
  intros H1 H2 H3 H4. unfold _schedule_task. now rewrite H1, H2, H3, H4.
Qed.

(** C9, as the code has it: an id that is already registered is refused
    and the scheduler is left as it was; a fresh id gets a new task object
    with the given fields in the registry, and then a task that is not
    enabled is not armed and True is returned, while an enabled task goes
    through [_schedule_task]: for a supported cadence one job tagged with
    the id and bound to the new task is armed and True is returned; for a
    schedule type other than interval, daily, weekly and monthly nothing
    is armed and True is returned all the same. *)
Theorem add_task_spec (task_id name : string) (function : Callable)
    (schedule_type : string) (schedule_value : pyval) (enabled : bool)
    (ts : TaskScheduler) :
  let res := add_task task_id name function schedule_type schedule_value
                      enabled ts in
  let task := ScheduledTask.mk task_id name function schedule_type
                               schedule_value enabled None None 0 0 None in
  let r := List.length (tasks ts) in
  (dict_mem task_id (scheduled_tasks ts) = true ->
   res = (Returned false, ts))
  /\
  (dict_mem task_id (scheduled_tasks ts) = false ->
   tasks (snd res) = tasks ts ++ [task] /\
   scheduled_tasks (snd res) = scheduled_tasks ts ++ [(task_id, r)] /\
   monitoring_system (snd res) = monitoring_system ts /\
   (enabled = false ->
    fst res = Returned true /\ jobs (snd res) = jobs ts) /\
   (enabled = true ->
    supported_cadence schedule_type schedule_value = true ->
    fst res = Returned true /\
    exists c f, jobs (snd res) = jobs ts ++ [mk_Job task_id c f] /\
                job_task (mk_Job task_id c f) = r) /\
   (enabled = true ->
    String.eqb schedule_type "interval" = false ->
    String.eqb schedule_type "daily" = false ->
    String.eqb schedule_type "weekly" = false ->
    String.eqb schedule_type "monthly" = false ->
    fst res = Returned true /\ jobs (snd res) = jobs ts)).
Proof.
  intros res task r. subst res. unfold add_task. split.
  - intros ->. reflexivity.
  - intros Hfresh. rewrite Hfresh. fold task. fold r.
    assert (Hset : dict_set task_id r (scheduled_tasks ts)
                   = scheduled_tasks ts ++ [(task_id, r)]).
    { apply dict_set_fresh. unfold dict_mem in Hfresh.
      destruct (dict_get task_id (scheduled_tasks ts));
        [discriminate|reflexivity]. }
    destruct enabled.
    + simpl. rewrite Hset.
      destruct (_schedule_task r task (jobs ts)) as [[u|e] js] eqn:E;
        simpl; (split; [reflexivity|]); (split; [reflexivity|]);
        (split; [reflexivity|]); (split; [discriminate|]); split.
      * intros _ Hs.
        destruct (_schedule_task_supported r task (jobs ts) Hs)
          as [c [f [Hj Hr]]].
        rewrite Hj in E. injection E as <-.
        split; [reflexivity|]. exists c, f. now split.
      * intros _ H1 H2 H3 H4.
        rewrite (_schedule_task_unknown_type r task (jobs ts) H1 H2 H3 H4)
          in E.
        inversion E; subst. split; reflexivity.
      * intros _ Hs.
        destruct (_schedule_task_supported r task (jobs ts) Hs)
          as [c [f [Hj Hr]]].
        rewrite Hj in E. discriminate.
      * intros _ H1 H2 H3 H4.
        rewrite (_schedule_task_unknown_type r task (jobs ts) H1 H2 H3 H4)
          in E.
        discriminate.
    + simpl. rewrite Hset.
      split; [reflexivity|]. split; [reflexivity|]. split; [reflexivity|].
      split; [auto|]. split; discriminate.
Qed.

(** ** Execution accounting and the circuit breaker *)

Lemma schedule_clear_idempotent (tag : string) (js : list Job) :
  schedule_clear tag (schedule_clear tag js) = schedule_clear tag js.
Proof.
  unfold schedule_clear. induction js as [|j js IH]; simpl; auto.
  destruct (negb (String.eqb (job_tag j) tag)) eqn:E; simpl; auto.
  now rewrite E, IH.
Qed.

Lemma schedule_clear_incl (tag : string) (js : list Job) (j : Job) :
  In j (schedule_clear tag js) -> In j js /\ job_tag j <> tag.
Proof.
  unfold schedule_clear. rewrite filter_In. intros [H1 H2]. split; auto.
  intros <-. now rewrite String.eqb_refl in H2.
Qed.

(** One execution of a registered task. *)
Lemma _execute_task_registered (w : World) (clk : nat -> tick) (r : nat)
    (ts : TaskScheduler) (task : Task) :
  nth_error (tasks ts) r = Some task ->
  dict_get (ScheduledTask.id task) (scheduled_tasks ts) = Some r ->
  let res := ScheduledTask.function task w (fun i => clk (S i))
                                     (monitoring_system ts) in
  let ts' := _execute_task w clk r ts in
  nth_error (tasks ts') r
  = Some (task_after_run (datetime_now (clk 0%nat)) (fst res) task) /\
  (forall r0, r0 <> r -> nth_error (tasks ts') r0 = nth_error (tasks ts) r0) /\
  scheduled_tasks ts' = scheduled_tasks ts /\
  monitoring_system ts' = snd res /\
  jobs ts' = match fst res with
             | Returned _ => jobs ts
             | Raised _ =>
                 if 5 <=? ScheduledTask.error_count task + 1
                 then schedule_clear (ScheduledTask.id task) (jobs ts)
                 else jobs ts
             end.
Proof.
  intros Ht Hreg res ts'. subst res ts'. unfold _execute_task. rewrite Ht.
  destruct (ScheduledTask.function task w (fun i => clk (S i))
              (monitoring_system
                 (with_tasks
                    (store_update r
                       (ScheduledTask.begin_run (datetime_now (clk 0%nat)))
                       (tasks ts)) ts))) as [[v|e] ms'] eqn:E;
    simpl in E; rewrite E; simpl.
  - repeat split; auto.
    + now rewrite !store_update_same, Ht.
    + intros r0 Hne. now rewrite !store_update_other.
  - destruct (5 <=? ScheduledTask.error_count task + 1) eqn:E5.
    + unfold disable_task. simpl. rewrite Hreg. simpl. repeat split; auto.
      * now rewrite !store_update_same, Ht.
      * intros r0 Hne. now rewrite !store_update_other.
    + simpl. repeat split; auto.
      * now rewrite !store_update_same, Ht.
      * intros r0 Hne. now rewrite !store_update_other.
Qed.

Lemma task_after_run_id (now : datetime) (res : outcome pyval)
    (task : Task) :
  ScheduledTask.id (task_after_run now res task) = ScheduledTask.id task /\
  ScheduledTask.function (task_after_run now res task)
  = ScheduledTask.function task.
Proof.
  destruct res as [v|e]; simpl; auto.
  destruct (5 <=? ScheduledTask.error_count task + 1); simpl; auto.
Qed.

Lemma task_after_run_fields (now : datetime) (res : outcome pyval)
    (task : Task) :
  let t := task_after_run now res task in
  ScheduledTask.run_count t = ScheduledTask.run_count task + 1 /\
  ScheduledTask.last_run t = Some now /\
  ScheduledTask.error_count t
  = ScheduledTask.error_count task
    + (match res with Returned _ => 0 | Raised _ => 1 end) /\
  ScheduledTask.enabled t
  = (match res with
     | Returned _ => ScheduledTask.enabled task
     | Raised _ => if 5 <=? ScheduledTask.error_count task + 1
                   then false else ScheduledTask.enabled task
     end) /\
  ScheduledTask.last_error t
  = (match res with
     | Returned _ => None
     | Raised e => Some (str_of_exn e)
     end).
Proof.
  destruct res as [v|e]; simpl.
  - repeat split; lia.
  - destruct (5 <=? ScheduledTask.error_count task + 1); simpl;
      repeat split; lia.
Qed.

(** The accounting after a sequence of executions of a registered task:
    [k] of them failed. *)
Lemma execute_many_accounting
    (runs : list (World * (nat -> tick))) (r : nat) :
  forall (ts : TaskScheduler) (task : Task),
    nth_error (tasks ts) r = Some task ->
    dict_get (ScheduledTask.id task) (scheduled_tasks ts) = Some r ->
    let ts' := execute_many runs r ts in
    let k := Z.of_nat (failures (ScheduledTask.function task) runs
                                (monitoring_system ts)) in
    let tripped := (0 <? k) && (5 <=? ScheduledTask.error_count task + k) in
    exists task',
      nth_error (tasks ts') r = Some task' /\
      ScheduledTask.error_count task' = ScheduledTask.error_count task + k /\
      ScheduledTask.run_count task'
      = ScheduledTask.run_count task + Z.of_nat (List.length runs) /\
      ScheduledTask.enabled task'
      = (if tripped then false else ScheduledTask.enabled task) /\
      (forall d, runs <> [] ->
                 ScheduledTask.last_run task'
                 = Some (datetime_now (snd (last runs d) 0%nat))) /\
      jobs ts' = (if tripped
                  then schedule_clear (ScheduledTask.id task) (jobs ts)
                  else jobs ts) /\
      scheduled_tasks ts' = scheduled_tasks ts.
Proof.
  induction runs as [|[w clk] runs IH]; intros ts task Ht Hreg.
  - simpl. exists task. repeat split; auto; try lia.
    intros d H. now elim H.
  - destruct (_execute_task_registered w clk r ts task Ht Hreg)
      as [Ht1 [_ [Hreg1 [Hms1 Hj1]]]].
    change (execute_many ((w, clk) :: runs) r ts)
      with (execute_many runs r (_execute_task w clk r ts)).
    remember (_execute_task w clk r ts) as ts1 eqn:Ets1.
    destruct (task_after_run_id (datetime_now (clk 0%nat))
                (fst (ScheduledTask.function task w (fun i => clk (S i))
                        (monitoring_system ts))) task) as [Hid Hfun].
    destruct (task_after_run_fields (datetime_now (clk 0%nat))
                (fst (ScheduledTask.function task w (fun i => clk (S i))
                        (monitoring_system ts))) task)
      as [Frc [Flr [Fec [Fen _]]]].
    remember (task_after_run (datetime_now (clk 0%nat))
                (fst (ScheduledTask.function task w (fun i => clk (S i))
                        (monitoring_system ts))) task) as task1 eqn:Etask1.
    assert (Hreg1' : dict_get (ScheduledTask.id task1) (scheduled_tasks ts1)
                     = Some r) by (rewrite Hid, Hreg1; exact Hreg).
    destruct (IH ts1 task1 Ht1 Hreg1')
      as [task' [Ht' [Hec [Hrc [Hen [Hlr [Hjobs Hst]]]]]]].
    clear IH. exists task'.
    rewrite Hfun, Hms1, Hid in *.
    cbn [failures].
    destruct (ScheduledTask.function task w (fun i => clk (S i))
                (monitoring_system ts)) as [[v|e] ms'] eqn:E;
      cbn [fst snd] in *.
    + rewrite Hec, Hrc, Hen, Hjobs, Hst, Frc, Fec, Fen, Hj1, Hreg1.
      rewrite Z.add_0_r.
      repeat split; auto.
      * cbn [List.length]. lia.
      * intros d _. destruct runs as [|run runs'].
        -- simpl in Ht'. rewrite Ht1 in Ht'. injection Ht' as <-.
           exact Flr.
        -- rewrite (Hlr d) by discriminate. reflexivity.
    + set (k' := Z.of_nat (failures (ScheduledTask.function task) runs ms'))
        in *.
      assert (Hk' : 0 <= k') by (unfold k'; lia).
      rewrite Nat2Z.inj_succ. fold k'.
      rewrite Hec, Hrc, Hen, Hjobs, Hst, Frc, Fec, Fen, Hj1, Hreg1.
      assert (Htrip : (0 <? Z.succ k')
                      && (5 <=? ScheduledTask.error_count task + Z.succ k')
                      = (5 <=? ScheduledTask.error_count task + 1 + k')).
      { replace (0 <? Z.succ k') with true
          by (symmetry; apply Z.ltb_lt; lia).
        simpl. f_equal. lia. }
      rewrite Htrip.
      repeat split; auto.
      * lia.
      * cbn [List.length]. lia.
      * destruct (Z.ltb_spec 0 k'),
                 (Z.leb_spec 5 (ScheduledTask.error_count task + 1 + k')),
                 (Z.leb_spec 5 (ScheduledTask.error_count task + 1));
          simpl; try reflexivity; lia.
      * intros d _. destruct runs as [|run runs'].
        -- simpl in Ht'. rewrite Ht1 in Ht'. injection Ht' as <-.
           exact Flr.
        -- rewrite (Hlr d) by discriminate. reflexivity.
      * destruct (Z.ltb_spec 0 k'),
                 (Z.leb_spec 5 (ScheduledTask.error_count task + 1 + k')),
                 (Z.leb_spec 5 (ScheduledTask.error_count task + 1));
          simpl; try reflexivity; try lia.
        apply schedule_clear_idempotent.
Qed.


Lemma failures_always (f : Callable) (runs : list (World * (nat -> tick)))
    (ms : MonitoringSystem) :
  always_fails f -> failures f runs ms = List.length runs.
Proof.
  intros Hf. revert ms.
  induction runs as [|[w clk] runs IH]; intros ms; simpl; auto.
  destruct (Hf w (fun i => clk (S i)) ms) as [e [ms' ->]].
  now rewrite IH.
Qed.

(** Running a task leaves the accounting of every other task alone and
    arms nothing. *)
Lemma _execute_task_other (w : World) (clk : nat -> tick) (r r' : nat)
    (ts : TaskScheduler) :
  r' <> r ->
  option_map run_counters (nth_error (tasks (_execute_task w clk r' ts)) r)
  = option_map run_counters (nth_error (tasks ts) r).
Proof.
  intros Hne. unfold _execute_task.
  destruct (nth_error (tasks ts) r') as [task|]; [|reflexivity].
  destruct (ScheduledTask.function task w (fun i => clk (S i)) _)
    as [[v|e] ms']; simpl.
  - rewrite !store_update_other by congruence. reflexivity.
  - destruct (5 <=? ScheduledTask.error_count task + 1); simpl.
    + unfold disable_task. simpl.
      destruct (dict_get (ScheduledTask.id task) (scheduled_tasks ts));
        simpl.
      * rewrite (store_update_field run_counters) by reflexivity.
        rewrite !store_update_other by congruence. reflexivity.
      * rewrite !store_update_other by congruence. reflexivity.
    + rewrite !store_update_other by congruence. reflexivity.
Qed.

Lemma _execute_task_jobs (w : World) (clk : nat -> tick) (r : nat)
    (ts : TaskScheduler) (j : Job) :
  In j (jobs (_execute_task w clk r ts)) -> In j (jobs ts).
Proof.
  unfold _execute_task.
  destruct (nth_error (tasks ts) r) as [task|]; [|auto].
  destruct (ScheduledTask.function task w (fun i => clk (S i)) _)
    as [[v|e] ms']; simpl; auto.
  destruct (5 <=? ScheduledTask.error_count task + 1); simpl; auto.
  unfold disable_task. simpl.
  destruct (dict_get (ScheduledTask.id task) (scheduled_tasks ts));
    simpl; auto.
  intros H. now apply schedule_clear_incl in H.
Qed.

Lemma run_job_other (w : World) (clk : nat -> tick) (j : Job) (r : nat)
    (ts : TaskScheduler) :
  job_task j <> r ->
  option_map run_counters (nth_error (tasks (run_job w clk j ts)) r)
  = option_map run_counters (nth_error (tasks ts) r) /\
  (forall j', In j' (jobs (run_job w clk j ts)) -> In j' (jobs ts)).
Proof.
  unfold run_job, job_task.
  destruct (job_do j) as [r'|r']; intros Hne.
  - split; [now apply _execute_task_other|].
    intros j'. apply _execute_task_jobs.
  - unfold _check_monthly_task.
    destruct (nth_error (tasks ts) r') as [task|]; [|auto].
    destruct (day (datetime_now (clk 0%nat)) =? 1); [|auto].
    destruct (ScheduledTask.last_run task) as [last|].
    + destruct (negb (month last =? month (datetime_now (clk 0%nat))));
        [|auto].
      split; [now apply _execute_task_other|].
      intros j'. apply _execute_task_jobs.
    + split; [now apply _execute_task_other|].
      intros j'. apply _execute_task_jobs.
Qed.

Lemma run_pending_other (due : list (Job * World * (nat -> tick)))
    (r : nat) (ts : TaskScheduler) :
  (forall d, In d due -> job_task (fst (fst d)) <> r) ->
  option_map run_counters (nth_error (tasks (run_pending due ts)) r)
  = option_map run_counters (nth_error (tasks ts) r) /\
  (forall j, In j (jobs (run_pending due ts)) -> In j (jobs ts)).
Proof.
  revert ts. induction due as [|[[j w] clk] due IH]; intros ts Hdue.
  - simpl. auto.
  - change (run_pending ((j, w, clk) :: due) ts)
      with (run_pending due (run_job w clk j ts)).
    destruct (run_job_other w clk j r ts) as [Hc Hj].
    { apply (Hdue (j, w, clk)). now left. }
    destruct (IH (run_job w clk j ts)) as [Hc' Hj'].
    { intros d Hd. apply Hdue. now right. }
    split; [congruence|auto].
Qed.

(** A task that no armed job is bound to is never run by the scheduler
    loop. *)
Lemma scheduler_loop_unarmed (r : nat) (ts ts' : TaskScheduler) :
  scheduler_loop ts ts' ->
  (forall j, In j (jobs ts) -> job_task j <> r) ->
  option_map run_counters (nth_error (tasks ts') r)
  = option_map run_counters (nth_error (tasks ts) r).
Proof.
  induction 1 as [ts|ts ts' due Hdue Hloop IH]; intros Hjobs; auto.
  destruct (run_pending_other due r ts) as [Hc Hj].
  { intros d Hd. apply Hjobs. now apply Hdue. }
  rewrite IH; auto.
Qed.

(** A registered, enabled task without earlier failures whose callable
    fails on every invocation, executed [n] times: it stays enabled and
    armed through its first four executions; with the fifth failure
    [error_count] reaches 5, the task is disabled and its armed jobs are
    cancelled, and no tick of the scheduler loop that starts afterwards
    runs it. *)
Lemma circuit_breaker_runs (ts : TaskScheduler) (r : nat) (task : Task)
    (runs : list (World * (nat -> tick))) :
  nth_error (tasks ts) r = Some task ->
  dict_get (ScheduledTask.id task) (scheduled_tasks ts) = Some r ->
  always_fails (ScheduledTask.function task) ->
  ScheduledTask.error_count task = 0 ->
  ScheduledTask.enabled task = true ->
  (forall j, In j (jobs ts) -> job_task j = r ->
             job_tag j = ScheduledTask.id task) ->
  let n := Z.of_nat (List.length runs) in
  let ts' := execute_many runs r ts in
  exists task',
    nth_error (tasks ts') r = Some task' /\
    ScheduledTask.error_count task' = n /\
    ScheduledTask.run_count task' = ScheduledTask.run_count task + n /\
    (n < 5 -> ScheduledTask.enabled task' = true /\ jobs ts' = jobs ts) /\
    (5 <= n ->
     ScheduledTask.enabled task' = false /\
     jobs ts' = schedule_clear (ScheduledTask.id task) (jobs ts) /\
     (forall j, In j (jobs ts') -> job_task j <> r) /\
     (forall ts'', scheduler_loop ts' ts'' ->
                   option_map run_counters (nth_error (tasks ts'') r)
                   = Some (run_counters task'))).
Proof.
  intros Ht Hreg Hfail Hec Hen Htags n ts'.
  destruct (execute_many_accounting runs r ts task Ht Hreg)
    as [task' [Ht' [Hec' [Hrc' [Hen' [_ [Hjobs' _]]]]]]].
  rewrite (failures_always _ runs _ Hfail) in *.
  fold n in Hec', Hen', Hjobs'. fold ts' in Ht', Hjobs'.
  rewrite Hec in *. simpl in Hec', Hen', Hjobs'.
  exists task'. repeat split; auto.
  - rewrite Hen'.
    destruct (Z.ltb_spec 0 n), (Z.leb_spec 5 n); simpl; auto; lia.
  - rewrite Hjobs'.
    destruct (Z.ltb_spec 0 n), (Z.leb_spec 5 n); simpl; auto; lia.
  - rewrite Hen'.
    destruct (Z.ltb_spec 0 n), (Z.leb_spec 5 n); simpl; auto; lia.
  - rewrite Hjobs'.
    destruct (Z.ltb_spec 0 n), (Z.leb_spec 5 n); simpl; auto; lia.
  - intros j Hj Hr.
    rewrite Hjobs' in Hj.
    destruct (Z.ltb_spec 0 n), (Z.leb_spec 5 n); simpl in Hj; try lia.
    apply schedule_clear_incl in Hj. destruct Hj as [Hin Htag].
    apply Htag. now apply Htags.
  - intros ts'' Hloop.
    rewrite (scheduler_loop_unarmed r ts' ts'' Hloop).
    + now rewrite Ht'.
    + intros j Hj Hr.
      rewrite Hjobs' in Hj.
      destruct (Z.ltb_spec 0 n), (Z.leb_spec 5 n); simpl in Hj; try lia.
      apply schedule_clear_incl in Hj. destruct Hj as [Hin Htag].
      apply Htag. now apply Htags.
Qed.

(** C10: one execution of a registered task counts as a run and advances
    [last_run] whether the callable returns or raises; a success clears
    [last_error] and leaves [error_count] as it is, a failure adds one to
    it; over any sequence of executions [error_count] grows by the number
    of failures, and once it has reached 5 with a failure the task is
    disabled and its jobs are cancelled, however many successes lie in
    between. *)
Theorem error_count_cumulative (ts : TaskScheduler) (r : nat)
    (task : Task) :
  nth_error (tasks ts) r = Some task ->
  dict_get (ScheduledTask.id task) (scheduled_tasks ts) = Some r ->
  (forall w clk,
      exists task',
        nth_error (tasks (_execute_task w clk r ts)) r = Some task' /\
        ScheduledTask.run_count task' = ScheduledTask.run_count task + 1 /\
        ScheduledTask.last_run task' = Some (datetime_now (clk 0%nat)) /\
        match fst (ScheduledTask.function task w (fun i => clk (S i))
                                           (monitoring_system ts)) with
        | Returned _ =>
            ScheduledTask.error_count task' = ScheduledTask.error_count task /\
            ScheduledTask.last_error task' = None /\
            ScheduledTask.enabled task' = ScheduledTask.enabled task
        | Raised e =>
            ScheduledTask.error_count task'
            = ScheduledTask.error_count task + 1 /\
            ScheduledTask.last_error task' = Some (str_of_exn e) /\
            ScheduledTask.enabled task'
            = (if 5 <=? ScheduledTask.error_count task + 1
               then false else ScheduledTask.enabled task)
        end)
  /\
  (forall runs,
      let k := Z.of_nat (failures (ScheduledTask.function task) runs
                                  (monitoring_system ts)) in
      let ts' := execute_many runs r ts in
      exists task',
        nth_error (tasks ts') r = Some task' /\
        ScheduledTask.error_count task' = ScheduledTask.error_count task + k /\
        ScheduledTask.run_count task'
        = ScheduledTask.run_count task + Z.of_nat (List.length runs) /\
        (forall d, runs <> [] ->
                   ScheduledTask.last_run task'
                   = Some (datetime_now (snd (last runs d) 0%nat))) /\
        (0 < k -> 5 <= ScheduledTask.error_count task + k ->
         ScheduledTask.enabled task' = false /\
         jobs ts' = schedule_clear (ScheduledTask.id task) (jobs ts)) /\
        (ScheduledTask.error_count task + k < 5 ->
         ScheduledTask.enabled task' = ScheduledTask.enabled task /\
         jobs ts' = jobs ts)).
Proof.
  intros Ht Hreg. split.
  - intros w clk.
    destruct (_execute_task_registered w clk r ts task Ht Hreg)
      as [Ht1 _].
    destruct (task_after_run_fields (datetime_now (clk 0%nat))
                (fst (ScheduledTask.function task w (fun i => clk (S i))
                        (monitoring_system ts))) task)
      as [Frc [Flr [Fec [Fen Fle]]]].
    eexists. split; [exact Ht1|].
    split; [exact Frc|]. split; [exact Flr|].
    destruct (fst (ScheduledTask.function task w (fun i => clk (S i))
                     (monitoring_system ts))); repeat split; auto; lia.
  - intros runs k ts'.
    destruct (execute_many_accounting runs r ts task Ht Hreg)
      as [task' [Ht' [Hec' [Hrc' [Hen' [Hlr' [Hjobs' _]]]]]]].
    fold k in Hec', Hen', Hjobs'. fold ts' in Ht', Hjobs'.
    exists task'. repeat split; auto.
    + rewrite Hen'.
      destruct (Z.ltb_spec 0 k),
               (Z.leb_spec 5 (ScheduledTask.error_count task + k));
        simpl; auto; lia.
    + rewrite Hjobs'.
      destruct (Z.ltb_spec 0 k),
               (Z.leb_spec 5 (ScheduledTask.error_count task + k));
        simpl; auto; lia.
    + rewrite Hen'.
      destruct (Z.ltb_spec 0 k),
               (Z.leb_spec 5 (ScheduledTask.error_count task + k));
        simpl; auto; lia.
    + rewrite Hjobs'.
      destruct (Z.ltb_spec 0 k),
               (Z.leb_spec 5 (ScheduledTask.error_count task + k));
        simpl; auto; lia.
Qed.


(** ** Hysteresis with non-zero thresholds *)

Lemma filter_store_update_same {A} (P : A -> bool) (f : A -> A) (r : nat)
    (h : list A) :
  (forall a, nth_error h r = Some a -> P (f a) = P a) ->
  List.length (filter P (store_update r f h)) = List.length (filter P h).
Proof.
  revert r. induction h as [|x h IH]; intros [|r] H; simpl; auto.
  - rewrite (H x eq_refl). destruct (P x); reflexivity.
  - destruct (P x); simpl; rewrite IH; auto.
Qed.

Lemma filter_store_update_flip {A} (P : A -> bool) (f : A -> A) (r : nat)
    (h : list A) (a : A) :
  nth_error h r = Some a -> P a = false -> P (f a) = true ->
  List.length (filter P (store_update r f h))
  = S (List.length (filter P h)).
Proof.
  revert r. induction h as [|x h IH]; intros [|r] Hr Hf Ht; simpl in *;
    try discriminate.
  - injection Hr as ->. now rewrite Hf, Ht.
  - destruct (P x); simpl; rewrite (IH r); auto.
Qed.

Lemma dict_In_get {V} (k : string) (v : V) (d : dict V) :
  NoDup (dict_keys d) -> In (k, v) d -> dict_get k d = Some v.
Proof.
  induction d as [|[k' v'] d IH]; simpl; [intros _ []|].
  intros Hd. inversion Hd as [|? ? Hn Hd']; subst.
  intros [[= -> ->]|Hin].
  - now rewrite String.eqb_refl.
  - destruct (String.eqb k k') eqn:E; auto.
    apply String.eqb_eq in E. subst k'. elim Hn.
    apply (in_map fst) in Hin. exact Hin.
Qed.

Lemma created_after_create (M : string) (now : tick)
    (category metric_name message : string) (cur thr : float)
    (sev : string) (am : AlertManager) :
  let am' := snd (create_alert now category metric_name message cur thr
                               sev am) in
  created M am'
  = (created M am + (if String.eqb metric_name M then 1 else 0))%nat /\
  resolved_count M am' = resolved_count M am.
Proof.
  rewrite create_alert_eq. unfold created, resolved_count. simpl.
  rewrite !filter_app, !length_app. simpl.
  destruct (String.eqb metric_name M); simpl; split; lia.
Qed.

Lemma count_active_after_create (M : string) (now : tick)
    (category metric_name message : string) (cur thr : float)
    (sev : string) (am : AlertManager) :
  AlertManager_ok am ->
  (count_active M
     (snd (create_alert now category metric_name message cur thr sev am))
   <= count_active M am + (if String.eqb metric_name M then 1 else 0))%nat.
Proof.
  intros Hok. rewrite create_alert_eq. unfold count_active. simpl.
  eapply Nat.le_trans.
  - apply (dict_values_set_count (has_metric_name am M)).
    intros r Hr. unfold has_metric_name. simpl.
    rewrite nth_error_app1; [reflexivity|].
    now apply active_address_allocated.
  - unfold has_metric_name at 2. simpl. rewrite nth_error_new. simpl. lia.
Qed.

Lemma count_active_after_resolve (M : string) (now : datetime)
    (alert_id : string) (am : AlertManager) :
  (count_active M (snd (resolve_alert now alert_id am))
   <= count_active M am)%nat.
Proof.
  unfold resolve_alert.
  destruct (dict_get alert_id (active_alerts am)) as [r|]; simpl; auto.
  unfold count_active. simpl.
  rewrite (filter_ext _ _ (has_metric_name_resolve now r am _ _ M)).
  apply dict_values_del_count.
Qed.

(** Resolving an alert of another metric does not touch the alerts of
    [M]. *)
Lemma resolve_alert_other (M m' : string) (now : datetime)
    (alert_id : string) (r' : nat) (am : AlertManager) :
  m' <> M ->
  dict_get alert_id (active_alerts am) = Some r' ->
  has_metric_name am m' r' = true ->
  let am' := snd (resolve_alert now alert_id am) in
  created M am' = created M am /\
  resolved_count M am' = resolved_count M am /\
  (forall k r, dict_get k (active_alerts am) = Some r ->
               has_metric_name am M r = true ->
               dict_get k (active_alerts am') = Some r /\
               nth_error (alerts am') r = nth_error (alerts am) r).
Proof.
  intros Hne Hget Hm'. unfold resolve_alert. rewrite Hget. simpl.
  unfold has_metric_name in Hm'.
  destruct (nth_error (alerts am) r') as [a'|] eqn:Ea'; [|discriminate].
  apply String.eqb_eq in Hm'.
  assert (HM : String.eqb (Alert.metric_name a') M = false).
  { apply String.eqb_neq. congruence. }
  split; [|split].
  - unfold created. simpl. apply filter_store_update_same.
    intros a _. reflexivity.
  - unfold resolved_count. simpl. apply filter_store_update_same.
    intros a Ha. rewrite Ea' in Ha. injection Ha as <-. simpl.
    now rewrite HM.
  - intros k r Hk Hr.
    assert (Hrr : r <> r').
    { intros ->. unfold has_metric_name in Hr. rewrite Ea' in Hr.
      congruence. }
    split.
    + rewrite dict_get_del_other; auto. intros ->. congruence.
    + now apply store_update_other.
Qed.

Lemma resolve_all_other (M m' : string) (clk : nat -> tick)
    (ids : list string) :
  m' <> M ->
  forall (n : nat) (am : AlertManager),
    (forall alert_id r, In alert_id ids ->
                        dict_get alert_id (active_alerts am) = Some r ->
                        has_metric_name am m' r = true) ->
    let am' := snd (resolve_all clk ids (n, am)) in
    created M am' = created M am /\
    resolved_count M am' = resolved_count M am /\
    (forall k r, dict_get k (active_alerts am) = Some r ->
                 has_metric_name am M r = true ->
                 dict_get k (active_alerts am') = Some r /\
                 nth_error (alerts am') r = nth_error (alerts am) r).
Proof.
  intros Hne. induction ids as [|i ids IH]; intros n am HQ.
  - simpl. repeat split; auto.
  - cbn [resolve_all].
    destruct (dict_get i (active_alerts am)) as [r'|] eqn:Hget.
    + pose proof (HQ i r' (or_introl eq_refl) Hget) as Hm'.
      destruct (resolve_alert_other M m' (datetime_now (clk n)) i r' am
                  Hne Hget Hm') as [Hc [Hr Hk]].
      assert (HQ' : forall alert_id r, In alert_id ids ->
                dict_get alert_id
                  (active_alerts
                     (snd (resolve_alert (datetime_now (clk n)) i am)))
                = Some r ->
                has_metric_name
                  (snd (resolve_alert (datetime_now (clk n)) i am)) m' r
                = true).
      { intros j r Hj. unfold resolve_alert. rewrite Hget. simpl.
        rewrite has_metric_name_resolve. intros Hgj.
        destruct (String.eqb j i) eqn:Eji.
        - apply String.eqb_eq in Eji. subst j.
          now rewrite dict_get_del_same in Hgj.
        - apply String.eqb_neq in Eji.
          rewrite dict_get_del_other in Hgj by exact Eji.
          apply (HQ j r); [now right|exact Hgj]. }
      destruct (resolve_alert (datetime_now (clk n)) i am)
        as [done am1] eqn:E1. simpl in *.
      destruct (IH (if done then S n else n) am1 HQ') as [Hc' [Hr' Hk']].
      split; [congruence|]. split; [congruence|].
      intros k r Hkr HMr.
      destruct (Hk k r Hkr HMr) as [Hk1 Hn1].
      assert (HMr1 : has_metric_name am1 M r = true).
      { unfold resolve_alert in E1. rewrite Hget in E1.
        injection E1 as _ <-. now rewrite has_metric_name_resolve. }
      destruct (Hk' k r Hk1 HMr1) as [Hk2 Hn2].
      split; [exact Hk2|congruence].
    + assert (E1 : resolve_alert (datetime_now (clk n)) i am = (false, am)).
      { unfold resolve_alert. now rewrite Hget. }
      rewrite E1. apply IH. intros j r Hj. apply (HQ j r). now right.
Qed.

(** The ids collected for a metric refer to alerts of that metric. *)
Lemma alerts_to_resolve_metric (m' : string) (am : AlertManager) :
  NoDup (dict_keys (active_alerts am)) ->
  forall alert_id r,
    In alert_id (alerts_to_resolve m' am) ->
    dict_get alert_id (active_alerts am) = Some r ->
    has_metric_name am m' r = true.
Proof.
  intros Hnd alert_id r Hin Hget. unfold alerts_to_resolve, dict_keys in Hin.
  apply in_map_iff in Hin. destruct Hin as [[k r'] [Hk Hf]].
  simpl in Hk. subst k. apply filter_In in Hf. destruct Hf as [Hin Hm].
  simpl in Hm. rewrite (dict_In_get _ _ _ Hnd Hin) in Hget.
  now injection Hget as <-.
Qed.


Lemma _determine_severity_returns (cur thr : float) :
  PrimFloat.eqb thr 0 = false ->
  exists sev, _determine_severity cur thr = Returned sev.
Proof.
  intros H. unfold _determine_severity. rewrite H.
  destruct (PrimFloat.leb 2 (cur / thr)); [eauto|].
  destruct (PrimFloat.leb 1.5 (cur / thr)); [eauto|].
  destruct (PrimFloat.leb 0x1.3333333333333p+0 (cur / thr)); eauto.
Qed.

Lemma count_active_after_resolve_all (M : string) (clk : nat -> tick)
    (ids : list string) (n : nat) (am : AlertManager) :
  (count_active M (snd (resolve_all clk ids (n, am)))
   <= count_active M am)%nat.
Proof.
  revert n am. induction ids as [|i ids IH]; intros n am; simpl; auto.
  pose proof (count_active_after_resolve M (datetime_now (clk n)) i am)
    as H.
  destruct (resolve_alert (datetime_now (clk n)) i am) as [done am1].
  simpl in H. eapply Nat.le_trans; [apply IH|exact H].
Qed.

Lemma has_metric_name_allocated (am : AlertManager) (M : string) (r : nat) :
  has_metric_name am M r = true -> (r < List.length (alerts am))%nat.
Proof.
  unfold has_metric_name. intros H. apply nth_error_Some.
  destruct (nth_error (alerts am) r); congruence.
Qed.

(** The iteration for another metric leaves the alerts of [M] alone: none
    is created or resolved, and an active entry of [M] stays where it is
    unless the new alert takes its id. *)
Lemma check_metric_other (M : string) (clk : nat -> tick) (m : metrics)
    (thresholds : dict float) (m' d' c' : string) (n : nat)
    (am : AlertManager) :
  m' <> M ->
  (forall name t, dict_get name thresholds = Some t ->
                  PrimFloat.eqb t 0 = false) ->
  AlertManager_ok am ->
  let res := check_metric clk m thresholds (m', d', c') (n, am) in
  let am' := snd (snd res) in
  fst res = Returned tt /\
  created M am' = created M am /\
  resolved_count M am' = resolved_count M am /\
  (count_active M am' <= count_active M am)%nat /\
  (forall k r, dict_get k (active_alerts am) = Some r ->
               has_metric_name am M r = true ->
               (forall t, make_alert_id c' m' t <> k) ->
               dict_get k (active_alerts am') = Some r /\
               nth_error (alerts am') r = nth_error (alerts am) r).
Proof.
  intros Hne Hnz Hok. unfold check_metric.
  destruct (dict_get m' (metrics_values m)) as [cur|];
    [|simpl; repeat split; auto].
  destruct (dict_get m' thresholds) as [thr|] eqn:Hthr;
    [|simpl; repeat split; auto].
  destruct (PrimFloat.ltb thr cur).
  - destruct (existing_alert m' am); [simpl; repeat split; auto|].
    destruct (_determine_severity_returns cur thr (Hnz _ _ Hthr))
      as [sev ->].
    set (msg := (d' ++ " excede el umbral: " ++ format_2f cur ++ " > "
                    ++ format_2f thr)%string).
    pose proof (created_after_create M (clk n) c' m' msg cur thr sev am)
      as Hc.
    pose proof (count_active_after_create M (clk n) c' m' msg cur thr sev
                  am Hok) as Hcnt.
    assert (E : String.eqb m' M = false) by now apply String.eqb_neq.
    rewrite E in Hc, Hcnt.
    rewrite create_alert_eq in *. simpl in *.
    destruct Hc as [Hc1 Hc2].
    split; [reflexivity|]. split; [lia|]. split; [exact Hc2|].
    split; [lia|].
    intros k r Hk Hr Hkey. split.
    + rewrite dict_get_set_other; [exact Hk|].
      intros ->. now apply (Hkey (time_time (clk n))).
    + apply nth_error_app1. now apply has_metric_name_allocated in Hr.
  - cbn [fst snd].
    destruct (resolve_all_other M m' clk (alerts_to_resolve m' am) Hne n am)
      as [Hc [Hr Hk]].
    { intros i r. apply alerts_to_resolve_metric. apply Hok. }
    split; [reflexivity|]. split; [exact Hc|]. split; [exact Hr|].
    split; [apply count_active_after_resolve_all|].
    intros k r Hkr HMr _. now apply Hk.
Qed.

(** The same for a stretch of the loop that does not contain [M]. *)
Lemma check_loop_other (M : string) (clk : nat -> tick) (m : metrics)
    (thresholds : dict float) (cs : list (string * string * string)) :
  Forall (fun chk => fst (fst chk) <> M) cs ->
  (forall name t, dict_get name thresholds = Some t ->
                  PrimFloat.eqb t 0 = false) ->
  forall (n : nat) (am : AlertManager),
    dedup_invariant am ->
    let res := check_loop clk m thresholds cs (n, am) in
    let am' := snd (snd res) in
    fst res = Returned tt /\
    dedup_invariant am' /\
    created M am' = created M am /\
    resolved_count M am' = resolved_count M am /\
    (count_active M am' <= count_active M am)%nat /\
    (forall k r, dict_get k (active_alerts am) = Some r ->
                 has_metric_name am M r = true ->
                 Forall (fun chk => forall t,
                           make_alert_id (snd chk) (fst (fst chk)) t <> k)
                        cs ->
                 dict_get k (active_alerts am') = Some r /\
                 nth_error (alerts am') r = nth_error (alerts am) r).
Proof.
  intros Hcs Hnz. induction Hcs as [|[[m' d'] c'] cs Hm' Hcs IH];
    intros n am Hinv.
  - simpl. repeat split; auto; apply Hinv.
  - cbn [check_loop]. simpl in Hm'.
    destruct (check_metric_other M clk m thresholds m' d' c' n am Hm' Hnz
                (proj1 Hinv)) as [Hres [Hc [Hr [Hcnt Hk]]]].
    pose proof (dedup_invariant_check_metric clk m thresholds (m', d', c')
                  n am Hinv) as Hinv1.
    destruct (check_metric clk m thresholds (m', d', c') (n, am))
      as [[u|e] [n1 am1]]; simpl in *; [|discriminate].
    destruct (IH n1 am1 Hinv1) as [Hres' [Hinv' [Hc' [Hr' [Hcnt' Hk']]]]].
    split; [exact Hres'|]. split; [exact Hinv'|].
    split; [congruence|]. split; [congruence|]. split; [lia|].
    intros k r Hkr HMr Hkeys.
    inversion Hkeys as [|? ? Hkey Hkeys']; subst.
    destruct (Hk k r Hkr HMr Hkey) as [Hk1 Hn1].
    assert (HMr1 : has_metric_name am1 M r = true).
    { unfold has_metric_name in *. now rewrite Hn1. }
    destruct (Hk' k r Hk1 HMr1 Hkeys') as [Hk2 Hn2].
    split; [exact Hk2|congruence].
Qed.


Lemma check_loop_app (clk : nat -> tick) (m : metrics)
    (thresholds : dict float) (l1 l2 : list (string * string * string))
    (st : nat * AlertManager) :
  check_loop clk m thresholds (l1 ++ l2) st
  = match check_loop clk m thresholds l1 st with
    | (Returned _, st') => check_loop clk m thresholds l2 st'
    | (Raised e, st') => (Raised e, st')
    end.
Proof.
  revert st. induction l1 as [|chk l1 IH]; intros st; simpl; auto.
  destruct (check_metric clk m thresholds chk st) as [[u|e] st']; auto.
Qed.

Lemma filter_singleton {A} (P : A -> bool) (x : A) (l : list A) :
  In x l -> P x = true -> (List.length (filter P l) <= 1)%nat ->
  filter P l = [x].
Proof.
  intros Hin Hp Hlen.
  assert (Hx : In x (filter P l)) by (apply filter_In; auto).
  destruct (filter P l) as [|y [|z l']]; simpl in *.
  - elim Hx.
  - destruct Hx as [->|[]]. reflexivity.
  - lia.
Qed.

Lemma filter_values_length {V} (P : V -> bool) (d : dict V) :
  List.length (filter (fun kv => P (snd kv)) d)
  = List.length (filter P (dict_values d)).
Proof.
  induction d as [|[k v] d IH]; simpl; auto.
  destruct (P v); simpl; now rewrite IH.
Qed.

Lemma dict_values_del_count_present {V} (P : V -> bool) (k : string)
    (r : V) (d : dict V) :
  dict_get k d = Some r -> P r = true ->
  (List.length (filter P (dict_values (dict_del k d)))
   < List.length (filter P (dict_values d)))%nat.
Proof.
  induction d as [|[k' v'] d IH]; simpl; [discriminate|].
  destruct (String.eqb k k').
  - intros [= ->] Hp. rewrite Hp. simpl.
    pose proof (dict_values_del_count P k d). lia.
  - intros Hg Hp. specialize (IH Hg Hp). simpl.
    destruct (P v'); simpl; lia.
Qed.

Lemma active_under_existing (M alert_id : string) (r : nat)
    (am : AlertManager) :
  active_under M alert_id r am ->
  exists r', existing_alert M am = Some r'.
Proof.
  intros [Hget Hm]. unfold existing_alert.
  destruct (find (has_metric_name am M) (dict_values (active_alerts am)))
    as [r'|] eqn:E; [eauto|].
  apply dict_get_In in Hget. apply (in_map snd) in Hget. simpl in Hget.
  pose proof (find_none _ _ E r Hget) as H. congruence.
Qed.

(** The iteration for [M] on a breach without an active alert. *)
Lemma check_metric_breach_new (M d c : string) (clk : nat -> tick)
    (m : metrics) (thresholds : dict float) (cur thr : float) (n : nat)
    (am : AlertManager) :
  dict_get M (metrics_values m) = Some cur ->
  dict_get M thresholds = Some thr ->
  PrimFloat.ltb thr cur = true ->
  PrimFloat.eqb thr 0 = false ->
  existing_alert M am = None ->
  let res := check_metric clk m thresholds (M, d, c) (n, am) in
  let am' := snd (snd res) in
  fst res = Returned tt /\
  created M am' = S (created M am) /\
  resolved_count M am' = resolved_count M am /\
  active_under M (make_alert_id c M (time_time (clk n)))
               (List.length (alerts am)) am'.
Proof.
  intros Hc Ht Hlt Hnz Hnone. unfold check_metric.
  rewrite Hc, Ht, Hlt, Hnone.
  destruct (_determine_severity_returns cur thr Hnz) as [sev ->].
  set (msg := (d ++ " excede el umbral: " ++ format_2f cur ++ " > "
                 ++ format_2f thr)%string).
  pose proof (created_after_create M (clk n) c M msg cur thr sev am) as H.
  rewrite String.eqb_refl in H.
  rewrite create_alert_eq in *. simpl in *. destruct H as [H1 H2].
  split; [reflexivity|]. split; [lia|]. split; [exact H2|].
  split; simpl.
  - apply dict_get_set_same.
  - unfold has_metric_name. simpl. rewrite nth_error_new. simpl.
    apply String.eqb_refl.
Qed.

(** The iteration for [M] once the metric is back under its threshold,
    with its alert active. *)
Lemma check_metric_recovered (M d c : string) (clk : nat -> tick)
    (m : metrics) (thresholds : dict float) (cur thr : float) (n : nat)
    (am : AlertManager) (alert_id : string) (r : nat) :
  dict_get M (metrics_values m) = Some cur ->
  dict_get M thresholds = Some thr ->
  PrimFloat.ltb thr cur = false ->
  dedup_invariant am ->
  active_under M alert_id r am ->
  let res := check_metric clk m thresholds (M, d, c) (n, am) in
  let am' := snd (snd res) in
  fst res = Returned tt /\
  created M am' = created M am /\
  resolved_count M am' = S (resolved_count M am) /\
  count_active M am' = 0%nat.
Proof.
  intros Hc Ht Hlt [Hok Hcount] [Hget Hm]. unfold check_metric.
  rewrite Hc, Ht, Hlt. cbn [fst snd].
  assert (Hids : alerts_to_resolve M am = [alert_id]).
  { unfold alerts_to_resolve.
    rewrite (filter_singleton _ (alert_id, r)); [reflexivity| | |].
    - now apply dict_get_In.
    - exact Hm.
    - rewrite filter_values_length. apply Hcount. }
  rewrite Hids. cbn [resolve_all].
  pose proof (count_active_after_resolve M (datetime_now (clk n))
                alert_id am) as Hle.
  unfold resolve_alert in *. rewrite Hget in *. cbn [fst snd] in *.
  unfold has_metric_name in Hm.
  destruct (nth_error (alerts am) r) as [a|] eqn:Ea; [|discriminate].
  destruct Hok as [Hall _].
  assert (Hin : In r (dict_values (active_alerts am))).
  { apply dict_get_In in Hget. apply (in_map snd) in Hget. exact Hget. }
  destruct (proj1 (Forall_forall _ _) Hall r Hin) as [a' [Ea' Hres]].
  rewrite Ea in Ea'. injection Ea' as <-.
  split; [reflexivity|]. split; [|split].
  - unfold created. simpl. apply filter_store_update_same.
    intros x _. reflexivity.
  - unfold resolved_count. simpl.
    apply (filter_store_update_flip _ _ _ _ a Ea).
    + now rewrite Hres, andb_false_r.
    + simpl. now rewrite Hm.
  - assert (Hlt' : (count_active M
                      (mk_AlertManager
                         (store_update r
                            (Alert.resolve (datetime_now (clk n)))
                            (alerts am))
                         (dict_del alert_id (active_alerts am))
                         (alert_history am))
                    < count_active M am)%nat).
    { unfold count_active. simpl.
      rewrite (filter_ext _ _
                 (has_metric_name_resolve (datetime_now (clk n)) r am
                    _ _ M)).
      apply (dict_values_del_count_present _ _ r); auto.
      unfold has_metric_name. now rewrite Ea. }
    specialize (Hcount M). lia.
Qed.


Lemma count_zero_existing_none (M : string) (am : AlertManager) :
  count_active M am = 0%nat -> existing_alert M am = None.
Proof.
  unfold count_active, existing_alert.
  induction (dict_values (active_alerts am)) as [|r l IH]; simpl; auto.
  destruct (has_metric_name am M r); simpl; [discriminate|auto].
Qed.

Lemma active_under_count (M alert_id : string) (r : nat)
    (am : AlertManager) :
  dedup_invariant am -> active_under M alert_id r am ->
  count_active M am = 1%nat.
Proof.
  intros [_ Hcount] [Hget Hm]. specialize (Hcount M).
  apply dict_get_In in Hget. apply (in_map snd) in Hget. simpl in Hget.
  unfold count_active in *.
  assert (Hin : In r (filter (has_metric_name am M)
                             (dict_values (active_alerts am))))
    by (apply filter_In; auto).
  destruct (filter (has_metric_name am M) (dict_values (active_alerts am)));
    simpl in *; [elim Hin|lia].
Qed.

(** The loop around the iteration for [M]: [before] and [after] are the
    tracked metrics on either side of it. *)
Section AroundMetric.

Variables (M d c : string).
Variables (before after : list (string * string * string)).
Variable thresholds : dict float.

Hypothesis before_other : Forall (fun chk => fst (fst chk) <> M) before.
Hypothesis after_other : Forall (fun chk => fst (fst chk) <> M) after.
Hypothesis before_ids :
  forall t', Forall (fun chk => forall t,
                       make_alert_id (snd chk) (fst (fst chk)) t
                       <> make_alert_id c M t') before.
Hypothesis after_ids :
  forall t', Forall (fun chk => forall t,
                       make_alert_id (snd chk) (fst (fst chk)) t
                       <> make_alert_id c M t') after.
Hypothesis thresholds_nonzero :
  forall name t, dict_get name thresholds = Some t ->
                 PrimFloat.eqb t 0 = false.

Variables (clk : nat -> tick) (m : metrics) (cur thr : float).
Hypothesis sample : dict_get M (metrics_values m) = Some cur.
Hypothesis threshold : dict_get M thresholds = Some thr.

Lemma pass_breach_new (n : nat) (am : AlertManager) :
  PrimFloat.ltb thr cur = true ->
  dedup_invariant am ->
  existing_alert M am = None ->
  let res := check_loop clk m thresholds (before ++ (M, d, c) :: after)
                        (n, am) in
  let am' := snd (snd res) in
  fst res = Returned tt /\
  dedup_invariant am' /\
  created M am' = S (created M am) /\
  resolved_count M am' = resolved_count M am /\
  exists t r, active_under M (make_alert_id c M t) r am'.
Proof.
  intros Hlt Hinv Hnone. rewrite check_loop_app.
  destruct (check_loop_other M clk m thresholds before before_other
              thresholds_nonzero n am Hinv)
    as [Hres [Hinv1 [Hc1 [Hr1 [Hcnt1 _]]]]].
  destruct (check_loop clk m thresholds before (n, am))
    as [[u|e] [n1 am1]]; cbn [fst snd] in *; [|discriminate].
  cbn [check_loop].
  assert (Hnone1 : existing_alert M am1 = None).
  { apply count_zero_existing_none.
    rewrite (existing_alert_none_count M am Hnone) in Hcnt1. lia. }
  destruct (check_metric_breach_new M d c clk m thresholds cur thr n1 am1
              sample threshold Hlt (thresholds_nonzero _ _ threshold)
              Hnone1) as [Hres2 [Hc2 [Hr2 Hact2]]].
  pose proof (dedup_invariant_check_metric clk m thresholds (M, d, c)
                n1 am1 Hinv1) as Hinv2.
  destruct (check_metric clk m thresholds (M, d, c) (n1, am1))
    as [[u2|e2] [n2 am2]]; cbn [fst snd] in *; [|discriminate].
  destruct (check_loop_other M clk m thresholds after after_other
              thresholds_nonzero n2 am2 Hinv2)
    as [Hres3 [Hinv3 [Hc3 [Hr3 [_ Hk3]]]]].
  destruct Hact2 as [Hget2 Hm2].
  destruct (Hk3 _ _ Hget2 Hm2 (after_ids _)) as [Hget3 Hn3].
  split; [exact Hres3|]. split; [exact Hinv3|].
  split; [congruence|]. split; [congruence|].
  exists (time_time (clk n1)), (List.length (alerts am1)).
  split; [exact Hget3|]. unfold has_metric_name in *. now rewrite Hn3.
Qed.

Lemma pass_breach_again (n : nat) (am : AlertManager) (t : Z) (r : nat) :
  PrimFloat.ltb thr cur = true ->
  dedup_invariant am ->
  active_under M (make_alert_id c M t) r am ->
  let res := check_loop clk m thresholds (before ++ (M, d, c) :: after)
                        (n, am) in
  let am' := snd (snd res) in
  fst res = Returned tt /\
  dedup_invariant am' /\
  created M am' = created M am /\
  resolved_count M am' = resolved_count M am /\
  active_under M (make_alert_id c M t) r am'.
Proof.
  intros Hlt Hinv [Hget Hm]. rewrite check_loop_app.
  destruct (check_loop_other M clk m thresholds before before_other
              thresholds_nonzero n am Hinv)
    as [Hres [Hinv1 [Hc1 [Hr1 [_ Hk1]]]]].
  destruct (Hk1 _ _ Hget Hm (before_ids _)) as [Hget1 Hn1].
  destruct (check_loop clk m thresholds before (n, am))
    as [[u|e] [n1 am1]]; cbn [fst snd] in *; [|discriminate].
  cbn [check_loop].
  assert (Hm1 : has_metric_name am1 M r = true)
    by (unfold has_metric_name in *; now rewrite Hn1).
  destruct (active_under_existing M _ r am1 (conj Hget1 Hm1)) as [r' He].
  rewrite (check_metric_existing clk m thresholds M d c cur thr r' n1 am1
             sample threshold Hlt He).
  destruct (check_loop_other M clk m thresholds after after_other
              thresholds_nonzero n1 am1 Hinv1)
    as [Hres3 [Hinv3 [Hc3 [Hr3 [_ Hk3]]]]].
  destruct (Hk3 _ _ Hget1 Hm1 (after_ids _)) as [Hget3 Hn3].
  split; [exact Hres3|]. split; [exact Hinv3|].
  split; [congruence|]. split; [congruence|].
  split; [exact Hget3|]. unfold has_metric_name in *. now rewrite Hn3.
Qed.

Lemma pass_recovered (n : nat) (am : AlertManager) (t : Z) (r : nat) :
  PrimFloat.ltb thr cur = false ->
  dedup_invariant am ->
  active_under M (make_alert_id c M t) r am ->
  let res := check_loop clk m thresholds (before ++ (M, d, c) :: after)
                        (n, am) in
  let am' := snd (snd res) in
  fst res = Returned tt /\
  dedup_invariant am' /\
  created M am' = created M am /\
  resolved_count M am' = S (resolved_count M am) /\
  count_active M am' = 0%nat.
Proof.
  intros Hlt Hinv [Hget Hm]. rewrite check_loop_app.
  destruct (check_loop_other M clk m thresholds before before_other
              thresholds_nonzero n am Hinv)
    as [Hres [Hinv1 [Hc1 [Hr1 [_ Hk1]]]]].
  destruct (Hk1 _ _ Hget Hm (before_ids _)) as [Hget1 Hn1].
  destruct (check_loop clk m thresholds before (n, am))
    as [[u|e] [n1 am1]]; cbn [fst snd] in *; [|discriminate].
  cbn [check_loop].
  assert (Hm1 : has_metric_name am1 M r = true)
    by (unfold has_metric_name in *; now rewrite Hn1).
  destruct (check_metric_recovered M d c clk m thresholds cur thr n1 am1
              _ r sample threshold Hlt Hinv1 (conj Hget1 Hm1))
    as [Hres2 [Hc2 [Hr2 Hcnt2]]].
  pose proof (dedup_invariant_check_metric clk m thresholds (M, d, c)
                n1 am1 Hinv1) as Hinv2.
  destruct (check_metric clk m thresholds (M, d, c) (n1, am1))
    as [[u2|e2] [n2 am2]]; cbn [fst snd] in *; [|discriminate].
  destruct (check_loop_other M clk m thresholds after after_other
              thresholds_nonzero n2 am2 Hinv2)
    as [Hres3 [Hinv3 [Hc3 [Hr3 [Hcnt3 _]]]]].
  split; [exact Hres3|]. split; [exact Hinv3|].
  split; [congruence|]. split; [congruence|]. lia.
Qed.

End AroundMetric.

(** Where a tracked metric sits in [checks]; the ids built for the other
    tracked metrics differ from its ids. *)
Lemma tracked_split (M d c : string) :
  In (M, d, c) checks ->
  exists before after,
    checks = before ++ (M, d, c) :: after /\
    Forall (fun chk => fst (fst chk) <> M) before /\
    Forall (fun chk => fst (fst chk) <> M) after /\
    (forall t', Forall (fun chk => forall t,
                          make_alert_id (snd chk) (fst (fst chk)) t
                          <> make_alert_id c M t') before) /\
    (forall t', Forall (fun chk => forall t,
                          make_alert_id (snd chk) (fst (fst chk)) t
                          <> make_alert_id c M t') after).
Proof.
  unfold checks. intros H.
  repeat (destruct H as [H|H];
          [injection H as <- <- <-;
           match goal with
           | |- exists before after,
                  ?l = _ ++ (?x :: _) /\ _ =>
               let rec go pre l :=
                 lazymatch l with
                 | x :: ?post => exists (rev pre), post
                 | ?y :: ?post => go (y :: pre) post
                 end in
               go (@nil (string * string * string)) l
           end;
           simpl;
           (split; [reflexivity|]);
           repeat split; intros;
           repeat constructor; simpl; unfold make_alert_id; simpl;
           intros; discriminate
          |]).
  elim H.
Qed.


Lemma _check_thresholds_loop (clk : nat -> tick) (thresholds : dict float)
    (m : metrics) (am : AlertManager) :
  fst (_check_thresholds clk thresholds m am)
  = fst (check_loop clk m thresholds checks (0%nat, am)) /\
  snd (_check_thresholds clk thresholds m am)
  = snd (snd (check_loop clk m thresholds checks (0%nat, am))).
Proof.
  unfold _check_thresholds.
  destruct (check_loop clk m thresholds checks (0%nat, am))
    as [res [n am']]. split; reflexivity.
Qed.

(** Hysteresis when no threshold is zero: for a tracked metric [M]
    without an active alert, a sample above its threshold, a second one
    above it and a third one not above it make the evaluation create one
    alert for [M] at the first sample, do nothing for [M] at the second,
    and resolve that alert at the third. *)
Theorem hysteresis_nonzero_thresholds (thresholds : dict float)
    (M d c : string) (T v1 v2 v3 : float) (m1 m2 m3 : metrics)
    (clk1 clk2 clk3 : nat -> tick) (am : AlertManager) :
  In (M, d, c) checks ->
  (forall name t, dict_get name thresholds = Some t ->
                  PrimFloat.eqb t 0 = false) ->
  dict_get M thresholds = Some T ->
  dict_get M (metrics_values m1) = Some v1 ->
  dict_get M (metrics_values m2) = Some v2 ->
  dict_get M (metrics_values m3) = Some v3 ->
  PrimFloat.ltb T v1 = true ->
  PrimFloat.ltb T v2 = true ->
  PrimFloat.ltb T v3 = false ->
  dedup_invariant am ->
  existing_alert M am = None ->
  let p1 := _check_thresholds clk1 thresholds m1 am in
  let p2 := _check_thresholds clk2 thresholds m2 (snd p1) in
  let p3 := _check_thresholds clk3 thresholds m3 (snd p2) in
  (fst p1 = Returned tt /\
   created M (snd p1) = S (created M am) /\
   resolved_count M (snd p1) = resolved_count M am /\
   count_active M (snd p1) = 1%nat) /\
  (fst p2 = Returned tt /\
   created M (snd p2) = created M (snd p1) /\
   resolved_count M (snd p2) = resolved_count M (snd p1) /\
   count_active M (snd p2) = 1%nat) /\
  (fst p3 = Returned tt /\
   created M (snd p3) = created M (snd p2) /\
   resolved_count M (snd p3) = S (resolved_count M (snd p2)) /\
   count_active M (snd p3) = 0%nat).
Proof.
  intros Hin Hnz HT Hv1 Hv2 Hv3 Hb1 Hb2 Hb3 Hinv Hnone p1 p2 p3.
  destruct (tracked_split M d c Hin)
    as [before [after [Hsplit [Hbo [Hao [Hbi Hai]]]]]].
  destruct (_check_thresholds_loop clk1 thresholds m1 am) as [F1 S1].
  fold p1 in F1, S1. rewrite Hsplit in F1, S1.
  destruct (pass_breach_new M d c before after thresholds Hbo Hao Hai Hnz
              clk1 m1 v1 T Hv1 HT 0%nat am Hb1 Hinv Hnone)
    as [R1 [I1 [C1 [Z1 [t [r A1]]]]]].
  rewrite <- F1 in R1. rewrite <- S1 in I1, C1, Z1, A1.
  destruct (_check_thresholds_loop clk2 thresholds m2 (snd p1)) as [F2 S2].
  fold p2 in F2, S2. rewrite Hsplit in F2, S2.
  destruct (pass_breach_again M d c before after thresholds Hbo Hao Hbi Hai
              Hnz clk2 m2 v2 T Hv2 HT 0%nat (snd p1) t r Hb2 I1 A1)
    as [R2 [I2 [C2 [Z2 A2]]]].
  rewrite <- F2 in R2. rewrite <- S2 in I2, C2, Z2, A2.
  destruct (_check_thresholds_loop clk3 thresholds m3 (snd p2)) as [F3 S3].
  fold p3 in F3, S3. rewrite Hsplit in F3, S3.
  destruct (pass_recovered M d c before after thresholds Hbo Hao Hbi Hnz
              clk3 m3 v3 T Hv3 HT 0%nat (snd p2) t r Hb3 I2 A2)
    as [R3 [I3 [C3 [Z3 N3]]]].
  rewrite <- F3 in R3. rewrite <- S3 in I3, C3, Z3, N3.
  pose proof (active_under_count M _ r (snd p1) I1 A1) as N1.
  pose proof (active_under_count M _ r (snd p2) I2 A2) as N2.
  repeat split; assumption.
Qed.


(* ================================================================= *)
(** * Further properties *)

(** ** The alert manager under arbitrary use *)

Lemma dict_set_In {V} (k k0 : string) (v v0 : V) (d : dict V) :
  In (k0, v0) (dict_set k v d) -> (k0, v0) = (k, v) \/ In (k0, v0) d.
Proof.
  induction d as [|[k' v'] d IH]; simpl.
  - intros [H|[]]; auto.
  - destruct (String.eqb k k') eqn:E; simpl; intros [H|H]; auto.
    + apply String.eqb_eq in E. subst k'. left. congruence.
    + destruct (IH H); auto.
Qed.

Lemma dict_del_In {V} (k k0 : string) (v0 : V) (d : dict V) :
  In (k0, v0) (dict_del k d) -> In (k0, v0) d /\ k0 <> k.
Proof.
  induction d as [|[k' v'] d IH]; simpl; [intros []|].
  destruct (String.eqb k k') eqn:E; simpl.
  - intros H. destruct (IH H). auto.
  - intros [[= -> ->]|H].
    + split; auto. intros ->. now rewrite String.eqb_refl in E.
    + destruct (IH H). auto.
Qed.

(** X1: resolving an id a second time returns False and changes nothing:
    [resolve_alert] is idempotent. *)
Theorem resolve_alert_idempotent (now1 now2 : datetime) (alert_id : string)
    (am : AlertManager) :
  resolve_alert now2 alert_id (snd (resolve_alert now1 alert_id am))
  = (false, snd (resolve_alert now1 alert_id am)).
Proof.
  unfold resolve_alert at 1.
  assert (H : dict_get alert_id
                (active_alerts (snd (resolve_alert now1 alert_id am)))
              = None).
  { unfold resolve_alert.
    destruct (dict_get alert_id (active_alerts am)) eqn:E; simpl; auto.
    apply dict_get_del_same. }
  now rewrite H.
Qed.

(** X2: creating an alert under an id that is not active and resolving
    that id gives back the active set as it was; the alert stays in the
    store and in the history, marked as resolved. *)
Theorem create_then_resolve (now : tick) (later : datetime)
    (category metric_name message : string) (cur thr : float)
    (sev : string) (am : AlertManager) :
  let alert_id := make_alert_id category metric_name (time_time now) in
  let created := create_alert now category metric_name message cur thr
                              sev am in
  let res := resolve_alert later alert_id (snd created) in
  dict_mem alert_id (active_alerts am) = false ->
  fst res = true /\
  active_alerts (snd res) = active_alerts am /\
  alert_history (snd res) = alert_history am ++ [fst created] /\
  alerts (snd res)
  = alerts am ++
    [Alert.mk alert_id (datetime_now now) sev category message metric_name
              cur thr true (Some later)].
Proof.
  intros alert_id created res Hfresh. subst res created.
  rewrite create_alert_eq. fold alert_id. unfold resolve_alert. simpl.
  rewrite dict_get_set_same. simpl.
  assert (Hnone : dict_get alert_id (active_alerts am) = None).
  { unfold dict_mem in Hfresh.
    destruct (dict_get alert_id (active_alerts am)); [discriminate|auto]. }
  split; [reflexivity|]. split; [|split; [reflexivity|]].
  - rewrite (dict_set_fresh _ _ _ Hnone).
    clear Hfresh. induction (active_alerts am) as [|[k v] d IH]; simpl.
    + now rewrite String.eqb_refl.
    + simpl in Hnone. destruct (String.eqb alert_id k); [discriminate|].
      now rewrite IH.
  - clear. induction (alerts am) as [|a l IH]; simpl; auto.
    now rewrite IH.
Qed.

Lemma manager_invariant (am : AlertManager) :
  manager_reachable am ->
  alert_history am = seq 0 (List.length (alerts am)) /\
  (forall k r, In (k, r) (active_alerts am) ->
               exists a, nth_error (alerts am) r = Some a /\
                         Alert.id a = k /\ Alert.resolved a = false) /\
  NoDup (dict_keys (active_alerts am)) /\
  NoDup (dict_values (active_alerts am)) /\
  (forall a, In a (alerts am) ->
             (Alert.resolved a = true <-> Alert.resolved_timestamp a <> None)).
Proof.
  induction 1 as [|now category metric_name message cur thr sev am _ IH
                  |now alert_id am _ IH].
  - simpl. split; [reflexivity|]. split; [intros k r []|].
    split; [constructor|]. split; [constructor|]. intros a [].
  - destruct IH as [Hh [Hact [Hk [Hv Hres]]]].
    rewrite create_alert_eq. simpl.
    assert (Halloc : forall k r, In (k, r) (active_alerts am) ->
                                 (r < List.length (alerts am))%nat).
    { intros k r Hin. destruct (Hact k r Hin) as [a [Ha _]].
      apply nth_error_Some. congruence. }
    repeat split.
    + rewrite length_app, Hh. cbn [List.length].
      now rewrite Nat.add_1_r, seq_S.
    + intros k r Hin. apply dict_set_In in Hin.
      destruct Hin as [[= -> ->]|Hin].
      * eexists. split; [apply nth_error_new|]. split; reflexivity.
      * destruct (Hact k r Hin) as [a [Ha Hrest]]. exists a.
        split; [|exact Hrest].
        rewrite nth_error_app1; [exact Ha|]. now apply (Halloc k).
    + now apply dict_keys_set_NoDup.
    + apply dict_values_set_NoDup; [|exact Hv].
      intros Hin. unfold dict_values in Hin. apply in_map_iff in Hin.
      destruct Hin as [[k r] [Hr Hin]]. simpl in Hr. subst r.
      apply Halloc in Hin. lia.
    + intros Ha0. apply in_app_or in H. destruct H as [H|[<-|[]]].
      * now apply Hres.
      * discriminate.
    + intros Ha0. apply in_app_or in H. destruct H as [H|[<-|[]]].
      * now apply Hres.
      * simpl in Ha0. now elim Ha0.
  - destruct IH as [Hh [Hact [Hk [Hv Hres]]]].
    unfold resolve_alert.
    destruct (dict_get alert_id (active_alerts am)) as [r|] eqn:Hget;
      [|repeat split; auto; apply Hres; auto].
    simpl. repeat split.
    + now rewrite store_update_length.
    + intros k r' Hin. apply dict_del_In in Hin. destruct Hin as [Hin Hne].
      destruct (Hact k r' Hin) as [a [Ha Hrest]]. exists a.
      split; [|exact Hrest].
      rewrite store_update_other; [exact Ha|].
      apply (dict_values_del_other alert_id r r' (active_alerts am) Hv Hget).
      assert (Hin' : In (k, r') (dict_del alert_id (active_alerts am))).
      { clear - Hin Hne. induction (active_alerts am) as [|[k' v'] d IH];
          simpl in *; [elim Hin|].
        destruct (String.eqb alert_id k') eqn:E.
        - destruct Hin as [[= -> ->]|Hin]; auto.
          apply String.eqb_eq in E. congruence.
        - destruct Hin as [Heq|Hin]; [left; exact Heq|right; auto]. }
      apply (in_map snd) in Hin'. exact Hin'.
    + now apply dict_keys_del_NoDup.
    + now apply dict_values_del_NoDup.
    + intros Ha0. apply In_nth_error in H. destruct H as [i Hi].
      destruct (Nat.eq_dec i r) as [->|Hne].
      * rewrite store_update_same in Hi.
        destruct (nth_error (alerts am) r); [|discriminate].
        simpl in Hi. injection Hi as <-. discriminate.
      * rewrite store_update_other in Hi by exact Hne.
        apply nth_error_In in Hi. now apply Hres.
    + intros Ha0. apply In_nth_error in H. destruct H as [i Hi].
      destruct (Nat.eq_dec i r) as [->|Hne].
      * rewrite store_update_same in Hi.
        destruct (nth_error (alerts am) r); [|discriminate].
        simpl in Hi. injection Hi as <-. reflexivity.
      * rewrite store_update_other in Hi by exact Hne.
        apply nth_error_In in Hi. now apply Hres.
Qed.

(** X3: whatever sequence of [create_alert] and [resolve_alert] calls an
    alert manager has seen, its history lists every alert ever created in
    creation order, each active entry is keyed by the id of an unresolved
    alert that exists, no two entries share a key or an alert, and an
    alert carries a resolution time exactly when it is resolved. *)
Theorem manager_reachable_invariant (am : AlertManager) :
  manager_reachable am ->
  alert_history am = seq 0 (List.length (alerts am)) /\
  (forall k r, In (k, r) (active_alerts am) ->
               exists a, nth_error (alerts am) r = Some a /\
                         Alert.id a = k /\ Alert.resolved a = false) /\
  NoDup (dict_keys (active_alerts am)) /\
  NoDup (dict_values (active_alerts am)) /\
  (forall a, In a (alerts am) ->
             (Alert.resolved a = true <-> Alert.resolved_timestamp a <> None)).
Proof.
  exact (manager_invariant am).
Qed.

(* ----------------------------------------------------------------- *)
(** ** Ordering by timestamp *)

Lemma lex_ltb_irrefl (a : list Z) : lex_ltb a a = false.
Proof.
  induction a as [|x a IH]; simpl; auto.
  now rewrite Z.ltb_irrefl.
Qed.

Lemma lex_ltb_asym (a b : list Z) :
  lex_ltb a b = true -> lex_ltb b a = false.
Proof.
  revert b. induction a as [|x a IH]; intros [|y b]; simpl;
    try (intros; congruence).
  destruct (Z.ltb_spec x y), (Z.ltb_spec y x);
    try lia; try (intros; congruence); auto.
Qed.

Lemma lex_ltb_negtrans (a b c : list Z) :
  lex_ltb a b = false -> lex_ltb b c = false -> lex_ltb a c = false.
Proof.
  revert b c. induction a as [|x a IH]; intros [|y b] [|z c]; simpl;
    try (intros; congruence).
  destruct (Z.ltb_spec x y), (Z.ltb_spec y x), (Z.ltb_spec y z),
           (Z.ltb_spec z y), (Z.ltb_spec x z), (Z.ltb_spec z x);
    try lia; try (intros; congruence); eauto.
Qed.

Lemma insert_desc_perm {A} (key : A -> datetime) (x : A) (l : list A) :
  Permutation (insert_desc key x l) (x :: l).
Proof.
  induction l as [|y l IH]; simpl; auto.
  destruct (datetime_ltb (key x) (key y)); auto.
  eapply perm_trans; [apply perm_skip, IH|apply perm_swap].
Qed.

Lemma sorted_desc_perm {A} (key : A -> datetime) (l : list A) :
  Permutation (sorted_desc key l) l.
Proof.
  induction l as [|x l IH]; simpl; auto.
  eapply perm_trans; [apply insert_desc_perm|now apply perm_skip].
Qed.

Lemma insert_asc_perm {A} (key : A -> datetime) (x : A) (l : list A) :
  Permutation (insert_asc key x l) (x :: l).
Proof.
  induction l as [|y l IH]; simpl; auto.
  destruct (datetime_ltb (key y) (key x)); auto.
  eapply perm_trans; [apply perm_skip, IH|apply perm_swap].
Qed.

Lemma sorted_asc_perm {A} (key : A -> datetime) (l : list A) :
  Permutation (sorted_asc key l) l.
Proof.
  induction l as [|x l IH]; simpl; auto.
  eapply perm_trans; [apply insert_asc_perm|now apply perm_skip].
Qed.

Lemma insert_desc_sorted {A} (key : A -> datetime) (x : A) (l : list A) :
  StronglySorted (not_older key) l ->
  StronglySorted (not_older key) (insert_desc key x l).
Proof.
  induction 1 as [|y l Hs IH Hy]; simpl.
  - repeat constructor.
  - destruct (datetime_ltb (key x) (key y)) eqn:E.
    + constructor; [exact IH|].
      apply Forall_forall. intros z Hz.
      apply (Permutation_in _ (insert_desc_perm key x l)) in Hz.
      destruct Hz as [<-|Hz].
      * now apply lex_ltb_asym.
      * exact (proj1 (Forall_forall _ _) Hy z Hz).
    + constructor; [now constructor|].
      constructor; [exact E|].
      apply Forall_forall. intros z Hz.
      exact (lex_ltb_negtrans _ _ _ E (proj1 (Forall_forall _ _) Hy z Hz)).
Qed.

Lemma sorted_desc_sorted {A} (key : A -> datetime) (l : list A) :
  StronglySorted (not_older key) (sorted_desc key l).
Proof.
  induction l as [|x l IH]; simpl; [constructor|].
  now apply insert_desc_sorted.
Qed.

Lemma insert_asc_sorted {A} (key : A -> datetime) (x : A) (l : list A) :
  StronglySorted (not_newer key) l ->
  StronglySorted (not_newer key) (insert_asc key x l).
Proof.
  induction 1 as [|y l Hs IH Hy]; simpl.
  - repeat constructor.
  - destruct (datetime_ltb (key y) (key x)) eqn:E.
    + constructor; [exact IH|].
      apply Forall_forall. intros z Hz.
      apply (Permutation_in _ (insert_asc_perm key x l)) in Hz.
      destruct Hz as [<-|Hz].
      * now apply lex_ltb_asym.
      * exact (proj1 (Forall_forall _ _) Hy z Hz).
    + constructor; [now constructor|].
      constructor; [exact E|].
      apply Forall_forall. intros z Hz.
      exact (lex_ltb_negtrans _ _ _ (proj1 (Forall_forall _ _) Hy z Hz) E).
Qed.

Lemma sorted_asc_sorted {A} (key : A -> datetime) (l : list A) :
  StronglySorted (not_newer key) (sorted_asc key l).
Proof.
  induction l as [|x l IH]; simpl; [constructor|].
  now apply insert_asc_sorted.
Qed.

(** X4: [get_active_alerts] returns the active alerts, each once, those
    of the requested severity when one is given ([None] and the empty
    string ask for all), and no alert of the result is older than one
    that follows it. *)
Theorem get_active_alerts_spec (severity : option string)
    (am : AlertManager) :
  Permutation (get_active_alerts severity am)
              (filter (wanted_severity severity) (active_alert_objects am))
  /\ StronglySorted (not_older Alert.timestamp)
                    (get_active_alerts severity am).
Proof.
  assert (Hall : forall l : list Alert.t, filter (fun _ => true) l = l).
  { induction l as [|a l IH]; simpl; congruence. }
  split; [|apply sorted_desc_sorted].
  unfold get_active_alerts.
  eapply perm_trans; [apply sorted_desc_perm|].
  destruct severity as [[|c s]|]; simpl.
  - now rewrite Hall.
  - apply Permutation_refl.
  - now rewrite Hall.
Qed.

(* ----------------------------------------------------------------- *)
(** ** The alert summary *)

Lemma count_up_get (s k : string) (d : dict Z) :
  dict_get s (count_up k d)
  = if String.eqb s k
    then Some (match dict_get k d with Some n => n | None => 0 end + 1)
    else dict_get s d.
Proof.
  unfold count_up. destruct (String.eqb s k) eqn:E.
  - apply String.eqb_eq in E. subst s. apply dict_get_set_same.
  - apply String.eqb_neq in E. now apply dict_get_set_other.
Qed.

Lemma count_onto_succ (n : nat) (o : option Z) :
  count_onto n (Some (match o with Some z => z | None => 0 end + 1))
  = count_onto (S n) o.
Proof.
  destruct n; simpl; f_equal; lia.
Qed.

Lemma summary_counts_fold (s : string) (l : list Alert.t) :
  forall d1 d2 : dict Z,
    let res :=
      fold_left (fun acc a =>
                   (count_up (Alert.severity a) (fst acc),
                    count_up (Alert.category a) (snd acc)))
                l (d1, d2) in
    dict_get s (fst res)
    = count_onto
        (List.length (filter (fun a => String.eqb (Alert.severity a) s) l))
        (dict_get s d1) /\
    dict_get s (snd res)
    = count_onto
        (List.length (filter (fun a => String.eqb (Alert.category a) s) l))
        (dict_get s d2).
Proof.
  induction l as [|a l IH]; intros d1 d2; [split; reflexivity|].
  cbn [fold_left filter fst snd].
  destruct (IH (count_up (Alert.severity a) d1)
               (count_up (Alert.category a) d2)) as [H1 H2].
  cbv zeta in H1, H2. rewrite H1, H2, !count_up_get.
  rewrite (String.eqb_sym s (Alert.severity a)).
  rewrite (String.eqb_sym s (Alert.category a)).
  split.
  - destruct (String.eqb (Alert.severity a) s) eqn:E; [|reflexivity].
    apply String.eqb_eq in E. rewrite E. apply count_onto_succ.
  - destruct (String.eqb (Alert.category a) s) eqn:E; [|reflexivity].
    apply String.eqb_eq in E. rewrite E. apply count_onto_succ.
Qed.

(** X5: in the summary, [total_active] is the number of active alerts,
    and [by_severity] and [by_category] map each severity and category
    that occurs among them to the number of active alerts that carry it;
    a severity or category that does not occur has no entry. *)
Theorem get_alert_summary_counts (am : AlertManager) (s : string) :
  let active := active_alert_objects am in
  let summary := get_alert_summary am in
  total_active summary = List.length active /\
  dict_get s (by_severity summary)
  = tally (List.length
             (filter (fun a => String.eqb (Alert.severity a) s) active)) /\
  dict_get s (by_category summary)
  = tally (List.length
             (filter (fun a => String.eqb (Alert.category a) s) active)).
Proof.
  cbv zeta. unfold get_alert_summary.
  destruct (active_alert_objects am) as [|a l] eqn:E;
    [repeat split; reflexivity|].
  cbv zeta. cbn [total_active by_severity by_category].
  destruct (summary_counts_fold s (a :: l) [] []) as [H1 H2].
  cbv zeta in H1, H2.
  split; [reflexivity|].
  split.
  - etransitivity; [exact H1|].
    destruct (List.length (filter _ (a :: l))); reflexivity.
  - etransitivity; [exact H2|].
    destruct (List.length (filter _ (a :: l))); reflexivity.
Qed.

Lemma sorted_first {A} (R : A -> A -> Prop) (l : list A) (o : A) :
  StronglySorted R l -> hd_error l = Some o ->
  In o l /\ forall a, In a l -> a = o \/ R o a.
Proof.
  intros Hs Hhd. destruct l as [|x l]; [discriminate|].
  injection Hhd as ->. split; [now left|].
  intros a [<-|Ha]; [now left|right].
  apply StronglySorted_inv in Hs. destruct Hs as [_ Hall].
  exact (proj1 (Forall_forall _ _) Hall a Ha).
Qed.

Lemma sorted_last {A} (R : A -> A -> Prop) (l : list A) (n : A) :
  StronglySorted R l -> nth_error l (List.length l - 1) = Some n ->
  In n l /\ forall a, In a l -> a = n \/ R a n.
Proof.
  induction 1 as [|y l Hs IH Hy].
  - discriminate.
  - destruct l as [|z l'].
    + simpl. intros [= <-]. split; [now left|].
      intros a [<-|[]]. now left.
    + replace (List.length (y :: z :: l') - 1)%nat
        with (S (List.length (z :: l') - 1)) by (simpl; lia).
      change (nth_error (y :: z :: l') (S (List.length (z :: l') - 1)))
        with (nth_error (z :: l') (List.length (z :: l') - 1)).
      intros Hn. destruct (IH Hn) as [Hin Hle].
      split; [now right|].
      intros a [<-|Ha]; [|now apply Hle].
      right. exact (proj1 (Forall_forall _ _) Hy n Hin).
Qed.

(** X6: with no active alert the summary has no oldest and no newest
    timestamp; otherwise [oldest_alert] and [newest_alert] are the
    timestamps of active alerts, and no active alert is older than the
    first or newer than the second. *)
Theorem get_alert_summary_oldest_newest (am : AlertManager) :
  let active := active_alert_objects am in
  let summary := get_alert_summary am in
  match active with
  | [] => oldest_alert summary = None /\ newest_alert summary = None
  | _ :: _ =>
      exists o n,
        In o active /\ In n active /\
        oldest_alert summary = Some (Alert.timestamp o) /\
        newest_alert summary = Some (Alert.timestamp n) /\
        forall a, In a active ->
                  datetime_ltb (Alert.timestamp a) (Alert.timestamp o)
                  = false /\
                  datetime_ltb (Alert.timestamp n) (Alert.timestamp a)
                  = false
  end.
Proof.
  cbv zeta. unfold get_alert_summary.
  destruct (active_alert_objects am) as [|a0 l0] eqn:E;
    [split; reflexivity|].
  cbv zeta. cbn [oldest_alert newest_alert].
  set (l := a0 :: l0).
  pose proof (sorted_asc_sorted Alert.timestamp l) as Hs.
  pose proof (sorted_asc_perm Alert.timestamp l) as Hp.
  assert (Hlen : List.length (sorted_asc Alert.timestamp l)
                 = S (List.length l0)).
  { now rewrite (Permutation_length Hp). }
  destruct (hd_error (sorted_asc Alert.timestamp l)) as [o|] eqn:Ho;
    [|destruct (sorted_asc Alert.timestamp l); discriminate].
  destruct (nth_error (sorted_asc Alert.timestamp l)
              (List.length (sorted_asc Alert.timestamp l) - 1))
    as [n|] eqn:Hn;
    [|apply nth_error_None in Hn; lia].
  destruct (sorted_first _ _ _ Hs Ho) as [Hino Hfirst].
  destruct (sorted_last _ _ _ Hs Hn) as [Hinn Hlast].
  exists o, n.
  split; [exact (Permutation_in _ Hp Hino)|].
  split; [exact (Permutation_in _ Hp Hinn)|].
  split; [reflexivity|]. split; [reflexivity|].
  intros a Ha. apply (Permutation_in _ (Permutation_sym Hp)) in Ha.
  split.
  - destruct (Hfirst a Ha) as [->|H]; [apply lex_ltb_irrefl|exact H].
  - destruct (Hlast a Ha) as [->|H]; [apply lex_ltb_irrefl|exact H].
Qed.

(* ----------------------------------------------------------------- *)
(** ** The threshold evaluation on any well-formed alert manager *)

Lemma AlertManager_ok_create (now : tick)
    (category metric_name message : string) (cur thr : float)
    (sev : string) (am : AlertManager) :
  AlertManager_ok am ->
  AlertManager_ok
    (snd (create_alert now category metric_name message cur thr sev am)).
Proof.
  intros Hok. rewrite create_alert_eq. simpl.
  set (new := Alert.mk _ _ _ _ _ _ _ _ _ _).
  split; [|split]; simpl.
  - apply dict_values_set_Forall.
    + exists new. split; [apply nth_error_new|reflexivity].
    + destruct Hok as [Hall _]. apply Forall_forall. intros r Hr.
      assert (Hlt : (r < List.length (alerts am))%nat).
      { destruct (proj1 (Forall_forall _ _) Hall r Hr) as [a [Ha _]].
        apply nth_error_Some. congruence. }
      rewrite nth_error_app1 by exact Hlt.
      exact (proj1 (Forall_forall _ _) Hall r Hr).
  - apply dict_values_set_NoDup; [|apply Hok].
    intros Hin. apply (active_address_allocated am _ Hok) in Hin. lia.
  - apply dict_keys_set_NoDup, Hok.
Qed.

Lemma AlertManager_ok_resolve (now : datetime) (alert_id : string)
    (am : AlertManager) :
  AlertManager_ok am ->
  AlertManager_ok (snd (resolve_alert now alert_id am)).
Proof.
  intros Hok. unfold resolve_alert.
  destruct (dict_get alert_id (active_alerts am)) as [r|] eqn:Hr;
    [|exact Hok].
  destruct Hok as [Hall [Hnd Hkeys]]. split; [|split]; simpl.
  - apply Forall_forall. intros x Hx.
    pose proof (dict_values_del_other _ _ _ _ Hnd Hr Hx) as Hne.
    rewrite store_update_other by exact Hne.
    apply (proj1 (Forall_forall _ _) Hall).
    eapply dict_values_del_In; eauto.
  - now apply dict_values_del_NoDup.
  - now apply dict_keys_del_NoDup.
Qed.

Lemma AlertManager_ok_resolve_all (clk : nat -> tick) (ids : list string)
    (n : nat) (am : AlertManager) :
  AlertManager_ok am ->
  AlertManager_ok (snd (resolve_all clk ids (n, am))).
Proof.
  revert n am. induction ids as [|i ids IH]; intros n am H; simpl; auto.
  pose proof (AlertManager_ok_resolve (datetime_now (clk n)) i am H) as H'.
  destruct (resolve_alert (datetime_now (clk n)) i am) as [done am'].
  now apply IH.
Qed.

Lemma AlertManager_ok_check_metric (clk : nat -> tick) (m : metrics)
    (thresholds : dict float) (chk : string * string * string)
    (n : nat) (am : AlertManager) :
  AlertManager_ok am ->
  AlertManager_ok (snd (snd (check_metric clk m thresholds chk (n, am)))).
Proof.
  intros H. destruct chk as [[metric_name description] category].
  unfold check_metric.
  destruct (dict_get metric_name (metrics_values m)) as [cur|]; auto.
  destruct (dict_get metric_name thresholds) as [thr|]; auto.
  destruct (PrimFloat.ltb thr cur).
  - destruct (existing_alert metric_name am) eqn:E; auto.
    destruct (_determine_severity cur thr) as [sev|e]; auto.
    pose proof (AlertManager_ok_create (clk n) category metric_name
      (description ++ " excede el umbral: " ++ format_2f cur ++ " > "
         ++ format_2f thr)%string cur thr sev am H) as H'.
    destruct (create_alert _ _ _ _ _ _ _ _) as [r am']. exact H'.
  - simpl. now apply AlertManager_ok_resolve_all.
Qed.

Lemma AlertManager_ok_check_loop (clk : nat -> tick) (m : metrics)
    (thresholds : dict float) (cs : list (string * string * string))
    (n : nat) (am : AlertManager) :
  AlertManager_ok am ->
  AlertManager_ok (snd (snd (check_loop clk m thresholds cs (n, am)))).
Proof.
  revert n am. induction cs as [|chk cs IH]; intros n am H; simpl; auto.
  pose proof (AlertManager_ok_check_metric clk m thresholds chk n am H)
    as H'.
  destruct (check_metric clk m thresholds chk (n, am)) as [[u|e] [n' am']];
    simpl in *; auto.
Qed.

(** An iteration that raises has changed nothing, and it raises on a
    division by a zero threshold only. *)
Lemma check_metric_raised (clk : nat -> tick) (m : metrics)
    (thresholds : dict float) (M d c : string)
    (st st' : nat * AlertManager) (e : exn) :
  check_metric clk m thresholds (M, d, c) st = (Raised e, st') ->
  st' = st /\
  exn_class_of e = ZeroDivisionError /\
  exists cur thr,
    dict_get M (metrics_values m) = Some cur /\
    dict_get M thresholds = Some thr /\
    PrimFloat.eqb thr 0 = true /\
    PrimFloat.ltb thr cur = true /\
    existing_alert M (snd st) = None.
Proof.
  destruct st as [n am]. unfold check_metric.
  destruct (dict_get M (metrics_values m)) as [cur|]; [|discriminate].
  destruct (dict_get M thresholds) as [thr|]; [|discriminate].
  destruct (PrimFloat.ltb thr cur) eqn:Hlt; [|discriminate].
  destruct (existing_alert M am) eqn:Hex; [discriminate|].
  unfold _determine_severity.
  destruct (PrimFloat.eqb thr 0) eqn:Hz.
  - intros [= <- <-]. split; [reflexivity|]. split; [reflexivity|].
    exists cur, thr. auto.
  - destruct (PrimFloat.leb 2 (cur / thr));
      [|destruct (PrimFloat.leb 1.5 (cur / thr));
        [|destruct (PrimFloat.leb 0x1.3333333333333p+0 (cur / thr))]];
      destruct (create_alert _ _ _ _ _ _ _ _); discriminate.
Qed.

Lemma check_loop_raised (clk : nat -> tick) (m : metrics)
    (thresholds : dict float) (cs : list (string * string * string)) :
  forall (st st' : nat * AlertManager) (e : exn),
    check_loop clk m thresholds cs st = (Raised e, st') ->
    exn_class_of e = ZeroDivisionError /\
    exists M d c cur thr,
      In (M, d, c) cs /\
      dict_get M (metrics_values m) = Some cur /\
      dict_get M thresholds = Some thr /\
      PrimFloat.eqb thr 0 = true /\
      PrimFloat.ltb thr cur = true.
Proof.
  induction cs as [|[[M d] c] cs IH]; intros st st' e; cbn [check_loop];
    [discriminate|].
  destruct (check_metric clk m thresholds (M, d, c) st)
    as [[u|e1] st1] eqn:E.
  - intros H. destruct (IH _ _ _ H) as [He [M' [d' [c' [cur [thr H']]]]]].
    split; [exact He|]. exists M', d', c', cur, thr.
    split; [right; apply H'|apply H'].
  - intros [= <- <-].
    destruct (check_metric_raised _ _ _ _ _ _ _ _ _ E)
      as [_ [He [cur [thr [H1 [H2 [H3 [H4 _]]]]]]]].
    split; [exact He|]. exists M, d, c, cur, thr.
    split; [now left|auto].
Qed.

(** X7: an exception that leaves the threshold evaluation is a
    ZeroDivisionError, that of the division in the severity computation,
    and it occurs only when a tracked metric exceeds a configured
    threshold that is a zero; nothing is said about its message, which
    depends on the Python types of the two operands. *)
Theorem _check_thresholds_raises (clk : nat -> tick)
    (thresholds : dict float) (m : metrics) (am : AlertManager)
    (e : exn) :
  fst (_check_thresholds clk thresholds m am) = Raised e ->
  exn_class_of e = ZeroDivisionError /\
  exists M d c cur thr,
    In (M, d, c) checks /\
    dict_get M (metrics_values m) = Some cur /\
    dict_get M thresholds = Some thr /\
    PrimFloat.eqb thr 0 = true /\
    PrimFloat.ltb thr cur = true.
Proof.
  rewrite (proj1 (_check_thresholds_loop clk thresholds m am)).
  destruct (check_loop clk m thresholds checks (0%nat, am))
    as [res st'] eqn:E.
  simpl. intros ->.
  exact (check_loop_raised _ _ _ _ _ _ _ E).
Qed.

(** The iteration for another metric never adds an active alert of [M]
    and leaves an active entry of [M] where it is unless the new alert
    takes its id; no assumption on the thresholds. *)
Lemma check_metric_keeps (M : string) (clk : nat -> tick) (m : metrics)
    (thresholds : dict float) (m' d' c' : string) (n : nat)
    (am : AlertManager) :
  m' <> M ->
  AlertManager_ok am ->
  let am' :=
    snd (snd (check_metric clk m thresholds (m', d', c') (n, am))) in
  (count_active M am' <= count_active M am)%nat /\
  (forall k r, dict_get k (active_alerts am) = Some r ->
               has_metric_name am M r = true ->
               (forall t, make_alert_id c' m' t <> k) ->
               dict_get k (active_alerts am') = Some r /\
               nth_error (alerts am') r = nth_error (alerts am) r).
Proof.
  intros Hne Hok. unfold check_metric.
  destruct (dict_get m' (metrics_values m)) as [cur|];
    [|simpl; split; auto].
  destruct (dict_get m' thresholds) as [thr|]; [|simpl; split; auto].
  destruct (PrimFloat.ltb thr cur).
  - destruct (existing_alert m' am); [simpl; split; auto|].
    destruct (_determine_severity cur thr) as [sev|e];
      [|simpl; split; auto].
    set (msg := (d' ++ " excede el umbral: " ++ format_2f cur ++ " > "
                    ++ format_2f thr)%string).
    pose proof (count_active_after_create M (clk n) c' m' msg cur thr sev
                  am Hok) as Hcnt.
    assert (E : String.eqb m' M = false) by now apply String.eqb_neq.
    rewrite E in Hcnt.
    rewrite create_alert_eq in *. simpl in *.
    split; [lia|].
    intros k r Hk Hr Hkey. split.
    + rewrite dict_get_set_other; [exact Hk|].
      intros ->. now apply (Hkey (time_time (clk n))).
    + apply nth_error_app1. now apply has_metric_name_allocated in Hr.
  - cbn [fst snd].
    destruct (resolve_all_other M m' clk (alerts_to_resolve m' am) Hne n am)
      as [_ [_ Hk]].
    { intros i r. apply alerts_to_resolve_metric. apply Hok. }
    split; [apply count_active_after_resolve_all|].
    intros k r Hkr HMr _. now apply Hk.
Qed.

Lemma check_loop_keeps (M : string) (clk : nat -> tick) (m : metrics)
    (thresholds : dict float) (cs : list (string * string * string)) :
  Forall (fun chk => fst (fst chk) <> M) cs ->
  forall (n : nat) (am : AlertManager),
    AlertManager_ok am ->
    let am' := snd (snd (check_loop clk m thresholds cs (n, am))) in
    (count_active M am' <= count_active M am)%nat /\
    (forall k r, dict_get k (active_alerts am) = Some r ->
                 has_metric_name am M r = true ->
                 Forall (fun chk => forall t,
                           make_alert_id (snd chk) (fst (fst chk)) t <> k)
                        cs ->
                 dict_get k (active_alerts am') = Some r /\
                 nth_error (alerts am') r = nth_error (alerts am) r).
Proof.
  induction 1 as [|[[m' d'] c'] cs Hm' Hcs IH]; intros n am Hok;
    cbn [check_loop]; [simpl; split; auto|].
  simpl in Hm'.
  destruct (check_metric_keeps M clk m thresholds m' d' c' n am Hm' Hok)
    as [Hcnt Hk].
  pose proof (AlertManager_ok_check_metric clk m thresholds (m', d', c')
                n am Hok) as Hok1.
  destruct (check_metric clk m thresholds (m', d', c') (n, am))
    as [[u|e] [n1 am1]]; cbn [fst snd] in *.
  - destruct (IH n1 am1 Hok1) as [Hcnt' Hk'].
    split; [lia|].
    intros k r Hkr HMr Hkeys.
    inversion Hkeys as [|? ? Hkey Hkeys']; subst.
    destruct (Hk k r Hkr HMr Hkey) as [Hk1 Hn1].
    assert (HMr1 : has_metric_name am1 M r = true).
    { unfold has_metric_name in *. now rewrite Hn1. }
    destruct (Hk' k r Hk1 HMr1 Hkeys') as [Hk2 Hn2].
    split; [exact Hk2|congruence].
  - split; [exact Hcnt|].
    intros k r Hkr HMr Hkeys.
    inversion Hkeys as [|? ? Hkey Hkeys']; subst.
    now apply Hk.
Qed.

Lemma resolve_alert_active (now : datetime) (i : string)
    (am : AlertManager) :
  active_alerts (snd (resolve_alert now i am))
  = dict_del i (active_alerts am).
Proof.
  unfold resolve_alert.
  destruct (dict_get i (active_alerts am)) eqn:E; simpl; auto.
  symmetry. now apply dict_del_absent.
Qed.

Lemma resolve_alert_metric_name (now : datetime) (i : string)
    (am : AlertManager) (M : string) (r : nat) :
  has_metric_name (snd (resolve_alert now i am)) M r
  = has_metric_name am M r.
Proof.
  unfold resolve_alert.
  destruct (dict_get i (active_alerts am)); simpl; auto.
  apply has_metric_name_resolve.
Qed.

Lemma resolve_all_active (clk : nat -> tick) (ids : list string) :
  forall (n : nat) (am : AlertManager),
    active_alerts (snd (resolve_all clk ids (n, am)))
    = fold_left (fun d i => dict_del i d) ids (active_alerts am) /\
    forall M r, has_metric_name (snd (resolve_all clk ids (n, am))) M r
                = has_metric_name am M r.
Proof.
  induction ids as [|i ids IH]; intros n am; simpl; [split; auto|].
  pose proof (resolve_alert_active (datetime_now (clk n)) i am) as Ha.
  pose proof (resolve_alert_metric_name (datetime_now (clk n)) i am) as Hm.
  destruct (resolve_alert (datetime_now (clk n)) i am) as [done am1].
  simpl in Ha, Hm.
  destruct (IH (if done then S n else n) am1) as [IH1 IH2].
  split; [now rewrite IH1, Ha|].
  intros M r. now rewrite IH2, Hm.
Qed.

Lemma fold_del_In {V} (ids : list string) (k : string) (v : V) :
  forall d : dict V,
    In (k, v) (fold_left (fun d i => dict_del i d) ids d) ->
    In (k, v) d /\ ~ In k ids.
Proof.
  induction ids as [|i ids IH]; intros d; simpl; [auto|].
  intros H. apply IH in H. destruct H as [H Hnot].
  apply dict_del_In in H. destruct H as [H Hne].
  split; [exact H|]. intros [Heq|Hin]; auto.
Qed.

(** The iteration for a metric that does not exceed its threshold leaves
    no active alert with its name. *)
Lemma check_metric_recovers_all (M d c : string) (clk : nat -> tick)
    (m : metrics) (thresholds : dict float) (cur thr : float) (n : nat)
    (am : AlertManager) :
  dict_get M (metrics_values m) = Some cur ->
  dict_get M thresholds = Some thr ->
  PrimFloat.ltb thr cur = false ->
  fst (check_metric clk m thresholds (M, d, c) (n, am)) = Returned tt /\
  count_active M
    (snd (snd (check_metric clk m thresholds (M, d, c) (n, am)))) = 0%nat.
Proof.
  intros Hc Ht Hlt. unfold check_metric. rewrite Hc, Ht, Hlt.
  cbn [fst snd]. split; [reflexivity|].
  destruct (resolve_all_active clk (alerts_to_resolve M am) n am)
    as [Ha Hm].
  unfold count_active. rewrite Ha.
  rewrite (filter_ext _ _ (Hm M)).
  rewrite <- filter_values_length.
  destruct (filter (fun kv => has_metric_name am M (snd kv))
              (fold_left (fun d0 i => dict_del i d0)
                 (alerts_to_resolve M am) (active_alerts am)))
    as [|[k v] l] eqn:E; [reflexivity|exfalso].
  assert (Hin : In (k, v)
                  (filter (fun kv => has_metric_name am M (snd kv))
                     (fold_left (fun d0 i => dict_del i d0)
                        (alerts_to_resolve M am) (active_alerts am)))).
  { rewrite E. now left. }
  apply filter_In in Hin. destruct Hin as [Hin HP].
  apply fold_del_In in Hin. destruct Hin as [Hin Hnot].
  apply Hnot. unfold alerts_to_resolve, dict_keys.
  apply in_map_iff. exists (k, v). split; [reflexivity|].
  apply filter_In. auto.
Qed.

(** X8: when the threshold evaluation completes and a tracked metric of
    the snapshot does not exceed its threshold, no alert with that metric
    name is left in the active set, however many there were and whoever
    created them. *)
Theorem recovery_resolves_every_alert (clk : nat -> tick)
    (thresholds : dict float) (m : metrics) (am : AlertManager)
    (M d c : string) (cur thr : float) :
  In (M, d, c) checks ->
  dict_get M (metrics_values m) = Some cur ->
  dict_get M thresholds = Some thr ->
  PrimFloat.ltb thr cur = false ->
  AlertManager_ok am ->
  fst (_check_thresholds clk thresholds m am) = Returned tt ->
  count_active M (snd (_check_thresholds clk thresholds m am)) = 0%nat /\
  existing_alert M (snd (_check_thresholds clk thresholds m am)) = None.
Proof.
  intros Hin Hc Ht Hlt Hok.
  destruct (_check_thresholds_loop clk thresholds m am) as [-> ->].
  destruct (tracked_split M d c Hin)
    as [before [after [-> [_ [Hafter _]]]]].
  rewrite check_loop_app.
  pose proof (AlertManager_ok_check_loop clk m thresholds before 0%nat am
                Hok) as Hok1.
  destruct (check_loop clk m thresholds before (0%nat, am))
    as [[u|e] [n1 am1]]; [|discriminate].
  cbn [check_loop]. cbn [fst snd] in Hok1.
  destruct (check_metric_recovers_all M d c clk m thresholds cur thr n1 am1
              Hc Ht Hlt) as [Hret H0].
  pose proof (AlertManager_ok_check_metric clk m thresholds (M, d, c)
                n1 am1 Hok1) as Hok2.
  destruct (check_metric clk m thresholds (M, d, c) (n1, am1))
    as [[u2|e2] [n2 am2]]; [|discriminate].
  cbn [fst snd] in *.
  destruct (check_loop_keeps M clk m thresholds after Hafter n2 am2 Hok2)
    as [Hle _].
  intros _.
  assert (Hz : count_active M
                 (snd (snd (check_loop clk m thresholds after (n2, am2))))
               = 0%nat) by lia.
  split; [exact Hz|now apply count_zero_existing_none].
Qed.

(** X9: an active alert whose metric name is not tracked by the threshold
    evaluation and whose id no tracked metric can produce is still active
    and untouched after an evaluation, whether the evaluation completes or
    raises. *)
Theorem untracked_alert_survives (clk : nat -> tick)
    (thresholds : dict float) (m : metrics) (am : AlertManager)
    (M k : string) (r : nat) :
  AlertManager_ok am ->
  dict_get k (active_alerts am) = Some r ->
  has_metric_name am M r = true ->
  Forall (fun chk => fst (fst chk) <> M) checks ->
  Forall (fun chk => forall t,
            make_alert_id (snd chk) (fst (fst chk)) t <> k) checks ->
  let am' := snd (_check_thresholds clk thresholds m am) in
  dict_get k (active_alerts am') = Some r /\
  nth_error (alerts am') r = nth_error (alerts am) r.
Proof.
  intros Hok Hk Hr HM Hids am'. subst am'.
  rewrite (proj2 (_check_thresholds_loop clk thresholds m am)).
  destruct (check_loop_keeps M clk m thresholds checks HM 0%nat am Hok)
    as [_ H].
  now apply H.
Qed.

(* ----------------------------------------------------------------- *)
(** ** The alerts that the threshold evaluation creates *)

Lemma Forall_store_update {A} (P : A -> Prop) (f : A -> A) (r : nat)
    (h : list A) :
  (forall a, P a -> P (f a)) -> Forall P h -> Forall P (store_update r f h).
Proof.
  intros Hf H. revert r.
  induction H as [|a h Ha Hh IH]; intros [|r]; simpl; constructor; auto.
Qed.

Lemma _determine_severity_range (cur thr : float) (sev : string) :
  _determine_severity cur thr = Returned sev ->
  In sev ["critical"; "high"; "medium"; "low"].
Proof.
  unfold _determine_severity.
  destruct (PrimFloat.eqb thr 0); [discriminate|].
  destruct (PrimFloat.leb 2 (cur / thr));
    [|destruct (PrimFloat.leb 1.5 (cur / thr));
      [|destruct (PrimFloat.leb 0x1.3333333333333p+0 (cur / thr))]];
    intros [= <-]; simpl; auto.
Qed.

Lemma engine_alert_resolve_alert (thresholds : dict float)
    (now : datetime) (i : string) (am : AlertManager) :
  Forall (engine_alert thresholds) (alerts am) ->
  Forall (engine_alert thresholds)
         (alerts (snd (resolve_alert now i am))).
Proof.
  intros H. unfold resolve_alert.
  destruct (dict_get i (active_alerts am)); simpl; auto.
  apply Forall_store_update; auto.
Qed.

Lemma engine_alert_resolve_all (thresholds : dict float)
    (clk : nat -> tick) (ids : list string) :
  forall (n : nat) (am : AlertManager),
    Forall (engine_alert thresholds) (alerts am) ->
    Forall (engine_alert thresholds)
           (alerts (snd (resolve_all clk ids (n, am)))).
Proof.
  induction ids as [|i ids IH]; intros n am H; simpl; auto.
  pose proof (engine_alert_resolve_alert thresholds (datetime_now (clk n))
                i am H) as H'.
  destruct (resolve_alert (datetime_now (clk n)) i am) as [done am1].
  now apply IH.
Qed.

Lemma engine_alert_check_metric (thresholds : dict float)
    (clk : nat -> tick) (m : metrics) (M d c : string) (n : nat)
    (am : AlertManager) :
  In (M, d, c) checks ->
  Forall (engine_alert thresholds) (alerts am) ->
  Forall (engine_alert thresholds)
    (alerts (snd (snd (check_metric clk m thresholds (M, d, c) (n, am))))).
Proof.
  intros Hin H. unfold check_metric.
  destruct (dict_get M (metrics_values m)) as [cur|]; auto.
  destruct (dict_get M thresholds) as [thr|] eqn:Ht; auto.
  destruct (PrimFloat.ltb thr cur) eqn:Hlt.
  - destruct (existing_alert M am); auto.
    destruct (_determine_severity cur thr) as [sev|e] eqn:Hs; auto.
    rewrite create_alert_eq. cbn [fst snd alerts].
    apply Forall_app. split; [exact H|].
    constructor; [|constructor].
    unfold engine_alert. cbn.
    split; [exact Hlt|]. split; [exact Ht|]. split; [exact Hs|].
    split; [exact (_determine_severity_range _ _ _ Hs)|].
    split; [exists d; split; [exact Hin|reflexivity]|].
    exists (time_time (clk n)). reflexivity.
  - cbn [fst snd]. now apply engine_alert_resolve_all.
Qed.

Lemma engine_alert_check_loop (thresholds : dict float)
    (clk : nat -> tick) (m : metrics)
    (cs : list (string * string * string)) :
  (forall chk, In chk cs -> In chk checks) ->
  forall (n : nat) (am : AlertManager),
    Forall (engine_alert thresholds) (alerts am) ->
    Forall (engine_alert thresholds)
      (alerts (snd (snd (check_loop clk m thresholds cs (n, am))))).
Proof.
  induction cs as [|[[M d] c] cs IH]; intros Hcs n am H;
    cbn [check_loop]; auto.
  pose proof (engine_alert_check_metric thresholds clk m M d c n am
                (Hcs _ (or_introl eq_refl)) H) as H1.
  destruct (check_metric clk m thresholds (M, d, c) (n, am))
    as [[u|e] [n1 am1]]; cbn [fst snd] in *; auto.
  apply IH; auto. intros chk Hc. apply Hcs. now right.
Qed.

Lemma engine_alerts (thresholds : dict float) (am : AlertManager) :
  engine_reachable thresholds am ->
  Forall (engine_alert thresholds) (alerts am).
Proof.
  induction 1 as [|am k clk m _ IH|am now i _ IH].
  - constructor.
  - unfold _check_thresholds_upto.
    apply engine_alert_check_loop; [|exact IH].
    intros chk Hc. clear - Hc. revert Hc. generalize checks.
    induction k as [|k IHk]; intros [|x l]; simpl; try tauto.
    intros [->|Hc]; [now left|right; now apply IHk].
  - now apply engine_alert_resolve_alert.
Qed.

(** X10: every alert that exists in an alert manager fed by the
    threshold evaluation alone, active or resolved, is for a tracked
    metric under the category and description of that metric, records the
    configured threshold and a value that exceeds it, has the severity
    that the ratio of the two determines, one of critical, high, medium
    and low, and an id built from its category, its metric name and a
    second. *)
Theorem engine_alerts_well_formed (thresholds : dict float)
    (am : AlertManager) (a : Alert.t) :
  engine_reachable thresholds am ->
  In a (alerts am) ->
  engine_alert thresholds a.
Proof.
  intros Hreach Hin.
  exact (proj1 (Forall_forall _ _) (engine_alerts thresholds am Hreach)
               a Hin).
Qed.

(* ----------------------------------------------------------------- *)
(** ** The registry, the task objects and the armed jobs *)

Lemma _schedule_task_jobs (r : nat) (task : Task) (js : list Job) :
  snd (_schedule_task r task js) = js \/
  exists c f,
    snd (_schedule_task r task js)
    = js ++ [mk_Job (ScheduledTask.id task) c f] /\
    job_task (mk_Job (ScheduledTask.id task) c f) = r.
Proof.
  unfold _schedule_task.
  destruct (String.eqb (ScheduledTask.schedule_type task) "interval").
  { destruct (schedule_accepts_interval _); simpl; eauto. }
  destruct (String.eqb (ScheduledTask.schedule_type task) "daily").
  { destruct (schedule_accepts_at _); simpl; eauto. }
  destruct (String.eqb (ScheduledTask.schedule_type task) "weekly").
  { destruct (ScheduledTask.schedule_value task); simpl; auto.
    destruct (weekday_of_name (lower s)); simpl; eauto. }
  destruct (String.eqb (ScheduledTask.schedule_type task) "monthly");
    simpl; eauto.
Qed.

Lemma registry_injective (ts : TaskScheduler) (k1 k2 : string) (r : nat) :
  TaskScheduler_ok ts ->
  dict_get k1 (scheduled_tasks ts) = Some r ->
  dict_get k2 (scheduled_tasks ts) = Some r ->
  k1 = k2.
Proof.
  intros [Hreg _] H1 H2.
  destruct (Hreg _ _ H1) as [t1 [Ht1 <-]].
  destruct (Hreg _ _ H2) as [t2 [Ht2 <-]].
  congruence.
Qed.

(** Arming a registered, enabled task keeps the scheduler well formed. *)
Lemma TaskScheduler_ok_arm (ts : TaskScheduler) (r : nat) (task : Task) :
  TaskScheduler_ok ts ->
  nth_error (tasks ts) r = Some task ->
  dict_get (ScheduledTask.id task) (scheduled_tasks ts) = Some r ->
  ScheduledTask.enabled task = true ->
  TaskScheduler_ok (with_jobs (snd (_schedule_task r task (jobs ts))) ts).
Proof.
  intros [Hreg Hjobs] Ht Hk Hen. split; [exact Hreg|].
  cbn [with_jobs jobs tasks scheduled_tasks].
  destruct (_schedule_task_jobs r task (jobs ts))
    as [->|[c [f [-> Hr]]]]; [exact Hjobs|].
  intros j Hj. apply in_app_or in Hj. destruct Hj as [Hj|[<-|[]]].
  - now apply Hjobs.
  - rewrite Hr. cbn [job_tag]. split; [exact Hk|]. eauto.
Qed.

Lemma TaskScheduler_ok_add_task (task_id name : string)
    (function : Callable) (schedule_type : string)
    (schedule_value : pyval) (enabled : bool) (ts : TaskScheduler) :
  TaskScheduler_ok ts ->
  TaskScheduler_ok
    (snd (add_task task_id name function schedule_type schedule_value
                   enabled ts)).
Proof.
  intros Hok. unfold add_task.
  destruct (dict_mem task_id (scheduled_tasks ts)) eqn:Hmem; [exact Hok|].
  assert (Hnone : dict_get task_id (scheduled_tasks ts) = None).
  { unfold dict_mem in Hmem.
    destruct (dict_get task_id (scheduled_tasks ts)); congruence. }
  set (task := ScheduledTask.mk task_id name function schedule_type
                                schedule_value enabled None None 0 0 None).
  set (ts1 := mk_TaskScheduler _ _ _ _ _).
  assert (Hnew : nth_error (tasks ts1) (List.length (tasks ts)) = Some task)
    by apply nth_error_new.
  assert (Hget : dict_get task_id (scheduled_tasks ts1)
                 = Some (List.length (tasks ts)))
    by apply dict_get_set_same.
  assert (Hok1 : TaskScheduler_ok ts1).
  { destruct Hok as [Hreg Hjobs]. split; cbn.
    - intros k r Hk.
      destruct (String.eqb k task_id) eqn:E.
      + apply String.eqb_eq in E. subst k.
        rewrite dict_get_set_same in Hk. injection Hk as <-.
        exists task. split; [apply nth_error_new|reflexivity].
      + apply String.eqb_neq in E.
        rewrite dict_get_set_other in Hk by exact E.
        destruct (Hreg k r Hk) as [t [Ht Hid]]. exists t.
        split; [|exact Hid].
        rewrite nth_error_app1; [exact Ht|].
        apply nth_error_Some. congruence.
    - intros j Hj. destruct (Hjobs j Hj) as [Hk [t [Ht Hen]]].
      split.
      + rewrite dict_get_set_other; [exact Hk|].
        intros Heq. rewrite Heq in Hk. congruence.
      + exists t. split; [|exact Hen].
        rewrite nth_error_app1; [exact Ht|].
        apply nth_error_Some. congruence. }
  destruct enabled; [|exact Hok1].
  pose proof (TaskScheduler_ok_arm ts1 _ task Hok1 Hnew Hget eq_refl) as H.
  change (jobs ts) with (jobs ts1).
  destruct (_schedule_task (List.length (tasks ts)) task (jobs ts1))
    as [[u|e] js]; exact H.
Qed.

Lemma TaskScheduler_ok_remove_task (task_id : string)
    (ts : TaskScheduler) :
  TaskScheduler_ok ts ->
  TaskScheduler_ok (snd (remove_task task_id ts)).
Proof.
  intros Hok. unfold remove_task.
  destruct (dict_mem task_id (scheduled_tasks ts)); [|exact Hok].
  destruct Hok as [Hreg Hjobs]. split; cbn.
  - intros k r Hk. apply Hreg.
    destruct (String.eqb k task_id) eqn:E.
    + apply String.eqb_eq in E. subst k.
      rewrite dict_get_del_same in Hk. discriminate.
    + apply String.eqb_neq in E.
      now rewrite dict_get_del_other in Hk by exact E.
  - intros j Hj. apply schedule_clear_incl in Hj. destruct Hj as [Hj Htag].
    destruct (Hjobs j Hj) as [Hk Ht]. split; [|exact Ht].
    now rewrite dict_get_del_other by exact Htag.
Qed.

Lemma TaskScheduler_ok_disable_task (task_id : string)
    (ts : TaskScheduler) :
  TaskScheduler_ok ts ->
  TaskScheduler_ok (snd (disable_task task_id ts)).
Proof.
  intros Hok. unfold disable_task.
  destruct (dict_get task_id (scheduled_tasks ts)) as [r|] eqn:E;
    [|exact Hok].
  pose proof (registry_injective ts) as Hinj.
  destruct Hok as [Hreg Hjobs]. split; cbn.
  - intros k r0 Hk. destruct (Hreg k r0 Hk) as [t [Ht Hid]].
    destruct (Nat.eq_dec r0 r) as [->|Hne].
    + exists (ScheduledTask.set_enabled false t).
      rewrite store_update_same, Ht. split; [reflexivity|exact Hid].
    + exists t. now rewrite store_update_other by exact Hne.
  - intros j Hj. apply schedule_clear_incl in Hj. destruct Hj as [Hj Htag].
    destruct (Hjobs j Hj) as [Hk [t [Ht Hen]]]. split; [exact Hk|].
    exists t. split; [|exact Hen].
    rewrite store_update_other; [exact Ht|].
    intros Heq. rewrite Heq in Hk.
    apply Htag. apply (Hinj _ _ r); auto. split; auto.
Qed.

Lemma TaskScheduler_ok_enable_task (task_id : string)
    (ts : TaskScheduler) :
  TaskScheduler_ok ts ->
  TaskScheduler_ok (snd (enable_task task_id ts)).
Proof.
  intros Hok. unfold enable_task.
  destruct (dict_get task_id (scheduled_tasks ts)) as [r|] eqn:E;
    [|exact Hok].
  set (ts1 := with_tasks _ ts).
  destruct (proj1 Hok _ _ E) as [task [Ht Hid]].
  assert (Ht1 : nth_error (tasks ts1) r
                = Some (ScheduledTask.set_enabled true task)).
  { unfold ts1. cbn. now rewrite store_update_same, Ht. }
  assert (Hok1 : TaskScheduler_ok ts1).
  { destruct Hok as [Hreg Hjobs]. split; cbn.
    - intros k r0 Hk. destruct (Hreg k r0 Hk) as [t [Ht0 Hid0]].
      destruct (Nat.eq_dec r0 r) as [->|Hne].
      + exists (ScheduledTask.set_enabled true t).
        rewrite store_update_same, Ht0. split; [reflexivity|exact Hid0].
      + exists t. now rewrite store_update_other by exact Hne.
    - intros j Hj. destruct (Hjobs j Hj) as [Hk [t [Ht0 Hen]]].
      split; [exact Hk|].
      destruct (Nat.eq_dec (job_task j) r) as [Heq|Hne].
      + exists (ScheduledTask.set_enabled true t).
        rewrite Heq in *. rewrite store_update_same, Ht0.
        split; reflexivity.
      + exists t. now rewrite store_update_other by exact Hne. }
  rewrite Ht1.
  assert (Hk1 : dict_get (ScheduledTask.id
                            (ScheduledTask.set_enabled true task))
                         (scheduled_tasks ts1) = Some r).
  { cbn. now rewrite Hid. }
  pose proof (TaskScheduler_ok_arm ts1 r _ Hok1 Ht1 Hk1 eq_refl) as H.
  destruct (_schedule_task r (ScheduledTask.set_enabled true task)
                           (jobs ts1)) as [[u|e] js]; exact H.
Qed.

Lemma TaskScheduler_ok_execute_task (w : World) (clk : nat -> tick)
    (k : string) (r : nat) (ts : TaskScheduler) :
  TaskScheduler_ok ts ->
  dict_get k (scheduled_tasks ts) = Some r ->
  TaskScheduler_ok (_execute_task w clk r ts) /\
  scheduled_tasks (_execute_task w clk r ts) = scheduled_tasks ts.
Proof.
  intros Hok Hk.
  pose proof (registry_injective ts) as Hinj.
  destruct Hok as [Hreg Hjobs].
  destruct (Hreg k r Hk) as [task [Ht Hid]].
  assert (Hk' : dict_get (ScheduledTask.id task) (scheduled_tasks ts)
                = Some r) by now rewrite Hid.
  destruct (_execute_task_registered w clk r ts task Ht Hk')
    as [Hr [Hother [Hregs [_ Hj]]]].
  split; [|exact Hregs]. split.
  - intros k0 r0 Hk0. rewrite Hregs in Hk0.
    destruct (Hreg k0 r0 Hk0) as [t0 [Ht0 Hid0]].
    destruct (Nat.eq_dec r0 r) as [->|Hne].
    + eexists. split; [exact Hr|].
      rewrite (proj1 (task_after_run_id _ _ _)). congruence.
    + exists t0. now rewrite Hother by exact Hne.
  - intros j Hjin.
    assert (Hjin0 : In j (jobs ts))
      by (eapply _execute_task_jobs; exact Hjin).
    destruct (Hjobs j Hjin0) as [Hget [t [Htj Hen]]].
    rewrite Hregs. split; [exact Hget|].
    destruct (Nat.eq_dec (job_task j) r) as [Heq|Hne];
      [|exists t; now rewrite Hother by exact Hne].
    rewrite Heq in Htj, Hget. rewrite Heq.
    rewrite Ht in Htj. injection Htj as <-.
    eexists. split; [exact Hr|].
    assert (Htag : job_tag j = ScheduledTask.id task).
    { apply (Hinj _ _ r); auto. split; auto. }
    destruct (task_after_run_fields (datetime_now (clk 0%nat))
                (fst (ScheduledTask.function task w (fun i => clk (S i))
                        (monitoring_system ts))) task)
      as [_ [_ [_ [Hen' _]]]].
    rewrite Hen'. rewrite Hj in Hjin.
    destruct (fst (ScheduledTask.function task w (fun i => clk (S i))
                     (monitoring_system ts))); [exact Hen|].
    destruct (5 <=? ScheduledTask.error_count task + 1); [|exact Hen].
    apply schedule_clear_incl in Hjin. destruct Hjin as [_ Hne].
    elim Hne. exact Htag.
Qed.

Lemma TaskScheduler_ok_run_job (w : World) (clk : nat -> tick) (j : Job)
    (ts : TaskScheduler) :
  TaskScheduler_ok ts ->
  dict_get (job_tag j) (scheduled_tasks ts) = Some (job_task j) ->
  TaskScheduler_ok (run_job w clk j ts) /\
  scheduled_tasks (run_job w clk j ts) = scheduled_tasks ts.
Proof.
  intros Hok Hk. unfold run_job, job_task in *.
  destruct (job_do j) as [r|r].
  - now apply (TaskScheduler_ok_execute_task w clk (job_tag j)).
  - unfold _check_monthly_task.
    destruct (nth_error (tasks ts) r) as [task|]; [|auto].
    destruct (day (datetime_now (clk 0%nat)) =? 1); [|auto].
    destruct (ScheduledTask.last_run task) as [last|].
    + destruct (negb (month last =? month (datetime_now (clk 0%nat))));
        [|auto].
      now apply (TaskScheduler_ok_execute_task w _ (job_tag j)).
    + now apply (TaskScheduler_ok_execute_task w _ (job_tag j)).
Qed.

Lemma TaskScheduler_ok_run_pending
    (due : list (Job * World * (nat -> tick))) :
  forall ts : TaskScheduler,
    TaskScheduler_ok ts ->
    (forall d, In d due ->
               dict_get (job_tag (fst (fst d))) (scheduled_tasks ts)
               = Some (job_task (fst (fst d)))) ->
    TaskScheduler_ok (run_pending due ts) /\
    scheduled_tasks (run_pending due ts) = scheduled_tasks ts.
Proof.
  unfold run_pending.
  induction due as [|[[j w] clk] due IH]; intros ts Hok Hdue; simpl;
    [auto|].
  destruct (TaskScheduler_ok_run_job w clk j ts Hok)
    as [Hok1 Hreg1].
  { apply (Hdue (j, w, clk)). now left. }
  destruct (IH (run_job w clk j ts) Hok1) as [Hok2 Hreg2].
  { intros d Hd. rewrite Hreg1. apply Hdue. now right. }
  split; [exact Hok2|congruence].
Qed.

Lemma TaskScheduler_ok_toggle (task_id : string) (ts : TaskScheduler) :
  TaskScheduler_ok ts ->
  TaskScheduler_ok (snd (_toggle_task task_id ts)).
Proof.
  intros Hok. unfold _toggle_task.
  destruct (dict_get task_id (scheduled_tasks ts)) as [r|]; [|exact Hok].
  destruct (nth_error (tasks ts) r) as [task|]; [|exact Hok].
  destruct (ScheduledTask.enabled task).
  - now apply TaskScheduler_ok_disable_task.
  - pose proof (TaskScheduler_ok_enable_task task_id ts Hok) as H.
    destruct (enable_task task_id ts) as [[b|e] ts']; exact H.
Qed.

Lemma scheduler_invariant (ts : TaskScheduler) :
  scheduler_reachable ts -> TaskScheduler_ok ts.
Proof.
  induction 1 as [ms| | | | | config ts _ IH|ts _ IH|due ts _ IH Hdue
                  |w clk task_id ts _ IH| |ms ts _ IH].
  - split; [intros k r; discriminate|intros j []].
  - now apply TaskScheduler_ok_add_task.
  - now apply TaskScheduler_ok_remove_task.
  - now apply TaskScheduler_ok_enable_task.
  - now apply TaskScheduler_ok_disable_task.
  - unfold start_scheduler. destruct (scheduler_active ts); exact IH.
  - exact IH.
  - apply TaskScheduler_ok_run_pending; [exact IH|].
    intros d Hd. apply (proj2 IH). now apply Hdue.
  - unfold _run_task_manually.
    destruct (dict_get task_id (scheduled_tasks ts)) as [r|] eqn:E;
      [|exact IH].
    now apply (TaskScheduler_ok_execute_task w clk task_id).
  - now apply TaskScheduler_ok_toggle.
  - exact IH.
Qed.

(** X11: in every state that a scheduler reaches through [add_task],
    [remove_task], [enable_task], [disable_task], starting and stopping,
    the scheduler loop and the dashboard's toggle and manual run, each
    registered id refers to a task object that carries that id, and each
    armed job is tagged with the id under which its task is registered
    and belongs to an enabled task: a removed or disabled task has no
    armed job left. *)
Theorem scheduler_reachable_invariant (ts : TaskScheduler) :
  scheduler_reachable ts ->
  (forall k r, dict_get k (scheduled_tasks ts) = Some r ->
               exists t, nth_error (tasks ts) r = Some t /\
                         ScheduledTask.id t = k) /\
  (forall j, In j (jobs ts) ->
             dict_get (job_tag j) (scheduled_tasks ts) = Some (job_task j) /\
             exists t, nth_error (tasks ts) (job_task j) = Some t /\
                       ScheduledTask.enabled t = true).
Proof.
  exact (scheduler_invariant ts).
Qed.

(* ----------------------------------------------------------------- *)
(** ** What the scheduler loop does to the tasks *)

Lemma task_progress_refl (t : Task) : task_progress t t.
Proof.
  unfold task_progress. repeat split; auto; lia.
Qed.

Lemma task_progress_trans (t1 t2 t3 : Task) :
  task_progress t1 t2 -> task_progress t2 t3 -> task_progress t1 t3.
Proof.
  unfold task_progress.
  intros [A1 [A2 [A3 [A4 [A5 [A6 [A7 A8]]]]]]]
         [B1 [B2 [B3 [B4 [B5 [B6 [B7 B8]]]]]]].
  repeat split; try congruence; auto; lia.
Qed.

Lemma task_progress_after_run (now : datetime) (res : outcome pyval)
    (task : Task) :
  task_progress task (task_after_run now res task).
Proof.
  unfold task_progress, task_after_run.
  destruct res as [v|e]; [simpl; repeat split; auto; lia|].
  destruct (5 <=? _); simpl; repeat split; auto; try lia; discriminate.
Qed.

Lemma _execute_task_step (w : World) (clk : nat -> tick) (k : string)
    (r : nat) (ts : TaskScheduler) :
  TaskScheduler_ok ts ->
  dict_get k (scheduled_tasks ts) = Some r ->
  (forall r0, r0 <> r ->
              nth_error (tasks (_execute_task w clk r ts)) r0
              = nth_error (tasks ts) r0) /\
  tasks_progress ts (_execute_task w clk r ts).
Proof.
  intros [Hreg Hjobs] Hk.
  destruct (Hreg k r Hk) as [task [Ht Hid]].
  assert (Hk' : dict_get (ScheduledTask.id task) (scheduled_tasks ts)
                = Some r) by now rewrite Hid.
  destruct (_execute_task_registered w clk r ts task Ht Hk')
    as [Hr [Hother _]].
  split; [exact Hother|].
  intros r0 t Ht0. destruct (Nat.eq_dec r0 r) as [->|Hne].
  - eexists. split; [exact Hr|].
    rewrite Ht in Ht0. injection Ht0 as <-.
    apply task_progress_after_run.
  - exists t. rewrite Hother by exact Hne.
    split; [exact Ht0|apply task_progress_refl].
Qed.

Lemma run_job_step (w : World) (clk : nat -> tick) (j : Job)
    (ts : TaskScheduler) :
  TaskScheduler_ok ts ->
  dict_get (job_tag j) (scheduled_tasks ts) = Some (job_task j) ->
  (forall r0, r0 <> job_task j ->
              nth_error (tasks (run_job w clk j ts)) r0
              = nth_error (tasks ts) r0) /\
  tasks_progress ts (run_job w clk j ts).
Proof.
  intros Hok Hk.
  assert (Hsame : (forall r0 : nat, r0 <> job_task j ->
                     nth_error (tasks ts) r0 = nth_error (tasks ts) r0) /\
                  tasks_progress ts ts).
  { split; [reflexivity|].
    intros r t Ht. exists t. split; [exact Ht|apply task_progress_refl]. }
  unfold run_job, job_task in *.
  destruct (job_do j) as [r|r].
  - now apply (_execute_task_step w clk (job_tag j)).
  - unfold _check_monthly_task.
    destruct (nth_error (tasks ts) r) as [task|]; [|exact Hsame].
    destruct (day (datetime_now (clk 0%nat)) =? 1); [|exact Hsame].
    destruct (ScheduledTask.last_run task) as [last|].
    + destruct (negb (month last =? month (datetime_now (clk 0%nat))));
        [|exact Hsame].
      now apply (_execute_task_step w _ (job_tag j)).
    + now apply (_execute_task_step w _ (job_tag j)).
Qed.

Lemma run_pending_step (due : list (Job * World * (nat -> tick))) :
  forall ts : TaskScheduler,
    TaskScheduler_ok ts ->
    (forall d, In d due ->
               dict_get (job_tag (fst (fst d))) (scheduled_tasks ts)
               = Some (job_task (fst (fst d)))) ->
    (forall r0, (forall d, In d due -> job_task (fst (fst d)) <> r0) ->
                nth_error (tasks (run_pending due ts)) r0
                = nth_error (tasks ts) r0) /\
    tasks_progress ts (run_pending due ts).
Proof.
  induction due as [|[[j w] clk] due IH]; intros ts Hok Hdue.
  - split; [reflexivity|].
    intros r t Ht. exists t. split; [exact Ht|apply task_progress_refl].
  - change (run_pending ((j, w, clk) :: due) ts)
      with (run_pending due (run_job w clk j ts)).
    assert (Hj : dict_get (job_tag j) (scheduled_tasks ts)
                 = Some (job_task j)).
    { apply (Hdue (j, w, clk)). now left. }
    destruct (TaskScheduler_ok_run_job w clk j ts Hok Hj) as [Hok1 Hreg1].
    destruct (run_job_step w clk j ts Hok Hj) as [Hoth1 Hpro1].
    destruct (IH (run_job w clk j ts) Hok1) as [Hoth2 Hpro2].
    { intros d Hd. rewrite Hreg1. apply Hdue. now right. }
    split.
    + intros r0 Hr0. rewrite Hoth2.
      * apply Hoth1. intros Heq.
        apply (Hr0 (j, w, clk)); [now left|auto].
      * intros d Hd. apply Hr0. now right.
    + intros r t Ht. destruct (Hpro1 r t Ht) as [t1 [Ht1 Hp1]].
      destruct (Hpro2 r t1 Ht1) as [t2 [Ht2 Hp2]].
      exists t2. split; [exact Ht2|].
      exact (task_progress_trans _ _ _ Hp1 Hp2).
Qed.

Lemma scheduler_loop_step (ts ts' : TaskScheduler) :
  scheduler_loop ts ts' ->
  TaskScheduler_ok ts ->
  TaskScheduler_ok ts' /\
  scheduled_tasks ts' = scheduled_tasks ts /\
  (forall j, In j (jobs ts') -> In j (jobs ts)) /\
  (forall r0, (forall j, In j (jobs ts) -> job_task j <> r0) ->
              nth_error (tasks ts') r0 = nth_error (tasks ts) r0) /\
  tasks_progress ts ts'.
Proof.
  induction 1 as [ts|ts ts' due Hdue _ IH]; intros Hok.
  - split; [exact Hok|]. split; [reflexivity|]. split; [auto|].
    split; [reflexivity|].
    intros r t Ht. exists t. split; [exact Ht|apply task_progress_refl].
  - assert (Hreg : forall d, In d due ->
                     dict_get (job_tag (fst (fst d))) (scheduled_tasks ts)
                     = Some (job_task (fst (fst d)))).
    { intros d Hd. apply (proj2 Hok). now apply Hdue. }
    destruct (TaskScheduler_ok_run_pending due ts Hok Hreg)
      as [Hok1 Hreg1].
    destruct (run_pending_step due ts Hok Hreg) as [Hoth1 Hpro1].
    assert (Hjobs1 : forall j, In j (jobs (run_pending due ts)) ->
                               In j (jobs ts)).
    { apply (run_pending_other due (List.length (tasks ts) + 1) ts).
      intros d Hd Heq.
      destruct (proj2 Hok _ (Hdue d Hd)) as [_ [t [Ht _]]].
      assert (job_task (fst (fst d)) < List.length (tasks ts))%nat
        by (apply nth_error_Some; congruence).
      lia. }
    destruct (IH Hok1) as [Hok2 [Hreg2 [Hjobs2 [Hoth2 Hpro2]]]].
    split; [exact Hok2|]. split; [congruence|].
    split; [auto|]. split.
    + intros r0 Hr0. rewrite Hoth2.
      * apply Hoth1. intros d Hd. apply Hr0. now apply Hdue.
      * intros j Hj. apply Hr0. now apply Hjobs1.
    + intros r t Ht. destruct (Hpro1 r t Ht) as [t1 [Ht1 Hp1]].
      destruct (Hpro2 r t1 Ht1) as [t2 [Ht2 Hp2]].
      exists t2. split; [exact Ht2|].
      exact (task_progress_trans _ _ _ Hp1 Hp2).
Qed.


(** X13: a task that is disabled when a tick of the scheduler loop
    starts, by [disable_task], by the dashboard or by the circuit breaker
    in an earlier tick, is not touched by that tick and the following
    ones: however long the loop runs and whatever jobs are due, the task
    object stays exactly as it is.  (The tick in which the circuit
    breaker disables a task is not covered: its due jobs were picked
    while the task was enabled.) *)
Theorem disabled_task_not_run (ts ts' : TaskScheduler) (r : nat)
    (task : Task) :
  scheduler_reachable ts ->
  nth_error (tasks ts) r = Some task ->
  ScheduledTask.enabled task = false ->
  scheduler_loop ts ts' ->
  nth_error (tasks ts') r = Some task.
Proof.
  intros Hreach Ht Hen Hloop.
  pose proof (scheduler_invariant ts Hreach) as Hok.
  destruct (scheduler_loop_step ts ts' Hloop Hok)
    as [_ [_ [_ [Hoth _]]]].
  rewrite Hoth; [exact Ht|].
  intros j Hj Heq. destruct (proj2 Hok j Hj) as [_ [t [Htj Henj]]].
  rewrite Heq in Htj. congruence.
Qed.

(* ----------------------------------------------------------------- *)
(** ** Monthly tasks *)

Lemma _execute_task_last_run (w : World) (clk : nat -> tick) (r : nat)
    (ts : TaskScheduler) (task : Task) :
  nth_error (tasks ts) r = Some task ->
  option_map (@ScheduledTask.last_run Callable)
             (nth_error (tasks (_execute_task w clk r ts)) r)
  = Some (Some (datetime_now (clk 0%nat))).
Proof.
  intros Ht. unfold _execute_task. rewrite Ht.
  assert (Hrun : option_map (@ScheduledTask.last_run Callable)
                   (nth_error
                      (store_update r
                         (ScheduledTask.begin_run (datetime_now (clk 0%nat)))
                         (tasks ts)) r)
                 = Some (Some (datetime_now (clk 0%nat)))).
  { pose proof (@store_update_same Task r
                  (ScheduledTask.begin_run (datetime_now (clk 0%nat)))
                  (tasks ts)) as H0.
    rewrite Ht in H0.
    exact (f_equal (option_map (@ScheduledTask.last_run Callable)) H0). }
  destruct (ScheduledTask.function task w _ _) as [[v|e] ms];
    cbn [tasks with_tasks with_monitoring_system].
  - etransitivity; [|exact Hrun].
    now apply store_update_field.
  - assert (Herr : option_map (@ScheduledTask.last_run Callable)
                     (nth_error
                        (store_update r (ScheduledTask.record_error e)
                           (store_update r
                              (ScheduledTask.begin_run
                                 (datetime_now (clk 0%nat)))
                              (tasks ts))) r)
                   = Some (Some (datetime_now (clk 0%nat)))).
    { etransitivity; [|exact Hrun]. now apply store_update_field. }
    destruct (5 <=? ScheduledTask.error_count task + 1);
      [|exact Herr].
    unfold disable_task. cbn [scheduled_tasks with_tasks
                              with_monitoring_system].
    destruct (dict_get (ScheduledTask.id task) (scheduled_tasks ts))
      as [r'|]; cbn [snd tasks]; [|exact Herr].
    etransitivity; [|exact Herr]. now apply store_update_field.
Qed.

(** X14: once the monthly check has looked at a task on the first day
    of a month, a further check in a month with the same number does not
    run the task: no second run in the same month, and none either on
    the first day of that month in a later year, since the guard compares
    the month numbers only. *)
Theorem monthly_task_once_per_month (w1 w2 : World)
    (clk1 clk2 : nat -> tick) (r : nat) (ts : TaskScheduler)
    (task : Task) :
  nth_error (tasks ts) r = Some task ->
  day (datetime_now (clk1 0%nat)) = 1 ->
  month (datetime_now (clk1 1%nat)) = month (datetime_now (clk1 0%nat)) ->
  month (datetime_now (clk2 0%nat)) = month (datetime_now (clk1 0%nat)) ->
  _check_monthly_task w2 clk2 r (_check_monthly_task w1 clk1 r ts)
  = _check_monthly_task w1 clk1 r ts.
Proof.
  intros Ht Hday Hm1 Hm2.
  assert (H : exists t1 d,
            nth_error (tasks (_check_monthly_task w1 clk1 r ts)) r
            = Some t1 /\
            ScheduledTask.last_run t1 = Some d /\
            month d = month (datetime_now (clk1 0%nat))).
  { assert (Hexec : exists t1 d,
              nth_error (tasks (_execute_task w1 (fun i => clk1 (S i)) r ts))
                        r = Some t1 /\
              ScheduledTask.last_run t1 = Some d /\
              month d = month (datetime_now (clk1 0%nat))).
    { pose proof (_execute_task_last_run w1 (fun i => clk1 (S i)) r ts
                    task Ht) as Hl.
      destruct (nth_error
                  (tasks (_execute_task w1 (fun i => clk1 (S i)) r ts)) r)
        as [t1|]; [|discriminate].
      simpl in Hl. injection Hl as Hl.
      exists t1, (datetime_now (clk1 1%nat)). auto. }
    unfold _check_monthly_task. rewrite Ht, Hday. cbn [Z.eqb Pos.eqb].
    destruct (ScheduledTask.last_run task) as [last|] eqn:El;
      [|exact Hexec].
    destruct (month last =? month (datetime_now (clk1 0%nat))) eqn:E;
      cbn [negb]; [|exact Hexec].
    apply Z.eqb_eq in E. exists task, last. auto. }
  destruct H as [t1 [d [Ht1 [Hd Hmd]]]].
  unfold _check_monthly_task at 1. rewrite Ht1, Hd.
  destruct (day (datetime_now (clk2 0%nat)) =? 1); [|reflexivity].
  rewrite Hm2, Hmd, Z.eqb_refl. reflexivity.
Qed.

(* ----------------------------------------------------------------- *)
(** ** Enabling and disabling *)

Lemma jobs_of_snoc (r r0 : nat) (ts : TaskScheduler) (j : Job) :
  List.length (filter (fun j0 => Nat.eqb (job_task j0) r0)
                      (jobs ts ++ [j]))
  = (jobs_of r0 ts + (if Nat.eqb (job_task j) r0 then 1 else 0))%nat.
Proof.
  unfold jobs_of. rewrite filter_app, length_app. simpl.
  destruct (Nat.eqb (job_task j) r0); reflexivity.
Qed.

(** X15: [enable_task] on a registered task with a supported schedule
    arms one more job for it each time it is called, also when the task
    is enabled and armed already; the jobs of the other tasks stay. *)
Theorem enable_task_arms_one_more (task_id : string) (ts : TaskScheduler)
    (r : nat) (task : Task) :
  dict_get task_id (scheduled_tasks ts) = Some r ->
  nth_error (tasks ts) r = Some task ->
  supported_cadence (ScheduledTask.schedule_type task)
                    (ScheduledTask.schedule_value task) = true ->
  let res := enable_task task_id ts in
  fst res = Returned true /\
  nth_error (tasks (snd res)) r
  = Some (ScheduledTask.set_enabled true task) /\
  scheduled_tasks (snd res) = scheduled_tasks ts /\
  jobs_of r (snd res) = S (jobs_of r ts) /\
  (forall r0, r0 <> r -> jobs_of r0 (snd res) = jobs_of r0 ts /\
                         nth_error (tasks (snd res)) r0
                         = nth_error (tasks ts) r0).
Proof.
  intros Hk Ht Hsup. cbv zeta. unfold enable_task. rewrite Hk.
  cbn [tasks with_tasks jobs].
  rewrite store_update_same, Ht. cbn [option_map].
  destruct (_schedule_task_supported r (ScheduledTask.set_enabled true task)
              (jobs ts) Hsup) as [c [f [-> Hr]]].
  cbn [fst snd with_jobs with_tasks tasks scheduled_tasks].
  split; [reflexivity|].
  split; [now rewrite store_update_same, Ht|].
  split; [reflexivity|].
  unfold jobs_of at 1. unfold with_jobs. cbn [jobs].
  rewrite (jobs_of_snoc r r ts), Hr, Nat.eqb_refl.
  split; [lia|].
  intros r0 Hne. unfold jobs_of at 1. cbn [jobs].
  rewrite (jobs_of_snoc r r0 ts), Hr.
  destruct (Nat.eqb_spec r r0) as [->|_]; [congruence|].
  split; [lia|]. now apply store_update_other.
Qed.

Lemma store_update_idem {A} (r : nat) (f : A -> A) (h : list A) :
  (forall a, f (f a) = f a) ->
  store_update r f (store_update r f h) = store_update r f h.
Proof.
  intros Hf. revert r.
  induction h as [|a h IH]; intros [|r]; simpl; auto; congruence.
Qed.

(** X16: calling [disable_task] a second time changes nothing more and
    returns what the first call returned; for a registered id the first
    call leaves no armed job tagged with the id and keeps the jobs of the
    other ids in their order, and the registry stays as it is. *)
Theorem disable_task_idempotent (task_id : string) (ts : TaskScheduler) :
  let res := disable_task task_id ts in
  disable_task task_id (snd res) = (fst res, snd res) /\
  scheduled_tasks (snd res) = scheduled_tasks ts /\
  (fst res = true ->
   jobs (snd res)
   = filter (fun j => negb (String.eqb (job_tag j) task_id)) (jobs ts) /\
   forall j, In j (jobs (snd res)) -> job_tag j <> task_id).
Proof.
  cbv zeta. unfold disable_task.
  destruct (dict_get task_id (scheduled_tasks ts)) as [r|] eqn:E;
    cbn [fst snd scheduled_tasks tasks jobs].
  - rewrite E, schedule_clear_idempotent, store_update_idem
      by reflexivity.
    split; [reflexivity|]. split; [reflexivity|].
    intros _. split; [reflexivity|].
    intros j Hj. now apply schedule_clear_incl in Hj.
  - rewrite E. split; [reflexivity|]. split; [reflexivity|discriminate].
Qed.

(* ----------------------------------------------------------------- *)
(** ** Removing, registering again and toggling *)

(** X17: after [remove_task] of a registered id the id is free and no
    armed job carries it, a second [remove_task] fails and changes
    nothing, and [add_task] can register the id again: it then refers to
    a new task object with fresh counters, while the registrations of
    the other ids stay. *)
Theorem remove_then_add_task (task_id name : string) (function : Callable)
    (schedule_type : string) (schedule_value : pyval) (enabled : bool)
    (ts : TaskScheduler) :
  dict_mem task_id (scheduled_tasks ts) = true ->
  let removed := remove_task task_id ts in
  let res := add_task task_id name function schedule_type schedule_value
                      enabled (snd removed) in
  fst removed = true /\
  dict_get task_id (scheduled_tasks (snd removed)) = None /\
  (forall j, In j (jobs (snd removed)) -> job_tag j <> task_id) /\
  remove_task task_id (snd removed) = (false, snd removed) /\
  tasks (snd res)
  = tasks ts ++ [ScheduledTask.mk task_id name function schedule_type
                                  schedule_value enabled None None 0 0
                                  None] /\
  dict_get task_id (scheduled_tasks (snd res))
  = Some (List.length (tasks ts)) /\
  (forall k, k <> task_id ->
             dict_get k (scheduled_tasks (snd res))
             = dict_get k (scheduled_tasks ts)).
Proof.
  intros Hmem. cbv zeta. unfold remove_task. rewrite Hmem.
  cbn [fst snd scheduled_tasks jobs tasks].
  assert (Hfree : dict_mem task_id (dict_del task_id (scheduled_tasks ts))
                  = false).
  { unfold dict_mem. now rewrite dict_get_del_same. }
  split; [reflexivity|].
  split; [apply dict_get_del_same|].
  split; [intros j Hj; now apply schedule_clear_incl in Hj|].
  split; [now rewrite Hfree|].
  unfold add_task. cbn [scheduled_tasks tasks jobs monitoring_system
                        scheduler_active].
  rewrite Hfree.
  assert (Hreg : forall k, k <> task_id ->
            dict_get k (dict_set task_id (List.length (tasks ts))
                          (dict_del task_id (scheduled_tasks ts)))
            = dict_get k (scheduled_tasks ts)).
  { intros k Hne. rewrite dict_get_set_other by exact Hne.
    now apply dict_get_del_other. }
  destruct enabled.
  - destruct (_schedule_task _ _ _) as [[u|e] js];
      cbn [snd with_jobs tasks scheduled_tasks];
      (split; [reflexivity|]); (split; [apply dict_get_set_same|]);
      exact Hreg.
  - cbn [snd tasks scheduled_tasks].
    split; [reflexivity|]. split; [apply dict_get_set_same|exact Hreg].
Qed.

Lemma filter_none {A} (P : A -> bool) (l : list A) :
  (forall x, In x l -> P x = false) -> filter P l = [].
Proof.
  induction l as [|a l IH]; intros H; simpl; auto.
  rewrite (H a (or_introl eq_refl)). apply IH.
  intros x Hx. apply H. now right.
Qed.

Lemma jobs_of_disabled (ts : TaskScheduler) (r : nat) (task : Task) :
  TaskScheduler_ok ts ->
  nth_error (tasks ts) r = Some task ->
  ScheduledTask.enabled task = false ->
  jobs_of r ts = 0%nat.
Proof.
  intros [_ Hjobs] Ht Hen. unfold jobs_of.
  rewrite filter_none; [reflexivity|].
  intros j Hj. apply Nat.eqb_neq. intros Heq.
  destruct (Hjobs j Hj) as [_ [t [Htj Henj]]].
  rewrite Heq in Htj. congruence.
Qed.

Lemma disable_task_at (task_id : string) (ts : TaskScheduler) (r : nat)
    (task : Task) :
  dict_get task_id (scheduled_tasks ts) = Some r ->
  nth_error (tasks ts) r = Some task ->
  scheduled_tasks (snd (disable_task task_id ts)) = scheduled_tasks ts /\
  nth_error (tasks (snd (disable_task task_id ts))) r
  = Some (ScheduledTask.set_enabled false task).
Proof.
  intros Hk Ht. unfold disable_task. rewrite Hk. cbn.
  split; [reflexivity|]. now rewrite store_update_same, Ht.
Qed.

Lemma enable_task_arms (task_id : string) (ts : TaskScheduler)
    (r : nat) (task : Task) :
  dict_get task_id (scheduled_tasks ts) = Some r ->
  nth_error (tasks ts) r = Some task ->
  supported_cadence (ScheduledTask.schedule_type task)
                    (ScheduledTask.schedule_value task) = true ->
  scheduled_tasks (snd (enable_task task_id ts)) = scheduled_tasks ts /\
  nth_error (tasks (snd (enable_task task_id ts))) r
  = Some (ScheduledTask.set_enabled true task) /\
  jobs_of r (snd (enable_task task_id ts)) = S (jobs_of r ts).
Proof.
  intros Hk Ht Hsup. unfold enable_task. rewrite Hk.
  cbn [tasks with_tasks jobs].
  rewrite store_update_same, Ht. cbn [option_map].
  destruct (_schedule_task_supported r (ScheduledTask.set_enabled true task)
              (jobs ts) Hsup) as [c [f [-> Hr]]].
  cbn [fst snd with_jobs with_tasks tasks scheduled_tasks].
  split; [reflexivity|].
  split; [now rewrite store_update_same, Ht|].
  unfold jobs_of at 1. unfold with_jobs. cbn [jobs].
  rewrite (jobs_of_snoc r r ts), Hr, Nat.eqb_refl. lia.
Qed.

Lemma _toggle_task_snd (task_id : string) (ts : TaskScheduler) (r : nat)
    (task : Task) :
  dict_get task_id (scheduled_tasks ts) = Some r ->
  nth_error (tasks ts) r = Some task ->
  snd (_toggle_task task_id ts)
  = if ScheduledTask.enabled task
    then snd (disable_task task_id ts)
    else snd (enable_task task_id ts).
Proof.
  intros Hk Ht. unfold _toggle_task. rewrite Hk, Ht.
  destruct (ScheduledTask.enabled task); [reflexivity|].
  destruct (enable_task task_id ts) as [[b|e] ts']; reflexivity.
Qed.

(** X18: in a reachable scheduler state, toggling a registered task
    with a supported schedule twice from the dashboard gives back the
    task object as it was, and leaves an enabled task with exactly one
    armed job and a disabled task with none. *)
Theorem toggle_task_twice (task_id : string) (ts : TaskScheduler)
    (r : nat) (task : Task) :
  scheduler_reachable ts ->
  dict_get task_id (scheduled_tasks ts) = Some r ->
  nth_error (tasks ts) r = Some task ->
  supported_cadence (ScheduledTask.schedule_type task)
                    (ScheduledTask.schedule_value task) = true ->
  let ts2 := snd (_toggle_task task_id (snd (_toggle_task task_id ts))) in
  scheduled_tasks ts2 = scheduled_tasks ts /\
  nth_error (tasks ts2) r = Some task /\
  jobs_of r ts2 = (if ScheduledTask.enabled task then 1 else 0)%nat.
Proof.
  intros Hreach Hk Ht Hsup. cbv zeta.
  pose proof (scheduler_invariant ts Hreach) as Hok.
  rewrite (_toggle_task_snd task_id ts r task Hk Ht).
  destruct (ScheduledTask.enabled task) eqn:Hen.
  - destruct (disable_task_at task_id ts r task Hk Ht) as [Hreg1 Ht1].
    pose proof (TaskScheduler_ok_disable_task task_id ts Hok) as Hok1.
    set (ts1 := snd (disable_task task_id ts)) in *.
    rewrite <- Hreg1 in Hk.
    rewrite (_toggle_task_snd task_id ts1 r _ Hk Ht1).
    cbn [ScheduledTask.enabled ScheduledTask.set_enabled].
    destruct (enable_task_arms task_id ts1 r _ Hk Ht1 Hsup)
      as [Hreg2 [Ht2 Hj2]].
    split; [congruence|]. split.
    + rewrite Ht2. f_equal. destruct task. simpl in *. now subst.
    + rewrite Hj2.
      now rewrite (jobs_of_disabled ts1 r _ Hok1 Ht1 eq_refl).
  - destruct (enable_task_arms task_id ts r task Hk Ht Hsup)
      as [Hreg1 [Ht1 Hj1]].
    pose proof (TaskScheduler_ok_enable_task task_id ts Hok) as Hok1.
    set (ts1 := snd (enable_task task_id ts)) in *.
    rewrite <- Hreg1 in Hk.
    rewrite (_toggle_task_snd task_id ts1 r _ Hk Ht1).
    cbn [ScheduledTask.enabled ScheduledTask.set_enabled].
    destruct (disable_task_at task_id ts1 r _ Hk Ht1) as [Hreg2 Ht2].
    pose proof (TaskScheduler_ok_disable_task task_id ts1 Hok1) as Hok2.
    split; [congruence|]. split.
    + rewrite Ht2. f_equal. destruct task. simpl in *. now subst.
    + now apply (jobs_of_disabled _ r _ Hok2 Ht2).
Qed.

(* ----------------------------------------------------------------- *)
(** ** The default tasks *)

Lemma _schedule_task_behind (armed : list Job) (r : nat) (task : Task)
    (js : list Job) :
  _schedule_task r task (armed ++ js)
  = (fst (_schedule_task r task js),
     armed ++ snd (_schedule_task r task js)).
Proof.
  unfold _schedule_task.
  destruct (String.eqb (ScheduledTask.schedule_type task) "interval").
  { destruct (schedule_accepts_interval _); cbn [fst snd];
      now rewrite ?app_assoc. }
  destruct (String.eqb (ScheduledTask.schedule_type task) "daily").
  { destruct (schedule_accepts_at _); cbn [fst snd];
      now rewrite ?app_assoc. }
  destruct (String.eqb (ScheduledTask.schedule_type task) "weekly").
  { destruct (ScheduledTask.schedule_value task); cbn [fst snd];
      try reflexivity.
    destruct (weekday_of_name (lower s)); cbn [fst snd];
      now rewrite ?app_assoc. }
  destruct (String.eqb (ScheduledTask.schedule_type task) "monthly");
    cbn [fst snd]; now rewrite ?app_assoc.
Qed.

Lemma add_task_keeps_armed (armed : list Job) (task_id name : string)
    (function : Callable) (schedule_type : string)
    (schedule_value : pyval) (enabled : bool) :
  keeps_armed armed
    (add_task task_id name function schedule_type schedule_value enabled).
Proof.
  intros ts. unfold add_task, behind, with_jobs.
  cbn [scheduled_tasks tasks jobs monitoring_system scheduler_active].
  destruct (dict_mem task_id (scheduled_tasks ts)); [reflexivity|].
  destruct enabled; [|reflexivity].
  rewrite _schedule_task_behind.
  destruct (_schedule_task _ _ (jobs ts)) as [[u|e] js]; reflexivity.
Qed.

Lemma and_then_keeps_armed {A} (armed : list Job)
    (step : TaskScheduler -> outcome A * TaskScheduler)
    (rest : TaskScheduler -> outcome unit * TaskScheduler) :
  keeps_armed armed step -> keeps_armed armed rest ->
  keeps_armed armed (and_then step rest).
Proof.
  intros Hs Hr ts. unfold and_then. rewrite Hs.
  destruct (step ts) as [[a|e] ts1]; cbn [fst snd]; [apply Hr|reflexivity].
Qed.

Lemma skip_keeps_armed (armed : list Job) : keeps_armed armed skip.
Proof.
  intros ts. reflexivity.
Qed.

Lemma _setup_default_tasks_keeps_armed (armed : list Job)
    (config : AutomationConfig) :
  keeps_armed armed (_setup_default_tasks config).
Proof.
  unfold _setup_default_tasks.
  destruct (reports_enabled config), (backup_enabled config);
    try destruct (String.eqb (backup_schedule config) "daily");
    try destruct (String.eqb (backup_schedule config) "weekly");
    repeat first [apply and_then_keeps_armed
                 |apply add_task_keeps_armed
                 |apply skip_keeps_armed].
Qed.

(** The default tasks on the first scheduler of a process. *)
Lemma default_tasks_first (config : AutomationConfig)
    (ms : MonitoringSystem) :
  schedule_accepts_at (PyStr "08:00") = true ->
  schedule_accepts_at (PyStr "02:00") = true ->
  schedule_accepts_at (PyStr "03:00") = true ->
  schedule_accepts_interval (PyInt 300) = true ->
  let res := _setup_default_tasks config
               (mk_TaskScheduler ms false [] [] []) in
  let ids := default_task_ids config in
  fst res = Returned tt /\
  monitoring_system (snd res) = ms /\
  scheduler_active (snd res) = false /\
  map (@ScheduledTask.id Callable) (tasks (snd res)) = ids /\
  scheduled_tasks (snd res) = combine ids (seq 0 (List.length ids)) /\
  map job_tag (jobs (snd res)) = ids /\
  map job_task (jobs (snd res)) = seq 0 (List.length ids) /\
  Forall (fun t => ScheduledTask.enabled t = true /\
                   ScheduledTask.last_run t = None /\
                   ScheduledTask.run_count t = 0 /\
                   ScheduledTask.error_count t = 0)
         (tasks (snd res)).
Proof.
  intros H1 H2 H3 H4.
  destruct config as [re me be bs th].
  unfold _setup_default_tasks, default_task_ids.
  cbn [reports_enabled backup_enabled backup_schedule].
  destruct re, be;
    try destruct (String.eqb bs "daily");
    try destruct (String.eqb bs "weekly");
    unfold and_then, skip, add_task, _schedule_task;
    cbn; rewrite ?H1, ?H2, ?H3, ?H4; cbn;
    rewrite ?H1, ?H2, ?H3, ?H4; cbn;
    rewrite ?H1, ?H2, ?H3, ?H4; cbn;
    rewrite ?H1, ?H2, ?H3, ?H4; cbn;
    repeat split; repeat constructor.
Qed.

(** X19: [_setup_default_tasks], run on the scheduler object that the
    constructor has just built (nothing registered, no task object) while
    [schedule] holds the jobs [armed], which are none for the first
    scheduler of a process and the jobs of the earlier schedulers
    otherwise.  When the [schedule] package accepts the four cadence
    values of the defaults it returns normally and registers, in this
    order, the two report tasks if reports are enabled, the daily or the
    weekly backup task if backups are enabled and the backup schedule is
    one of the two (no backup task for any other schedule), and then the
    weekly optimisation, the clean-up and the connection check; each of
    them is enabled and has not run yet, and for each of them one job is
    added, in the same order, behind the jobs armed before. *)
Theorem default_tasks_registered (config : AutomationConfig)
    (ms : MonitoringSystem) (armed : list Job) :
  schedule_accepts_at (PyStr "08:00") = true ->
  schedule_accepts_at (PyStr "02:00") = true ->
  schedule_accepts_at (PyStr "03:00") = true ->
  schedule_accepts_interval (PyInt 300) = true ->
  let res := _setup_default_tasks config
               (mk_TaskScheduler ms false [] [] armed) in
  let ids := default_task_ids config in
  fst res = Returned tt /\
  monitoring_system (snd res) = ms /\
  scheduler_active (snd res) = false /\
  map (@ScheduledTask.id Callable) (tasks (snd res)) = ids /\
  scheduled_tasks (snd res) = combine ids (seq 0 (List.length ids)) /\
  (exists new,
     jobs (snd res) = armed ++ new /\
     map job_tag new = ids /\
     map job_task new = seq 0 (List.length ids)) /\
  Forall (fun t => ScheduledTask.enabled t = true /\
                   ScheduledTask.last_run t = None /\
                   ScheduledTask.run_count t = 0 /\
                   ScheduledTask.error_count t = 0)
         (tasks (snd res)).
Proof.
  intros H1 H2 H3 H4.
  destruct (default_tasks_first config ms H1 H2 H3 H4)
    as [F1 [F2 [F3 [F4 [F5 [F6 [F7 F8]]]]]]].
  pose proof (_setup_default_tasks_keeps_armed armed config
                (mk_TaskScheduler ms false [] [] [])) as Hk.
  unfold behind at 1 in Hk. unfold with_jobs in Hk.
  cbn [jobs monitoring_system scheduler_active tasks scheduled_tasks] in Hk.
  rewrite app_nil_r in Hk.
  cbv zeta. rewrite Hk. cbn [fst snd].
  unfold behind, with_jobs.
  cbn [jobs monitoring_system scheduler_active tasks scheduled_tasks].
  split; [exact F1|]. split; [exact F2|]. split; [exact F3|].
  split; [exact F4|]. split; [exact F5|].
  split; [|exact F8].
  eexists. split; [reflexivity|]. split; [exact F6|exact F7].
Qed.

(* ----------------------------------------------------------------- *)
(** ** Schedules that arm nothing *)

Lemma _schedule_task_silent (r : nat) (task : Task) (js : list Job) :
  silent_schedule (ScheduledTask.schedule_type task)
                  (ScheduledTask.schedule_value task) = true ->
  _schedule_task r task js = (Returned tt, js).
Proof.
  unfold silent_schedule, _schedule_task.
  destruct (String.eqb (ScheduledTask.schedule_type task) "interval");
    [discriminate|].
  destruct (String.eqb (ScheduledTask.schedule_type task) "daily");
    [discriminate|].
  destruct (String.eqb (ScheduledTask.schedule_type task) "weekly").
  { destruct (ScheduledTask.schedule_value task); try discriminate.
    destruct (weekday_of_name (lower s)); [discriminate|reflexivity]. }
  destruct (String.eqb (ScheduledTask.schedule_type task) "monthly");
    [discriminate|reflexivity].
Qed.

(** X20: [add_task] accepts an enabled task with a fresh id whose
    schedule arms nothing and raises nothing, an unknown schedule type or
    a weekly schedule whose value is a string that names no weekday: it
    returns True and arms no job; the task stays registered and enabled,
    but the scheduler loop never runs it, whatever other jobs it runs. *)
Theorem unsupported_schedule_never_runs (task_id name : string)
    (function : Callable) (schedule_type : string)
    (schedule_value : pyval) (ts : TaskScheduler) :
  scheduler_reachable ts ->
  dict_mem task_id (scheduled_tasks ts) = false ->
  silent_schedule schedule_type schedule_value = true ->
  let res := add_task task_id name function schedule_type schedule_value
                      true ts in
  fst res = Returned true /\
  jobs (snd res) = jobs ts /\
  forall ts', scheduler_loop (snd res) ts' ->
    dict_get task_id (scheduled_tasks ts') = Some (List.length (tasks ts)) /\
    nth_error (tasks ts') (List.length (tasks ts))
    = Some (ScheduledTask.mk task_id name function schedule_type
                             schedule_value true None None 0 0 None).
Proof.
  intros Hreach Hmem Hsil res. subst res.
  pose proof (scheduler_invariant ts Hreach) as Hok.
  pose proof (TaskScheduler_ok_add_task task_id name function schedule_type
                schedule_value true ts Hok) as Hok1.
  assert (Hres : add_task task_id name function schedule_type
                          schedule_value true ts
                 = (Returned true,
                    mk_TaskScheduler (monitoring_system ts)
                      (scheduler_active ts)
                      (tasks ts ++
                         [ScheduledTask.mk task_id name function
                            schedule_type schedule_value true None None
                            0 0 None])
                      (dict_set task_id (List.length (tasks ts))
                                (scheduled_tasks ts))
                      (jobs ts))).
  { unfold add_task. rewrite Hmem. cbn [jobs].
    now rewrite (_schedule_task_silent (List.length (tasks ts))
                   (ScheduledTask.mk task_id name function schedule_type
                      schedule_value true None None 0 0 None)
                   (jobs ts) Hsil). }
  rewrite Hres in *. cbn [fst snd jobs].
  split; [reflexivity|]. split; [reflexivity|].
  intros ts' Hloop.
  destruct (scheduler_loop_step _ ts' Hloop Hok1)
    as [_ [Hreg' [_ [Hoth _]]]].
  cbn [scheduled_tasks tasks jobs] in Hreg', Hoth.
  split.
  - rewrite Hreg'. apply dict_get_set_same.
  - rewrite Hoth; [apply nth_error_new|].
    intros j Hj Heq.
    destruct (proj2 Hok j Hj) as [_ [t [Ht _]]].
    assert (job_task j < List.length (tasks ts))%nat
      by (apply nth_error_Some; congruence).
    lia.
Qed.

(* ----------------------------------------------------------------- *)
(** ** Connection alerts *)

(** X21: a failed connection check adds an active alert also when
    connection alerts are active already; unless it falls into the
    second of an active one, the number of active connection alerts grows
    by one with every failed check. *)
Theorem connection_alerts_accumulate (w : World) (clk : nat -> tick)
    (ms : MonitoringSystem) :
  test_connection w = Returned false ->
  AlertManager_ok (alert_manager ms) ->
  dict_mem (make_alert_id "connection" "database_connection"
                          (time_time (clk 0%nat)))
           (active_alerts (alert_manager ms)) = false ->
  let ms' := snd (_check_database_connection w clk ms) in
  count_active "database_connection" (alert_manager ms')
  = S (count_active "database_connection" (alert_manager ms)) /\
  List.length (active_alerts (alert_manager ms'))
  = S (List.length (active_alerts (alert_manager ms))).
Proof.
  intros Hw Hok Hfresh. cbv zeta. unfold _check_database_connection.
  rewrite Hw. cbn [negb]. rewrite create_alert_eq.
  cbn [snd alert_manager].
  assert (Hnone : dict_get (make_alert_id "connection" "database_connection"
                                          (time_time (clk 0%nat)))
                           (active_alerts (alert_manager ms)) = None).
  { unfold dict_mem in Hfresh.
    destruct (dict_get _ (active_alerts (alert_manager ms)));
      [discriminate|reflexivity]. }
  unfold count_active. cbn [active_alerts].
  rewrite (dict_set_fresh _ _ _ Hnone).
  split.
  - unfold dict_values. rewrite map_app, filter_app, length_app.
    cbn [map snd filter].
    unfold has_metric_name at 2. cbn [alerts].
    rewrite nth_error_new. cbn [Alert.metric_name].
    rewrite String.eqb_refl. cbn [List.length].
    rewrite Nat.add_1_r. f_equal. f_equal.
    apply filter_ext_in. intros r Hr.
    unfold has_metric_name. cbn [alerts].
    rewrite nth_error_app1; [reflexivity|].
    now apply active_address_allocated.
  - rewrite length_app. cbn [List.length]. lia.
Qed.

(* ----------------------------------------------------------------- *)
(** ** The listed alerts and the active set *)

Lemma active_alert_objects_In (am : AlertManager) (a : Alert.t) :
  In a (active_alert_objects am) ->
  exists k r, In (k, r) (active_alerts am) /\
              nth_error (alerts am) r = Some a.
Proof.
  unfold active_alert_objects. intros H. apply in_flat_map in H.
  destruct H as [r [Hr Ha]].
  unfold dict_values in Hr. apply in_map_iff in Hr.
  destruct Hr as [[k r'] [Heq Hin]]. simpl in Heq. subst r'.
  exists k, r. split; [exact Hin|].
  destruct (nth_error (alerts am) r) as [a'|]; [|elim Ha].
  destruct Ha as [->|[]]. reflexivity.
Qed.

Lemma active_alert_objects_length (am : AlertManager) :
  (forall k r, In (k, r) (active_alerts am) ->
               exists a, nth_error (alerts am) r = Some a) ->
  List.length (active_alert_objects am)
  = List.length (active_alerts am).
Proof.
  unfold active_alert_objects, dict_values.
  induction (active_alerts am) as [|[k r] d IH]; intros H; simpl; auto.
  destruct (H k r (or_introl eq_refl)) as [a ->]. simpl.
  f_equal. apply IH. intros k' r' Hin. apply (H k' r'). now right.
Qed.

(** X22: in every state that an alert manager reaches through
    [create_alert] and [resolve_alert], [get_active_alerts] without a
    severity lists as many alerts as the active set has entries, the
    summary counts the same number, and every alert that
    [get_active_alerts] returns, with or without a severity, is
    unresolved, has no resolution time and is the alert that the active
    set holds under its id. *)
Theorem listed_alerts_are_active (am : AlertManager) :
  manager_reachable am ->
  List.length (get_active_alerts None am)
  = List.length (active_alerts am) /\
  total_active (get_alert_summary am) = List.length (active_alerts am) /\
  forall severity a,
    In a (get_active_alerts severity am) ->
    Alert.resolved a = false /\
    Alert.resolved_timestamp a = None /\
    exists r, dict_get (Alert.id a) (active_alerts am) = Some r /\
              nth_error (alerts am) r = Some a.
Proof.
  intros Hreach.
  destruct (manager_invariant am Hreach) as [_ [Hact [Hk [_ Hres]]]].
  assert (Hlen : List.length (active_alert_objects am)
                 = List.length (active_alerts am)).
  { apply active_alert_objects_length. intros k r Hin.
    destruct (Hact k r Hin) as [a [Ha _]]. eauto. }
  split; [|split].
  - unfold get_active_alerts.
    now rewrite (Permutation_length (sorted_desc_perm _ _)).
  - rewrite <- Hlen. unfold get_alert_summary.
    destruct (active_alert_objects am); reflexivity.
  - intros severity a Hin.
    assert (Hobj : In a (active_alert_objects am)).
    { unfold get_active_alerts in Hin.
      apply (Permutation_in _ (sorted_desc_perm _ _)) in Hin.
      destruct severity as [[|c s]|]; auto.
      apply filter_In in Hin. tauto. }
    apply active_alert_objects_In in Hobj.
    destruct Hobj as [k [r [Hkr Ha]]].
    destruct (Hact k r Hkr) as [a' [Ha' [Hid Hun]]].
    rewrite Ha in Ha'. injection Ha' as <-.
    split; [exact Hun|]. split.
    + destruct (Alert.resolved_timestamp a) eqn:E; [|reflexivity].
      assert (Htrue : Alert.resolved a = true).
      { apply (Hres a); [eapply nth_error_In; exact Ha|].
        rewrite E. discriminate. }
      congruence.
    + exists r. split; [|exact Ha].
      rewrite Hid. now apply dict_In_get.
Qed.

(* ----------------------------------------------------------------- *)
(** ** The circuit breaker and the scheduler loop *)

Lemma filter_length_perm {A} (P : A -> bool) (l l' : list A) :
  Permutation l l' ->
  List.length (filter P l) = List.length (filter P l').
Proof.
  induction 1 as [|x l l' _ IH|x y l|l l' l'' _ IH1 _ IH2]; simpl; auto.
  - destruct (P x); simpl; auto.
  - destruct (P x), (P y); reflexivity.
  - congruence.
Qed.

Lemma due_once_In (due : list (Job * World * (nat -> tick)))
    (ts : TaskScheduler) (d : Job * World * (nat -> tick)) :
  due_once due ts -> In d due -> In (fst (fst d)) (jobs ts).
Proof.
  intros [rest Hp] Hd. apply (Permutation_in _ Hp).
  apply in_or_app. left.
  now apply (in_map (fun d0 : Job * World * (nat -> tick) =>
                       fst (fst d0))).
Qed.

Lemma due_of_le (r : nat) (due : list (Job * World * (nat -> tick)))
    (ts : TaskScheduler) :
  due_once due ts -> (due_of r due <= jobs_of r ts)%nat.
Proof.
  intros [rest Hp]. unfold due_of, jobs_of.
  rewrite <- (filter_length_perm _ _ _ Hp), filter_app, length_app.
  assert (H : List.length
                (filter (fun d => Nat.eqb (job_task (fst (fst d))) r) due)
              = List.length
                  (filter (fun j => Nat.eqb (job_task j) r)
                     (map (fun d : Job * World * (nat -> tick) =>
                             fst (fst d)) due))).
  { clear. induction due as [|d due IH]; simpl; auto.
    destruct (Nat.eqb (job_task (fst (fst d))) r); simpl; auto. }
  lia.
Qed.

Lemma scheduler_ticks_loop (ts ts' : TaskScheduler) :
  scheduler_ticks ts ts' -> scheduler_loop ts ts'.
Proof.
  induction 1 as [ts|ts ts' due Hdue _ IH]; [apply loop_done|].
  apply (loop_tick ts ts' due); [|exact IH].
  intros d Hd. now apply (due_once_In due).
Qed.

Lemma jobs_of_schedule_clear (r : nat) (tag : string) (js : list Job) :
  (List.length (filter (fun j => Nat.eqb (job_task j) r)
                       (schedule_clear tag js))
   <= List.length (filter (fun j => Nat.eqb (job_task j) r) js))%nat.
Proof.
  unfold schedule_clear. induction js as [|j js IH]; simpl; auto.
  destruct (negb (String.eqb (job_tag j) tag)); simpl;
    destruct (Nat.eqb (job_task j) r); simpl; lia.
Qed.

Lemma _execute_task_jobs_of (w : World) (clk : nat -> tick) (k : string)
    (r' r : nat) (ts : TaskScheduler) :
  TaskScheduler_ok ts ->
  dict_get k (scheduled_tasks ts) = Some r' ->
  (jobs_of r (_execute_task w clk r' ts) <= jobs_of r ts)%nat.
Proof.
  intros [Hreg _] Hk.
  destruct (Hreg k r' Hk) as [task [Ht Hid]].
  assert (Hk' : dict_get (ScheduledTask.id task) (scheduled_tasks ts)
                = Some r') by now rewrite Hid.
  destruct (_execute_task_registered w clk r' ts task Ht Hk')
    as [_ [_ [_ [_ Hj]]]].
  unfold jobs_of. rewrite Hj.
  destruct (fst (ScheduledTask.function task w (fun i => clk (S i))
                   (monitoring_system ts))); [lia|].
  destruct (5 <=? ScheduledTask.error_count task + 1); [|lia].
  apply jobs_of_schedule_clear.
Qed.

(** One execution of a task whose callable always fails. *)
Lemma _execute_task_breaker (w : World) (clk : nat -> tick) (k : string)
    (r : nat) (ts : TaskScheduler) (t : Task) :
  TaskScheduler_ok ts ->
  dict_get k (scheduled_tasks ts) = Some r ->
  nth_error (tasks ts) r = Some t ->
  always_fails (ScheduledTask.function t) ->
  exists t1,
    nth_error (tasks (_execute_task w clk r ts)) r = Some t1 /\
    ScheduledTask.function t1 = ScheduledTask.function t /\
    ScheduledTask.run_count t1 = ScheduledTask.run_count t + 1 /\
    ScheduledTask.error_count t1 = ScheduledTask.error_count t + 1 /\
    (5 <= ScheduledTask.error_count t1 ->
     jobs_of r (_execute_task w clk r ts) = 0%nat).
Proof.
  intros Hok Hk Ht Hfail.
  pose proof (fun k1 k2 r0 => registry_injective ts k1 k2 r0 Hok) as Hinj.
  destruct Hok as [Hreg Hjobs].
  destruct (Hreg k r Hk) as [t0 [Ht0 Hid]].
  rewrite Ht in Ht0. injection Ht0 as <-.
  assert (Hk' : dict_get (ScheduledTask.id t) (scheduled_tasks ts)
                = Some r) by now rewrite Hid.
  destruct (_execute_task_registered w clk r ts t Ht Hk')
    as [Hr [_ [_ [_ Hj]]]].
  destruct (Hfail w (fun i => clk (S i)) (monitoring_system ts))
    as [e [ms' He]].
  rewrite He in Hr, Hj. cbn [fst] in Hr, Hj.
  destruct (task_after_run_fields (datetime_now (clk 0%nat)) (Raised e) t)
    as [Hrc [_ [Hec _]]].
  eexists. split; [exact Hr|].
  split; [apply task_after_run_id|].
  split; [exact Hrc|]. split; [exact Hec|].
  rewrite Hec. intros H5.
  unfold jobs_of. rewrite Hj.
  replace (5 <=? ScheduledTask.error_count t + 1) with true
    by (symmetry; apply Z.leb_le; exact H5).
  rewrite filter_none; [reflexivity|].
  intros j Hjin. apply schedule_clear_incl in Hjin.
  destruct Hjin as [Hjin Htag].
  apply Nat.eqb_neq. intros Heq.
  destruct (Hjobs j Hjin) as [Hget _]. rewrite Heq in Hget.
  apply Htag. now apply (Hinj _ _ r).
Qed.

Lemma run_job_cases (w : World) (clk : nat -> tick) (j : Job)
    (ts : TaskScheduler) :
  run_job w clk j ts = ts \/
  exists clk', run_job w clk j ts = _execute_task w clk' (job_task j) ts.
Proof.
  unfold run_job, job_task. destruct (job_do j) as [r|r]; [eauto|].
  unfold _check_monthly_task.
  destruct (nth_error (tasks ts) r) as [task|]; [|auto].
  destruct (day (datetime_now (clk 0%nat)) =? 1); [|auto].
  destruct (ScheduledTask.last_run task) as [last|]; [|eauto].
  destruct (negb (month last =? month (datetime_now (clk 0%nat))));
    eauto.
Qed.

(** One due job, seen from a task whose callable always fails. *)
Lemma run_job_breaker (w : World) (clk : nat -> tick) (j : Job) (r : nat)
    (ts : TaskScheduler) (t : Task) :
  TaskScheduler_ok ts ->
  dict_get (job_tag j) (scheduled_tasks ts) = Some (job_task j) ->
  nth_error (tasks ts) r = Some t ->
  always_fails (ScheduledTask.function t) ->
  (jobs_of r (run_job w clk j ts) <= jobs_of r ts)%nat /\
  exists t1,
    nth_error (tasks (run_job w clk j ts)) r = Some t1 /\
    ScheduledTask.function t1 = ScheduledTask.function t /\
    (job_task j <> r -> t1 = t) /\
    (t1 = t \/
     (ScheduledTask.run_count t1 = ScheduledTask.run_count t + 1 /\
      ScheduledTask.error_count t1 = ScheduledTask.error_count t + 1 /\
      (5 <= ScheduledTask.error_count t1 ->
       jobs_of r (run_job w clk j ts) = 0%nat))).
Proof.
  intros Hok Hk Ht Hfail.
  destruct (run_job_cases w clk j ts) as [->|[clk' ->]].
  { split; [lia|]. exists t. auto. }
  split; [now apply (_execute_task_jobs_of w clk' (job_tag j))|].
  destruct (Nat.eq_dec (job_task j) r) as [Heq|Hne].
  - rewrite Heq in *.
    destruct (_execute_task_breaker w clk' (job_tag j) r ts t Hok Hk Ht
                Hfail) as [t1 [Ht1 [Hf [Hrc [Hec H5]]]]].
    exists t1. split; [exact Ht1|]. split; [exact Hf|].
    split; [congruence|]. right. auto.
  - exists t. split.
    + rewrite (proj1 (_execute_task_step w clk' (job_tag j) _ ts Hok Hk))
        by congruence.
      exact Ht.
    + auto.
Qed.

(** One tick in which at most one due job runs the task. *)
Lemma run_pending_breaker (r : nat)
    (due : list (Job * World * (nat -> tick))) :
  forall (ts : TaskScheduler) (t : Task),
    TaskScheduler_ok ts ->
    (forall d, In d due ->
               dict_get (job_tag (fst (fst d))) (scheduled_tasks ts)
               = Some (job_task (fst (fst d)))) ->
    nth_error (tasks ts) r = Some t ->
    always_fails (ScheduledTask.function t) ->
    (due_of r due <= 1)%nat ->
    TaskScheduler_ok (run_pending due ts) /\
    (jobs_of r (run_pending due ts) <= jobs_of r ts)%nat /\
    exists t1,
      nth_error (tasks (run_pending due ts)) r = Some t1 /\
      ScheduledTask.function t1 = ScheduledTask.function t /\
      (due_of r due = 0%nat -> t1 = t) /\
      (t1 = t \/
       (ScheduledTask.run_count t1 = ScheduledTask.run_count t + 1 /\
        ScheduledTask.error_count t1 = ScheduledTask.error_count t + 1 /\
        (5 <= ScheduledTask.error_count t1 ->
         jobs_of r (run_pending due ts) = 0%nat))).
Proof.
  induction due as [|[[j w] clk] due IH]; intros ts t Hok Hdue Ht Hfail Hone.
  - split; [exact Hok|]. split; [apply Nat.le_refl|]. exists t. auto.
  - change (run_pending ((j, w, clk) :: due) ts)
      with (run_pending due (run_job w clk j ts)).
    assert (Hj : dict_get (job_tag j) (scheduled_tasks ts)
                 = Some (job_task j)).
    { apply (Hdue (j, w, clk)). now left. }
    destruct (TaskScheduler_ok_run_job w clk j ts Hok Hj) as [Hok1 Hreg1].
    destruct (run_job_breaker w clk j r ts t Hok Hj Ht Hfail)
      as [Hle1 [tm [Htm [Hfm [Hsame Hran]]]]].
    assert (Hdue1 : forall d, In d due ->
                      dict_get (job_tag (fst (fst d)))
                               (scheduled_tasks (run_job w clk j ts))
                      = Some (job_task (fst (fst d)))).
    { intros d Hd. rewrite Hreg1. apply Hdue. now right. }
    assert (Hfailm : always_fails (ScheduledTask.function tm))
      by now rewrite Hfm.
    unfold due_of in Hone. cbn [filter fst] in Hone.
    fold (due_of r due) in Hone.
    destruct (Nat.eqb_spec (job_task j) r) as [Heq|Hne].
    + cbn [List.length] in Hone.
      fold (due_of r due) in Hone.
      assert (Hzero : due_of r due = 0%nat) by (unfold due_of in *; lia).
      destruct (IH (run_job w clk j ts) tm Hok1 Hdue1 Htm Hfailm)
        as [Hok2 [Hle2 [t1 [Ht1 [Hf1 [Hkeep _]]]]]]; [lia|].
      specialize (Hkeep Hzero). subst t1.
      split; [exact Hok2|]. split; [lia|].
      exists tm. split; [exact Ht1|]. split; [exact Hfm|].
      split.
      * unfold due_of. cbn [filter fst].
        destruct (Nat.eqb_spec (job_task j) r); [|contradiction].
        cbn [List.length]. lia.
      * destruct Hran as [->|[Hrc [Hec H5]]]; [now left|right].
        split; [exact Hrc|]. split; [exact Hec|].
        intros Hfive. specialize (H5 Hfive). lia.
    + specialize (Hsame Hne). subst tm.
      destruct (IH (run_job w clk j ts) t Hok1 Hdue1 Htm Hfail)
        as [Hok2 [Hle2 [t1 [Ht1 [Hf1 [Hkeep Hran1]]]]]];
        [unfold due_of in *; exact Hone|].
      split; [exact Hok2|]. split; [lia|].
      exists t1. split; [exact Ht1|]. split; [exact Hf1|].
      split; [|exact Hran1].
      intros Hz. apply Hkeep. unfold due_of in *. cbn [filter fst] in Hz.
      destruct (Nat.eqb_spec (job_task j) r); [contradiction|exact Hz].
Qed.

(** Any number of such ticks: the task is run at most until its fifth
    failure. *)
Lemma scheduler_ticks_breaker (r : nat) (ts ts' : TaskScheduler) :
  scheduler_ticks ts ts' ->
  forall t : Task,
    TaskScheduler_ok ts ->
    nth_error (tasks ts) r = Some t ->
    always_fails (ScheduledTask.function t) ->
    (jobs_of r ts <= 1)%nat ->
    ScheduledTask.error_count t <= 5 ->
    (ScheduledTask.error_count t = 5 -> jobs_of r ts = 0%nat) ->
    exists t',
      nth_error (tasks ts') r = Some t' /\
      ScheduledTask.run_count t' - ScheduledTask.run_count t
      = ScheduledTask.error_count t' - ScheduledTask.error_count t /\
      ScheduledTask.error_count t <= ScheduledTask.error_count t' <= 5.
Proof.
  induction 1 as [ts|ts ts' due Hdue _ IH];
    intros t Hok Ht Hfail Hone Hle Hfive.
  - exists t. split; [exact Ht|]. split; lia.
  - pose proof (due_of_le r due ts Hdue) as Hd.
    destruct (run_pending_breaker r due ts t Hok) as
      [Hok1 [Hle1 [t1 [Ht1 [Hf1 [Hkeep Hran]]]]]]; auto; [|lia|].
    { intros d Hdin. apply (proj2 Hok). now apply (due_once_In due). }
    assert (Hfail1 : always_fails (ScheduledTask.function t1))
      by now rewrite Hf1.
    destruct Hran as [->|[Hrc [Hec H5]]].
    + destruct (IH t Hok1 Ht1 Hfail) as [t' [Ht' [Hacc Hb]]];
        [lia|exact Hle|intros H; specialize (Hfive H); lia|].
      exists t'. auto.
    + assert (Hlt : ScheduledTask.error_count t < 5).
      { destruct (Z.eq_dec (ScheduledTask.error_count t) 5) as [E|E];
          [|lia].
        specialize (Hfive E).
        assert (Hz : due_of r due = 0%nat) by lia.
        specialize (Hkeep Hz). subst t1. lia. }
      destruct (IH t1 Hok1 Ht1 Hfail1) as [t' [Ht' [Hacc Hb]]];
        [lia|lia|intros H; apply H5; lia|].
      exists t'. split; [exact Ht'|]. split; lia.
Qed.

(** C5: a registered, enabled task without earlier failures whose
    callable fails on every invocation.  Executed [n] times by
    [_execute_task], it has [error_count] [n]; it stays enabled and armed
    through its first four executions; with the fifth failure
    [error_count] reaches 5, the task is disabled and the jobs tagged with
    its id are cancelled, and no tick of the scheduler loop that starts
    afterwards runs it.  If the task has at most one armed job, the
    scheduler loop, each tick of which runs an armed job at most once,
    never invokes it more than five times: every invocation is a failure
    and the failures stop at 5. *)
Theorem circuit_breaker (ts : TaskScheduler) (r : nat) (task : Task)
    (runs : list (World * (nat -> tick))) :
  nth_error (tasks ts) r = Some task ->
  dict_get (ScheduledTask.id task) (scheduled_tasks ts) = Some r ->
  always_fails (ScheduledTask.function task) ->
  ScheduledTask.error_count task = 0 ->
  ScheduledTask.enabled task = true ->
  (forall j, In j (jobs ts) -> job_task j = r ->
             job_tag j = ScheduledTask.id task) ->
  let n := Z.of_nat (List.length runs) in
  let ts' := execute_many runs r ts in
  (exists task',
     nth_error (tasks ts') r = Some task' /\
     ScheduledTask.error_count task' = n /\
     ScheduledTask.run_count task' = ScheduledTask.run_count task + n /\
     (n < 5 -> ScheduledTask.enabled task' = true /\ jobs ts' = jobs ts) /\
     (5 <= n ->
      ScheduledTask.enabled task' = false /\
      jobs ts' = schedule_clear (ScheduledTask.id task) (jobs ts) /\
      (forall j, In j (jobs ts') -> job_task j <> r) /\
      (forall ts'', scheduler_loop ts' ts'' ->
                    option_map run_counters (nth_error (tasks ts'') r)
                    = Some (run_counters task')))) /\
  (TaskScheduler_ok ts ->
   (jobs_of r ts <= 1)%nat ->
   forall ts'', scheduler_ticks ts ts'' ->
     exists task'',
       nth_error (tasks ts'') r = Some task'' /\
       ScheduledTask.run_count task''
       = ScheduledTask.run_count task + ScheduledTask.error_count task'' /\
       0 <= ScheduledTask.error_count task'' <= 5).
Proof.
  intros Ht Hreg Hfail Hec Hen Htags n ts'. split.
  - exact (circuit_breaker_runs ts r task runs Ht Hreg Hfail Hec Hen
             Htags).
  - intros Hok Hone ts'' Hticks.
    destruct (scheduler_ticks_breaker r ts ts'' Hticks task Hok Ht Hfail
                Hone) as [t' [Ht' [Hacc Hb]]]; [lia|lia|].
    exists t'. split; [exact Ht'|]. split; lia.
Qed.

End Agent.

Arguments alert_manager {World}.
Arguments monitoring_active {World}.
Arguments metrics_history {World}.
Arguments custom_checks {World}.
Arguments mk_MonitoringSystem {World}.
Arguments MonitoringSystem_init {World}.
Arguments monitoring_cycle {World}.
Arguments monitoring_cycles {World}.
Arguments mk_TaskScheduler {World}.
Arguments monitoring_system {World}.
Arguments scheduler_active {World}.
Arguments tasks {World}.
Arguments scheduled_tasks {World}.
Arguments jobs {World}.
Arguments add_task {World}.
Arguments enable_task {World}.
Arguments disable_task {World}.
Arguments remove_task {World}.
Arguments _execute_task {World}.
Arguments execute_many {World}.
Arguments run_pending {World}.
Arguments _check_database_connection {World}.
Arguments always_fails {World}.
Arguments failures {World}.
Arguments scheduler_loop {World}.
Arguments run_counters {World}.
Arguments broken {World}.
Arguments flaky {World}.
Arguments empty_scheduler {World}.
Arguments broken_task {World}.
Arguments broken_task_scheduler {World}.
Arguments flaky_task {World}.
Arguments flaky_task_scheduler {World}.

Arguments start_scheduler {World}.
Arguments stop_scheduler {World}.
Arguments _toggle_task {World}.
Arguments _run_task_manually {World}.
Arguments _check_monthly_task {World}.
Arguments TaskScheduler_ok {World}.
Arguments scheduler_reachable {World}.
Arguments sched_new {World}.
Arguments sched_add_task {World}.
Arguments sched_disable_task {World}.
Arguments loop_done {World}.
Arguments loop_tick {World}.
Arguments task_progress {World}.
Arguments tasks_progress {World}.
Arguments jobs_of {World}.

Arguments due_once {World}.
Arguments due_of {World}.
Arguments scheduler_ticks {World}.
Arguments ticks_done {World}.
Arguments ticks_step {World}.

(* ================================================================= *)
(** * Instances *)

Lemma one_active_alert_per_metric_witness :
  let am := _check_thresholds_upto 5 steady_clock default_thresholds
              (sample_with_cpu 0 95%float) AlertManager_init in
  engine_reachable default_thresholds am /\
  (forall metric_name, (count_active metric_name am <= 1)%nat).
Proof.
  intros am.
  assert (H : engine_reachable default_thresholds am)
    by (apply reach_check, reach_init).
  split; [exact H|].
  exact (proj1 (one_active_alert_per_metric default_thresholds am H)).
Defined.

Lemma _determine_severity_tiers_witness :
  PrimFloat.ltb 0 80 = true /\ PrimFloat.ltb 80 96 = true /\
  PrimFloat.leb 0x1.3333333333333p+0 (96 / 80) = true /\
  _determine_severity 96 80 = Returned "medium".
Proof.
  split; [reflexivity|]. split; [reflexivity|]. split; [reflexivity|].
  apply (proj1 (proj2 (proj2 (_determine_severity_tiers 96 80
                                eq_refl eq_refl))));
    reflexivity.
Defined.

Lemma metrics_history_fifo_witness :
  let inputs :=
    map (fun i => (tt, steady_clock,
                   sample_with_cpu (Z.of_nat i) 50%float))
        (seq 0 1001) in
  metrics_history (@MonitoringSystem_init unit) = [] /\
  List.length inputs = 1001%nat /\
  metrics_history
    (monitoring_cycles default_thresholds inputs MonitoringSystem_init)
  = tl (map snd inputs).
Proof.
  intros inputs.
  assert (Hlen : List.length inputs = 1001%nat) by reflexivity.
  split; [reflexivity|]. split; [exact Hlen|].
  exact (proj1 (metrics_history_fifo unit default_thresholds inputs
                  MonitoringSystem_init (sample_with_cpu 0 0%float)
                  eq_refl Hlen)).
Defined.

Lemma circuit_breaker_witness :
  let ts : TaskScheduler unit := broken_task_scheduler in
  let runs := repeat (tt, steady_clock) 5 in
  let due :=
    [(mk_Job "nightly" (EverySeconds (PyInt 60)) (wrapped_function 0),
      tt, steady_clock)] in
  let ts5 :=
    run_pending due
      (run_pending due
         (run_pending due (run_pending due (run_pending due ts)))) in
  nth_error (tasks ts) 0 = Some broken_task /\
  dict_get "nightly" (scheduled_tasks ts) = Some 0%nat /\
  always_fails (@broken unit) /\
  option_map ScheduledTask.enabled
    (nth_error (tasks (execute_many runs 0 ts)) 0)
  = Some false /\
  jobs (execute_many runs 0 ts) = [] /\
  TaskScheduler_ok ts /\
  jobs_of 0 ts = 1%nat /\
  scheduler_ticks ts ts5 /\
  jobs ts5 = [] /\
  exists task'',
    nth_error (tasks ts5) 0 = Some task'' /\
    ScheduledTask.run_count task'' = 0 + ScheduledTask.error_count task'' /\
    0 <= ScheduledTask.error_count task'' <= 5.
Proof.
  intros ts runs due ts5.
  assert (Hf : always_fails (@broken unit)).
  { intros w clk ms. eexists. eexists. reflexivity. }
  assert (Htags : forall j, In j (jobs ts) ->
                            job_task j = 0%nat ->
                            job_tag j = ScheduledTask.id (@broken_task unit)).
  { intros j [<-|[]] _. reflexivity. }
  assert (Hok : TaskScheduler_ok ts).
  { exact (scheduler_invariant unit accept_all accept_all _
             (sched_add_task accept_all accept_all "nightly" "Nightly job"
                broken "interval" (PyInt 60) true empty_scheduler
                (sched_new accept_all accept_all MonitoringSystem_init))). }
  assert (Hticks : scheduler_ticks ts ts5).
  { do 5 (apply ticks_step with (due := due);
          [exists []; vm_compute; apply Permutation_refl|]).
    apply ticks_done. }
  destruct (circuit_breaker unit ts 0 broken_task runs
              eq_refl eq_refl Hf eq_refl eq_refl Htags)
    as [[task' [Ht' [_ [_ [_ H5]]]]] Hloop].
  destruct H5 as [Hen [Hj _]]; [simpl; lia|].
  split; [reflexivity|]. split; [reflexivity|]. split; [exact Hf|].
  split; [rewrite Ht'; simpl; now rewrite Hen|].
  split; [rewrite Hj; reflexivity|].
  split; [exact Hok|]. split; [reflexivity|]. split; [exact Hticks|].
  split; [reflexivity|].
  exact (Hloop Hok (Nat.le_refl 1) ts5 Hticks).
Defined.

Lemma error_count_cumulative_witness :
  let ts : TaskScheduler unit := flaky_task_scheduler in
  let runs := map (fun t => (tt, clock_at t)) [1; 0; 1; 0; 0; 1; 1; 0; 1] in
  nth_error (tasks ts) 0 = Some flaky_task /\
  dict_get "sync" (scheduled_tasks ts) = Some 0%nat /\
  exists task',
    nth_error (tasks (execute_many runs 0 ts)) 0 = Some task' /\
    ScheduledTask.error_count task' = 5 /\
    ScheduledTask.run_count task' = 9 /\
    ScheduledTask.enabled task' = false.
Proof.
  intros ts runs. split; [reflexivity|]. split; [reflexivity|].
  destruct (proj2 (error_count_cumulative unit ts 0 flaky_task
                     eq_refl eq_refl) runs)
    as [task' [Ht' [Hec [Hrc [_ [Htrip _]]]]]].
  exists task'.
  split; [exact Ht'|]. split; [exact Hec|]. split; [exact Hrc|].
  apply Htrip; simpl; lia.
Defined.

(** Two calls of [create_alert] within one second for the same category
    and metric: the ids coincide, the second alert takes the place of the
    first in the active set, and the history holds both. *)
Lemma create_alert_same_second_collides :
  let t1 := mk_tick 1704110400 (mk_datetime 2024 1 1 12 0 0 100) in
  let t2 := mk_tick 1704110400 (mk_datetime 2024 1 1 12 0 0 900000) in
  let c1 := create_alert t1 "connection" "database_connection"
                         "Conexión a la base de datos perdida"
                         0 1 "critical" AlertManager_init in
  let c2 := create_alert t2 "connection" "database_connection"
                         "Conexión a la base de datos perdida"
                         0 1 "critical" (snd c1) in
  fst c1 <> fst c2 /\
  option_map Alert.id (nth_error (alerts (snd c2)) (fst c1))
  = option_map Alert.id (nth_error (alerts (snd c2)) (fst c2)) /\
  active_alerts (snd c2)
  = [("connection_database_connection_1704110400", fst c2)] /\
  alert_history (snd c2) = [fst c1; fst c2].
Proof.
  vm_compute. repeat split. discriminate.
Qed.

(** A fresh, enabled task with a schedule type that [_schedule_task] does
    not know: it is stored, True is returned, and nothing is armed. *)
Lemma add_task_unknown_type_not_armed :
  let ts : TaskScheduler unit := empty_scheduler in
  let res := add_task accept_all accept_all "hourly_report" "Hourly report"
                      broken "hourly" (PyInt 1) true ts in
  dict_mem "hourly_report" (scheduled_tasks ts) = false /\
  fst res = Returned true /\
  option_map ScheduledTask.enabled (nth_error (tasks (snd res)) 0)
  = Some true /\
  jobs (snd res) = [].
Proof.
  vm_compute. repeat split.
Qed.

(** A task armed twice, [enable_task] called for the enabled and armed
    task, whose two jobs are due in every tick: the fifth failure comes
    with the first job of the third tick and cancels both jobs, and the
    second job, picked as due when the tick started, still runs the task
    a sixth time. *)
Lemma circuit_breaker_sixth_run_when_armed_twice :
  let ts : TaskScheduler unit :=
    snd (enable_task accept_all accept_all "nightly"
                     broken_task_scheduler) in
  let job :=
    mk_Job "nightly" (EverySeconds (PyInt 60)) (wrapped_function 0) in
  let due := [(job, tt, steady_clock); (job, tt, steady_clock)] in
  let ts' := run_pending due (run_pending due (run_pending due ts)) in
  nth_error (tasks ts) 0 = Some broken_task /\
  dict_get "nightly" (scheduled_tasks ts) = Some 0%nat /\
  always_fails (@broken unit) /\
  jobs ts = [job; job] /\
  scheduler_ticks ts ts' /\
  option_map ScheduledTask.error_count
    (nth_error (tasks (run_pending due (run_pending due ts))) 0)
  = Some 4 /\
  option_map ScheduledTask.run_count (nth_error (tasks ts') 0) = Some 6 /\
  option_map ScheduledTask.error_count (nth_error (tasks ts') 0)
  = Some 6 /\
  option_map ScheduledTask.enabled (nth_error (tasks ts') 0)
  = Some false /\
  jobs ts' = [].
Proof.
  intros ts job due ts'.
  split; [reflexivity|]. split; [reflexivity|].
  split; [intros w clk ms; eexists; eexists; reflexivity|].
  split; [reflexivity|].
  split.
  - do 3 (apply ticks_step with (due := due);
          [exists []; vm_compute; apply Permutation_refl|]).
    apply ticks_done.
  - vm_compute. repeat split.
Qed.

Lemma default_thresholds_nonzero (name : string) (t : float) :
  dict_get name default_thresholds = Some t -> PrimFloat.eqb t 0 = false.
Proof.
  unfold default_thresholds. simpl.
  repeat match goal with
         | |- context [String.eqb name ?s] => destruct (String.eqb name s)
         end;
    try discriminate; intros [= <-]; reflexivity.
Qed.

(** Threshold 80 for [cpu_usage] and the samples 81, 81, 79 on a fresh
    alert manager: one alert created, kept, then resolved. *)
Lemma hysteresis_nonzero_thresholds_witness :
  let p1 := _check_thresholds steady_clock default_thresholds
              (sample_with_cpu 0 81%float) AlertManager_init in
  let p2 := _check_thresholds steady_clock default_thresholds
              (sample_with_cpu 1 81%float) (snd p1) in
  let p3 := _check_thresholds steady_clock default_thresholds
              (sample_with_cpu 2 79%float) (snd p2) in
  PrimFloat.ltb 80 (80 + 1) = true /\
  PrimFloat.ltb 80 (80 - 1) = false /\
  (created "cpu_usage" (snd p1) = 1%nat /\
   count_active "cpu_usage" (snd p1) = 1%nat) /\
  (created "cpu_usage" (snd p2) = 1%nat /\
   resolved_count "cpu_usage" (snd p2) = 0%nat) /\
  (created "cpu_usage" (snd p3) = 1%nat /\
   resolved_count "cpu_usage" (snd p3) = 1%nat /\
   count_active "cpu_usage" (snd p3) = 0%nat).
Proof.
  intros p1 p2 p3.
  destruct (hysteresis_nonzero_thresholds default_thresholds
              "cpu_usage" "Uso de CPU" "performance" 80 81 81 79
              (sample_with_cpu 0 81%float) (sample_with_cpu 1 81%float)
              (sample_with_cpu 2 79%float)
              steady_clock steady_clock steady_clock AlertManager_init)
    as [[_ [C1 [R1 N1]]] [[_ [C2 [R2 _]]] [_ [C3 [R3 N3]]]]];
    try reflexivity.
  - right. left. reflexivity.
  - exact default_thresholds_nonzero.
  - exact dedup_invariant_init.
  - subst p1 p2 p3. cbv zeta in *.
    split; [reflexivity|]. split; [reflexivity|].
    split; [split; [rewrite C1; reflexivity|exact N1]|].
    split; [split; [rewrite C2, C1; reflexivity
                   |rewrite R2, R1; reflexivity]|].
    split; [rewrite C3, C2, C1; reflexivity|].
    split; [rewrite R3, R2, R1; reflexivity|exact N3].
Defined.

(** The ratio 1.2 itself is medium; the spec's scenario 95 against 80 has
    the ratio 1.1875 and is low. *)
Lemma _determine_severity_examples :
  _determine_severity 96 80 = Returned "medium" /\
  _determine_severity 95 80 = Returned "low" /\
  _determine_severity 120 80 = Returned "high" /\
  _determine_severity 160 80 = Returned "critical" /\
  _determine_severity 1 0
  = Raised (mk_exn ZeroDivisionError "float division by zero").
Proof. repeat split. Qed.

(** The spec's scenario: the default tasks are registered on a new
    scheduler, the first of its process, the data source is not
    reachable, and the task [connection_check] is run once.  One alert is
    active afterwards, with the fields of the connection check; returning
    False is no failure of the task. *)
Lemma connection_check_scenario :
  let unreachable (w : unit) := Returned false in
  let idle : Callable unit := fun w clk ms => (Returned PyNone, ms) in
  let config := mk_AutomationConfig true true true "daily" default_thresholds in
  let ts := snd (_setup_default_tasks unit unreachable accept_all accept_all
                                      idle idle idle idle idle config
                                      empty_scheduler) in
  let ts' := _execute_task tt steady_clock 5 ts in
  dict_get "connection_check" (scheduled_tasks ts) = Some 5%nat /\
  active_alert_objects (alert_manager (monitoring_system ts'))
  = [Alert.mk "connection_database_connection_1704110400" noon "critical"
              "connection" "Conexión a la base de datos perdida"
              "database_connection" 0 1 false None] /\
  option_map ScheduledTask.run_count (nth_error (tasks ts') 5) = Some 1 /\
  option_map ScheduledTask.error_count (nth_error (tasks ts') 5) = Some 0 /\
  option_map ScheduledTask.last_error (nth_error (tasks ts') 5) = Some None.
Proof. vm_compute. repeat split. Qed.

(* ----------------------------------------------------------------- *)
(** ** Instances of the further properties *)

Lemma create_then_resolve_witness :
  let now := steady_clock 0 in
  let later := mk_datetime 2024 1 1 12 5 0 0 in
  let created :=
    create_alert now "performance" "cpu_usage" "Uso de CPU" 95 80 "low"
                 AlertManager_init in
  dict_mem "performance_cpu_usage_1704110400"
           (active_alerts AlertManager_init) = false /\
  active_alerts
    (snd (resolve_alert later "performance_cpu_usage_1704110400"
                        (snd created))) = [].
Proof.
  intros now later created. split; [reflexivity|].
  exact (proj1 (proj2 (create_then_resolve now later "performance"
                         "cpu_usage" "Uso de CPU" 95 80 "low"
                         AlertManager_init eq_refl))).
Defined.

Lemma manager_reachable_invariant_witness :
  let am :=
    snd (create_alert (steady_clock 0) "connection" "database_connection"
                      "lost" 0 1 "critical" AlertManager_init) in
  manager_reachable am /\ alert_history am = [0%nat].
Proof.
  intros am.
  assert (H : manager_reachable am) by (apply manager_create, manager_init).
  split; [exact H|].
  exact (proj1 (manager_reachable_invariant am H)).
Defined.

Lemma _check_thresholds_raises_witness :
  let res := _check_thresholds steady_clock [("cpu_usage", 0%float)]
               (sample_with_cpu 0 1%float) AlertManager_init in
  (exists e, fst res = Raised e /\
             exn_class_of e = ZeroDivisionError) /\
  exists M d c cur thr,
    In (M, d, c) checks /\
    dict_get M (metrics_values (sample_with_cpu 0 1%float)) = Some cur /\
    dict_get M [("cpu_usage", 0%float)] = Some thr /\
    PrimFloat.eqb thr 0 = true /\
    PrimFloat.ltb thr cur = true.
Proof.
  intros res.
  assert (H : fst res
              = Raised (mk_exn ZeroDivisionError "float division by zero"))
    by reflexivity.
  destruct (_check_thresholds_raises steady_clock
              [("cpu_usage", 0%float)] (sample_with_cpu 0 1%float)
              AlertManager_init _ H) as [Hclass Hwhy].
  split; [|exact Hwhy].
  eexists. split; [exact H|exact Hclass].
Defined.

Lemma recovery_resolves_every_alert_witness :
  let am := snd (_check_thresholds steady_clock default_thresholds
                   (sample_with_cpu 0 95%float) AlertManager_init) in
  let res := _check_thresholds steady_clock default_thresholds
               (sample_with_cpu 1 50%float) am in
  count_active "cpu_usage" am = 1%nat /\
  AlertManager_ok am /\
  fst res = Returned tt /\
  count_active "cpu_usage" (snd res) = 0%nat.
Proof.
  intros am res.
  assert (Hok : AlertManager_ok am).
  { unfold am.
    rewrite (proj2 (_check_thresholds_loop steady_clock default_thresholds
                      (sample_with_cpu 0 95%float) AlertManager_init)).
    apply AlertManager_ok_check_loop. apply dedup_invariant_init. }
  split; [reflexivity|]. split; [exact Hok|]. split; [reflexivity|].
  apply (recovery_resolves_every_alert steady_clock default_thresholds
           (sample_with_cpu 1 50%float) am "cpu_usage" "Uso de CPU"
           "performance" 50 80);
    try reflexivity; [right; left; reflexivity|exact Hok].
Defined.

Lemma untracked_alert_survives_witness :
  let am :=
    snd (create_alert (steady_clock 0) "connection" "database_connection"
                      "lost" 0 1 "critical" AlertManager_init) in
  let am' := snd (_check_thresholds steady_clock default_thresholds
                    (sample_with_cpu 0 95%float) am) in
  AlertManager_ok am /\
  dict_get "connection_database_connection_1704110400" (active_alerts am')
  = Some 0%nat /\
  nth_error (alerts am') 0 = nth_error (alerts am) 0.
Proof.
  intros am am'.
  assert (Hok : AlertManager_ok am).
  { apply AlertManager_ok_create, dedup_invariant_init. }
  split; [exact Hok|].
  apply (untracked_alert_survives steady_clock default_thresholds
           (sample_with_cpu 0 95%float) am "database_connection"
           "connection_database_connection_1704110400" 0 Hok);
    try reflexivity.
  - repeat constructor; discriminate.
  - repeat constructor; intros t; unfold make_alert_id; simpl;
      discriminate.
Defined.

Lemma engine_alerts_well_formed_witness :
  let am := _check_thresholds_upto 5 steady_clock default_thresholds
              (sample_with_cpu 0 95%float) AlertManager_init in
  engine_reachable default_thresholds am /\
  List.length (alerts am) = 1%nat /\
  Forall (engine_alert default_thresholds) (alerts am).
Proof.
  intros am.
  assert (H : engine_reachable default_thresholds am)
    by (apply reach_check, reach_init).
  split; [exact H|]. split; [reflexivity|].
  apply Forall_forall. intros a Ha.
  exact (engine_alerts_well_formed default_thresholds am a H Ha).
Defined.

Lemma scheduler_reachable_invariant_witness :
  let ts : TaskScheduler unit :=
    snd (add_task accept_all accept_all "nightly" "Nightly job" broken
                  "interval" (PyInt 60) true empty_scheduler) in
  scheduler_reachable accept_all accept_all ts /\ TaskScheduler_ok ts.
Proof.
  intros ts.
  assert (H : scheduler_reachable accept_all accept_all ts)
    by (apply sched_add_task, sched_new).
  split; [exact H|].
  exact (scheduler_reachable_invariant unit accept_all accept_all ts H).
Defined.


Lemma disabled_task_not_run_witness :
  let ts : TaskScheduler unit :=
    snd (disable_task "nightly"
           (snd (add_task accept_all accept_all "sync" "Sync job" flaky
                          "interval" (PyInt 60) true
                          (snd (add_task accept_all accept_all "nightly"
                                         "Nightly job" broken "interval"
                                         (PyInt 60) true
                                         empty_scheduler))))) in
  let task := ScheduledTask.set_enabled false broken_task in
  let sync := mk_Job "sync" (EverySeconds (PyInt 60)) (wrapped_function 1) in
  let ts' := run_pending [(sync, tt, clock_at 0)]
               (run_pending [(sync, tt, clock_at 1)] ts) in
  scheduler_reachable accept_all accept_all ts /\
  nth_error (tasks ts) 0 = Some task /\
  jobs ts = [sync] /\
  scheduler_loop ts ts' /\
  option_map ScheduledTask.run_count (nth_error (tasks ts') 1) = Some 2 /\
  option_map ScheduledTask.error_count (nth_error (tasks ts') 1) = Some 1 /\
  nth_error (tasks ts') 0 = Some task.
Proof.
  intros ts task sync ts'.
  assert (H : scheduler_reachable accept_all accept_all ts)
    by (apply sched_disable_task, sched_add_task, sched_add_task,
          sched_new).
  assert (Hloop : scheduler_loop ts ts').
  { apply (loop_tick ts ts' [(sync, tt, clock_at 1)]).
    { intros d [<-|[]]. left. reflexivity. }
    apply (loop_tick _ ts' [(sync, tt, clock_at 0)]); [|apply loop_done].
    intros d [<-|[]]. left. reflexivity. }
  split; [exact H|]. split; [reflexivity|]. split; [reflexivity|].
  split; [exact Hloop|]. split; [reflexivity|]. split; [reflexivity|].
  exact (disabled_task_not_run unit accept_all accept_all ts ts' 0 task H
           eq_refl eq_refl Hloop).
Defined.

Lemma monthly_task_once_per_month_witness :
  let ts : TaskScheduler unit := broken_task_scheduler in
  let ts1 := _check_monthly_task tt steady_clock 0 ts in
  nth_error (tasks ts) 0 = Some broken_task /\
  day (datetime_now (steady_clock 0)) = 1 /\
  option_map ScheduledTask.run_count (nth_error (tasks ts1) 0) = Some 1 /\
  _check_monthly_task tt steady_clock 0 ts1 = ts1.
Proof.
  intros ts ts1.
  split; [reflexivity|]. split; [reflexivity|]. split; [reflexivity|].
  exact (monthly_task_once_per_month unit tt tt steady_clock steady_clock
           0 ts broken_task eq_refl eq_refl eq_refl eq_refl).
Defined.

Lemma enable_task_arms_one_more_witness :
  let ts : TaskScheduler unit := broken_task_scheduler in
  let res := enable_task accept_all accept_all "nightly" ts in
  option_map ScheduledTask.enabled (nth_error (tasks ts) 0) = Some true /\
  jobs_of 0 ts = 1%nat /\
  fst res = Returned true /\
  jobs_of 0 (snd res) = 2%nat.
Proof.
  intros ts res.
  destruct (enable_task_arms_one_more unit accept_all accept_all "nightly"
              ts 0 broken_task eq_refl eq_refl eq_refl)
    as [Hret [_ [_ [Hjobs _]]]].
  split; [reflexivity|]. split; [reflexivity|]. split; [exact Hret|].
  exact Hjobs.
Defined.

Lemma remove_then_add_task_witness :
  let ts : TaskScheduler unit := broken_task_scheduler in
  let removed := remove_task "nightly" ts in
  let res := add_task accept_all accept_all "nightly" "Nightly job, again"
                      flaky "daily" (PyStr "01:00") true (snd removed) in
  dict_mem "nightly" (scheduled_tasks ts) = true /\
  jobs (snd removed) = [] /\
  dict_get "nightly" (scheduled_tasks (snd res)) = Some 1%nat.
Proof.
  intros ts removed res.
  split; [reflexivity|]. split; [reflexivity|].
  exact (proj1 (proj2 (proj2 (proj2 (proj2 (proj2
           (remove_then_add_task unit accept_all accept_all "nightly"
              "Nightly job, again" flaky "daily" (PyStr "01:00") true ts
              eq_refl))))))).
Defined.

Lemma toggle_task_twice_witness :
  let ts : TaskScheduler unit :=
    snd (add_task accept_all accept_all "nightly" "Nightly job" broken
                  "interval" (PyInt 60) true empty_scheduler) in
  let ts2 := snd (_toggle_task accept_all accept_all "nightly"
                    (snd (_toggle_task accept_all accept_all "nightly"
                                       ts))) in
  scheduler_reachable accept_all accept_all ts /\
  nth_error (tasks ts2) 0 = Some broken_task /\
  jobs_of 0 ts2 = 1%nat.
Proof.
  intros ts ts2.
  assert (H : scheduler_reachable accept_all accept_all ts)
    by (apply sched_add_task, sched_new).
  split; [exact H|].
  exact (proj2 (toggle_task_twice unit accept_all accept_all "nightly" ts 0
                  broken_task H eq_refl eq_refl eq_refl)).
Defined.

Lemma default_tasks_registered_witness :
  let idle : Callable unit := fun w clk ms => (Returned PyNone, ms) in
  let config :=
    mk_AutomationConfig false true true "hourly" default_thresholds in
  let setup :=
    _setup_default_tasks unit (fun _ => Returned true) accept_all
                         accept_all idle idle idle idle idle config in
  let first := setup (mk_TaskScheduler MonitoringSystem_init false [] [] []) in
  let second :=
    setup (mk_TaskScheduler MonitoringSystem_init false [] []
                            (jobs (snd first))) in
  fst first = Returned tt /\
  dict_keys (scheduled_tasks (snd first))
  = ["weekly_optimization"; "cleanup_old_files"; "connection_check"] /\
  map job_tag (jobs (snd first))
  = ["weekly_optimization"; "cleanup_old_files"; "connection_check"] /\
  fst second = Returned tt /\
  map job_tag (jobs (snd second))
  = ["weekly_optimization"; "cleanup_old_files"; "connection_check";
     "weekly_optimization"; "cleanup_old_files"; "connection_check"].
Proof.
  intros idle config setup first second.
  destruct (default_tasks_registered unit (fun _ => Returned true)
              accept_all accept_all idle idle idle idle idle config
              MonitoringSystem_init [] eq_refl eq_refl eq_refl eq_refl)
    as [Hret [_ [_ [_ [Hreg [[new [Hjobs [Htags _]]] _]]]]]].
  destruct (default_tasks_registered unit (fun _ => Returned true)
              accept_all accept_all idle idle idle idle idle config
              MonitoringSystem_init (jobs (snd first))
              eq_refl eq_refl eq_refl eq_refl)
    as [Hret2 [_ [_ [_ [_ [[new2 [Hjobs2 [Htags2 _]]] _]]]]]].
  split; [exact Hret|].
  split; [fold setup first in Hreg; rewrite Hreg; reflexivity|].
  split; [fold setup first in Hjobs; rewrite Hjobs; exact Htags|].
  split; [exact Hret2|].
  fold setup second in Hjobs2. rewrite Hjobs2, map_app, Htags2.
  reflexivity.
Defined.

Lemma unsupported_schedule_never_runs_witness :
  let ts : TaskScheduler unit :=
    snd (add_task accept_all accept_all "nightly" "Nightly job" broken
                  "interval" (PyInt 60) true empty_scheduler) in
  let res := add_task accept_all accept_all "weekly_digest" "Weekly digest"
                      flaky "weekly" (PyStr "someday") true ts in
  let nightly :=
    mk_Job "nightly" (EverySeconds (PyInt 60)) (wrapped_function 0) in
  let ts' := run_pending [(nightly, tt, steady_clock)]
               (run_pending [(nightly, tt, steady_clock)] (snd res)) in
  scheduler_reachable accept_all accept_all ts /\
  silent_schedule "weekly" (PyStr "someday") = true /\
  fst res = Returned true /\
  jobs (snd res) = [nightly] /\
  scheduler_loop (snd res) ts' /\
  option_map ScheduledTask.run_count (nth_error (tasks ts') 0) = Some 2 /\
  nth_error (tasks ts') 1
  = Some (ScheduledTask.mk "weekly_digest" "Weekly digest" flaky "weekly"
                           (PyStr "someday") true None None 0 0 None).
Proof.
  intros ts res nightly ts'.
  assert (H : scheduler_reachable accept_all accept_all ts)
    by (apply sched_add_task, sched_new).
  assert (Hloop : scheduler_loop (snd res) ts').
  { apply (loop_tick _ ts' [(nightly, tt, steady_clock)]).
    { intros d [<-|[]]. left. reflexivity. }
    apply (loop_tick _ ts' [(nightly, tt, steady_clock)]);
      [|apply loop_done].
    intros d [<-|[]]. left. reflexivity. }
  destruct (unsupported_schedule_never_runs unit accept_all accept_all
              "weekly_digest" "Weekly digest" flaky "weekly"
              (PyStr "someday") ts H eq_refl eq_refl)
    as [Hret [Hjobs Hnever]].
  split; [exact H|]. split; [reflexivity|]. split; [exact Hret|].
  split; [exact Hjobs|]. split; [exact Hloop|]. split; [reflexivity|].
  exact (proj2 (Hnever ts' Hloop)).
Defined.

Lemma connection_alerts_accumulate_witness :
  let unreachable (w : unit) : outcome bool := Returned false in
  let ms1 := snd (_check_database_connection unreachable tt (clock_at 100)
                    MonitoringSystem_init) in
  let ms2 := snd (_check_database_connection unreachable tt (clock_at 400)
                    ms1) in
  AlertManager_ok (alert_manager ms1) /\
  count_active "database_connection" (alert_manager ms1) = 1%nat /\
  count_active "database_connection" (alert_manager ms2) = 2%nat.
Proof.
  intros unreachable ms1 ms2.
  assert (Hok : AlertManager_ok (alert_manager ms1)).
  { apply (AlertManager_ok_create (clock_at 100 0%nat) "connection"
             "database_connection"
             "Conexión a la base de datos perdida" 0 1 "critical"
             AlertManager_init).
    apply dedup_invariant_init. }
  split; [exact Hok|]. split; [reflexivity|].
  exact (proj1 (connection_alerts_accumulate unit unreachable tt
                  (clock_at 400) ms1 eq_refl Hok eq_refl)).
Defined.

Lemma listed_alerts_are_active_witness :
  let am :=
    snd (create_alert (steady_clock 0) "connection" "database_connection"
                      "lost" 0 1 "critical" AlertManager_init) in
  manager_reachable am /\
  List.length (get_active_alerts None am) = 1%nat.
Proof.
  intros am.
  assert (H : manager_reachable am) by (apply manager_create, manager_init).
  split; [exact H|].
  exact (proj1 (listed_alerts_are_active am H)).
Defined.
